(** * AsphaltDBParser.py: the MEI page parser, embedded and verified

    The development follows [src/AsphaltDBParser.py]: the line normaliser,
    [parse_number], [extract_bp_from_two_lines], [parse_stat_block],
    [parse_mei_page], and the driver of the script: the ids it is asked for
    and its batch loop.  Python values are modelled as follows.

    - A [str] is the list of its Unicode code points ([len] is [length]).
    - The classes [\d] and [\s] of [re], [str.isspace], [str.splitlines],
      [int(str)] and [float(str)] follow CPython 3.11 (Unicode 14).
    - [int] is [Z]; [int(str)] refuses a string of more than
      [int_max_str_digits] digits, the interpreter's limit at its default
      of 4300.
    - [float] is IEEE binary64 with round-to-nearest-even, kept as a dyadic
      rational in normal form, or infinity.
    - Exceptions are the constructors of [error]; functions that can raise
      return a [result]. *)

From Stdlib Require Import ZArith NArith List Bool Lia.
From Stdlib Require String Ascii.
From stdpp Require Import base numbers option list gmap strings sorting.

(* stdpp's solvers clear hypotheses that their own steps already removed. *)
#[local] Set Warnings "-clear-no-such-hyp".

Local Open Scope N_scope.

(** ** Text *)

Definition char := N.
Definition str := list char.

(** An ASCII literal of the source, as code points. *)
Definition lit (s : string) : str :=
  map Ascii.N_of_ascii (String.list_ascii_of_string s).

Definition STAR : char := 0x2B50.   (* the star glyph of the pages *)
Definition KEY : char := 0x1F511.   (* the key glyph *)
Definition FUEL : char := 0x26FD.   (* the fuel pump glyph *)
Definition NBSP : char := 0xA0.
Definition SPACE : char := 0x20.

Definition str_eqb (a b : str) : bool := bool_decide (a = b).

(** Code points of the digit zero of every decimal-digit block (category Nd);
    each block holds the ten digits 0..9 in order. *)
Definition nd_zeros : list N :=
  [ 0x30; 0x660; 0x6F0; 0x7C0; 0x966; 0x9E6; 0xA66; 0xAE6; 0xB66; 0xBE6;
    0xC66; 0xCE6; 0xD66; 0xDE6; 0xE50; 0xED0; 0xF20; 0x1040; 0x1090; 0x17E0;
    0x1810; 0x1946; 0x19D0; 0x1A80; 0x1A90; 0x1B50; 0x1BB0; 0x1C40; 0x1C50;
    0xA620; 0xA8D0; 0xA900; 0xA9D0; 0xA9F0; 0xAA50; 0xABF0; 0xFF10; 0x104A0;
    0x10D30; 0x11066; 0x110F0; 0x11136; 0x111D0; 0x112F0; 0x11450; 0x114D0;
    0x11650; 0x116C0; 0x11730; 0x118E0; 0x11950; 0x11C50; 0x11D50; 0x11DA0;
    0x16A60; 0x16AC0; 0x16B50; 0x1D7CE; 0x1D7D8; 0x1D7E2; 0x1D7EC; 0x1D7F6;
    0x1E140; 0x1E2F0; 0x1E950; 0x1FBF0 ].

Definition digit_value (c : char) : option Z :=
  match List.find (λ z, (z <=? c) && (c <? z + 10)) nd_zeros with
  | Some z => Some (Z.of_N (c - z))
  | None => None
  end.

(** [\d] *)
Definition is_digit (c : char) : bool :=
  match digit_value c with Some _ => true | None => false end.

(** [\s] and [str.isspace] *)
Definition is_space (c : char) : bool :=
  ((0x9 <=? c) && (c <=? 0xD)) || ((0x1C <=? c) && (c <=? 0x20))
  || (c =? 0x85) || (c =? 0xA0) || (c =? 0x1680)
  || ((0x2000 <=? c) && (c <=? 0x200A))
  || (c =? 0x2028) || (c =? 0x2029) || (c =? 0x202F) || (c =? 0x205F)
  || (c =? 0x3000).

(** The line boundaries of [str.splitlines]. *)
Definition is_linebreak (c : char) : bool :=
  ((0xA <=? c) && (c <=? 0xD)) || ((0x1C <=? c) && (c <=? 0x1E))
  || (c =? 0x85) || (c =? 0x2028) || (c =? 0x2029).

(** [text.splitlines()]: [cur] is the current line, reversed. *)
Fixpoint splitlines_from (cur : str) (s : str) : list str :=
  match s with
  | [] => match cur with [] => [] | _ => [rev cur] end
  | c :: s' =>
      if is_linebreak c then
        match s' with
        | d :: t =>
            if (c =? 0xD) && (d =? 0xA)
            then rev cur :: splitlines_from [] t
            else rev cur :: splitlines_from [] s'
        | [] => rev cur :: splitlines_from [] s'
        end
      else splitlines_from (c :: cur) s'
  end.

Definition splitlines (s : str) : list str := splitlines_from [] s.

Fixpoint lstrip_by (p : char → bool) (s : str) : str :=
  match s with
  | c :: s' => if p c then lstrip_by p s' else s
  | [] => []
  end.

Definition strip_by (p : char → bool) (s : str) : str :=
  rev (lstrip_by p (rev (lstrip_by p s))).

(** [s.strip()] *)
Definition strip (s : str) : str := strip_by is_space s.

(** [s.replace(c, "")] for a one-character [c]. *)
Definition remove_char (c : char) (s : str) : str :=
  List.filter (λ x, negb (x =? c)) s.

(** [c in s] for a one-character [c]. *)
Definition contains (c : char) (s : str) : bool := existsb (N.eqb c) s.

(** [s.startswith(p)] *)
Fixpoint startswith (p s : str) : bool :=
  match p, s with
  | [], _ => true
  | a :: p', b :: s' => (a =? b) && startswith p' s'
  | _ :: _, [] => false
  end.

(** [s.split(sep)] for a one-character [sep]; [cur] is reversed. *)
Fixpoint split_from (sep : char) (cur : str) (s : str) : list str :=
  match s with
  | [] => [rev cur]
  | c :: s' =>
      if c =? sep then rev cur :: split_from sep [] s'
      else split_from sep (c :: cur) s'
  end.

Definition split (sep : char) (s : str) : list str := split_from sep [] s.

(** ** Regular expressions

    A backtracking matcher with the preferences of Python's [re]: leftmost
    start, alternatives in order, greedy repetition. *)

Inductive regex : Type :=
| Eps
| Cls (p : char → bool)
| Cat (a b : regex)
| Alt (a b : regex)
| Star (a : regex)
| Grp (i : nat) (a : regex)
| Bol
| Eol.

Definition caps := list (nat * str).

Definition group (i : nat) (g : caps) : option str :=
  match List.find (λ p, Nat.eqb (fst p) i) g with
  | Some p => Some (snd p)
  | None => None
  end.

Section Matcher.
Context {R : Type}.
(** [w] is the whole subject; [s] what is left of it. *)
Variable w : str.

(** Greedy repetition of the matcher [m]: at most [n] more turns, each of
    which has to consume something. *)
Fixpoint star_loop (m : str → caps → (str → caps → option R) → option R)
         (k : str → caps → option R) (n : nat) (s : str) (g : caps)
  : option R :=
  match n with
  | O => k s g
  | S n' =>
      match m s g (λ s' g',
               if (length s' <? length s)%nat
               then star_loop m k n' s' g' else None) with
      | Some x => Some x
      | None => k s g
      end
  end.

Fixpoint mt (r : regex) (s : str) (g : caps)
         (k : str → caps → option R) {struct r} : option R :=
  match r with
  | Eps => k s g
  | Cls p =>
      match s with
      | c :: s' => if p c then k s' g else None
      | [] => None
      end
  | Cat a b => mt a s g (λ s' g', mt b s' g' k)
  | Alt a b =>
      match mt a s g k with
      | Some x => Some x
      | None => mt b s g k
      end
  | Star a => star_loop (mt a) k (S (length s)) s g
  | Grp i a =>
      mt a s g (λ s' g',
        k s' ((i, take (length s - length s') s) :: g'))
  | Bol => if (length s =? length w)%nat then k s g else None
  | Eol =>
      match s with
      | [] => k s g
      | [c] => if c =? 0xA then k s g else None
      | _ => None
      end
  end.
End Matcher.

(** [re.match(r, s)]: the groups of a match at the start of [s]. *)
Definition re_match (r : regex) (s : str) : option caps :=
  mt s r s [] (λ _ g, Some g).

(** [re.fullmatch(r, s)] *)
Definition re_fullmatch (r : regex) (s : str) : option caps :=
  mt s r s [] (λ s' g, match s' with [] => Some g | _ => None end).

Fixpoint search_from (r : regex) (w s : str) : option caps :=
  match mt w r s [] (λ _ g, Some g) with
  | Some g => Some g
  | None =>
      match s with
      | [] => None
      | _ :: s' => search_from r w s'
      end
  end.

(** [re.search(r, s)] *)
Definition re_search (r : regex) (s : str) : option caps :=
  search_from r s s.

Definition matched (m : option caps) : bool :=
  match m with Some _ => true | None => false end.

(** [re.sub(r, rep, s)] for a pattern that matches no empty string. *)
Fixpoint sub_from (fuel : nat) (r : regex) (rep : str) (w s : str) : str :=
  match fuel with
  | O => s
  | S fuel' =>
      match mt w r s [] (λ s' _, Some s') with
      | Some s' =>
          if (length s' <? length s)%nat
          then rep ++ sub_from fuel' r rep w s'
          else match s with
               | [] => []
               | c :: t => c :: sub_from fuel' r rep w t
               end
      | None =>
          match s with
          | [] => []
          | c :: t => c :: sub_from fuel' r rep w t
          end
      end
  end.

Definition re_sub (r : regex) (rep : str) (s : str) : str :=
  sub_from (S (length s)) r rep s s.

(** Pattern combinators. *)
Definition chr (c : char) : regex := Cls (N.eqb c).
Definition one_of (s : str) : regex := Cls (λ c, existsb (N.eqb c) s).
Definition plus (r : regex) : regex := Cat r (Star r).
Definition opt (r : regex) : regex := Alt r Eps.
Definition text (s : str) : regex := foldr (λ c r, Cat (chr c) r) Eps s.
Definition digit : regex := Cls is_digit.
Definition non_digit : regex := Cls (λ c, negb (is_digit c)).
Definition space : regex := Cls is_space.
Fixpoint times (n : nat) (r : regex) : regex :=
  match n with O => Eps | S n' => Cat r (times n' r) end.
Fixpoint upto (n : nat) (r : regex) : regex :=
  match n with O => Eps | S n' => opt (Cat r (upto n' r)) end.

(** ** Exceptions *)

Inductive error : Type :=
| MissingClassName           (* ValueError raised at line 213 *)
| MissingStarLine            (* ValueError raised at line 223 *)
| MissingStatBlock           (* ValueError raised at line 308 *)
| NumberFormat (s : str)     (* ValueError raised by parse_number, line 90 *)
| InvalidLiteral (s : str)   (* ValueError raised by int() or float() *)
| Unpack                     (* ValueError raised by a tuple assignment *)
| Overflow                   (* OverflowError raised by int() or float() *)
| Index.                     (* IndexError raised by a subscript *)

(** [isinstance(e, ValueError)] *)
Definition is_ValueError (e : error) : bool :=
  match e with Overflow | Index => false | _ => true end.


(** The spec's FormatError: a numeric token that cannot be converted. *)
Definition is_format_error (e : error) : bool :=
  match e with
  | NumberFormat _ | InvalidLiteral _ | Unpack => true
  | _ => false
  end.

Inductive result (A : Type) : Type :=
| Ok (a : A)
| Raise (e : error).
Arguments Ok {A} a.
Arguments Raise {A} e.

#[global] Instance result_ret : MRet result := @Ok.
#[global] Instance result_fmap : FMap result :=
  λ A B f m, match m with Ok a => Ok (f a) | Raise e => Raise e end.
#[global] Instance result_bind : MBind result :=
  λ A B f m, match m with Ok a => f a | Raise e => Raise e end.

(** [[f(x) for x in l]] for an [f] that can raise. *)
Fixpoint map_result {A B} (f : A → result B) (l : list A) : result (list B) :=
  match l with
  | [] => Ok []
  | x :: l' => y ← f x; ys ← map_result f l'; Ok (y :: ys)
  end.

(** ** Numbers *)

Local Open Scope Z_scope.

(** binary64: [FFin m e] is [m * 2^e] with [m] odd, or [FFin 0 0]. *)
Inductive pyfloat : Type :=
| FFin (m e : Z)
| FInf.

Inductive pynum : Type :=
| PInt (z : Z)
| PFloat (f : pyfloat).

(** The binary64 nearest to [n / d] (ties to even), for [0 <= n], [0 < d]. *)
Definition b64_round (n d : Z) : pyfloat :=
  if n =? 0 then FFin 0 0 else
  let l := Z.log2 n - Z.log2 d in
  let ge := if 0 <=? l then d * 2 ^ l <=? n else d <=? n * 2 ^ (- l) in
  let fl := if ge then l else l - 1 in
  let e := Z.max (fl - 52) (-1074) in
  let num := if 0 <=? e then n else n * 2 ^ (- e) in
  let den := if 0 <=? e then d * 2 ^ e else d in
  let q := num / den in
  let r := num mod den in
  let q' := if 2 * r <? den then q
            else if den <? 2 * r then q + 1
            else if Z.even q then q else q + 1 in
  if q' =? 0 then FFin 0 0
  else if (0 <=? e) && (2 ^ 1024 <=? q' * 2 ^ e) then FInf
  else
    let t := Z.log2 (Z.land q' (- q')) in
    FFin (Z.shiftr q' t) (e + t).

(** [float(z)] for an [int]: OverflowError when the rounding overflows. *)
Definition float_of_int (z : Z) : result pyfloat :=
  match b64_round (Z.abs z) 1 with
  | FFin m e => Ok (FFin (Z.sgn z * m) e)
  | FInf => Raise Overflow
  end.

(** [int(f)] for a [float]: truncation; OverflowError on infinity. *)
Definition int_of_float (f : pyfloat) : result Z :=
  match f with
  | FFin m e => Ok (if 0 <=? e then m * 2 ^ e else Z.quot m (2 ^ (- e)))
  | FInf => Raise Overflow
  end.

(** [float(x)] and [int(x)] for a number of either type. *)
Definition to_float (x : pynum) : result pyfloat :=
  match x with PInt z => float_of_int z | PFloat f => Ok f end.

Definition to_int (x : pynum) : result Z :=
  match x with PInt z => Ok z | PFloat f => int_of_float f end.

(** The white space [int(str)] skips at both ends: [str.isspace] without
    the ASCII separators U+001C..U+001F. *)
Definition int_space (c : char) : bool :=
  is_space c && negb ((0x1C <=? c)%N && (c <=? 0x1F)%N).

(** The digits after a first digit: a digit, or one underscore and a digit. *)
Fixpoint int_digits (acc : Z) (s : str) : option Z :=
  match s with
  | [] => Some acc
  | c :: s' =>
      if (c =? 0x5F)%N then
        match s' with
        | d :: s'' =>
            match digit_value d with
            | Some v => int_digits (10 * acc + v) s''
            | None => None
            end
        | [] => None
        end
      else
        match digit_value c with
        | Some v => int_digits (10 * acc + v) s'
        | None => None
        end
  end.

Definition int_unsigned (s : str) : option Z :=
  match s with
  | c :: s' =>
      match digit_value c with
      | Some v => int_digits v s'
      | None => None
      end
  | [] => None
  end.

(** The integer that the literal [s] denotes, if it is one: white space
    around an optional sign and the digits. *)
Definition int_literal (s : str) : option Z :=
  match strip_by int_space s with
  | c :: t' =>
      if (c =? 0x2D)%N then Z.opp <$> int_unsigned t'
      else if (c =? 0x2B)%N then int_unsigned t'
      else int_unsigned (c :: t')
  | [] => None
  end.

(** [sys.get_int_max_str_digits()] at its default: the most digits that
    [int] converts.  Every digit of the literal counts, leading zeros
    included; white space, the sign and underscores do not. *)
Definition int_max_str_digits : Z := 4300.

Definition count_digits (s : str) : Z := Z.of_nat (length (List.filter is_digit s)).

(** [int(s)] for a [str], base ten: ValueError for a string that is no
    literal, and for one with too many digits. *)
Definition py_int (s : str) : result Z :=
  match int_literal s with
  | Some z =>
      if count_digits s <=? int_max_str_digits then Ok z
      else Raise (InvalidLiteral s)
  | None => Raise (InvalidLiteral s)
  end.

(** The value of a run of decimal digits. *)
Fixpoint digits_value (acc : Z) (s : str) : option Z :=
  match s with
  | [] => Some acc
  | c :: s' =>
      match digit_value c with
      | Some v => digits_value (10 * acc + v) s'
      | None => None
      end
  end.

(** [float(s)] on the one shape the source passes to it, digits, a dot,
    digits: the correctly rounded value, infinity when it overflows. *)
Definition py_float (s : str) : result pyfloat :=
  match split 0x2E%N s with
  | [a; b] =>
      match a, b, digits_value 0 (a ++ b) with
      | _ :: _, _ :: _, Some n => Ok (b64_round n (10 ^ Z.of_nat (length b)))
      | _, _, _ => Raise (InvalidLiteral s)
      end
  | _ => Raise (InvalidLiteral s)
  end.

(** The patterns of [parse_number]. *)
Definition re_dot_groups : regex :=       (* \d{1,3}(\.\d{3})+ *)
  Cat (Cat digit (upto 2 digit)) (plus (Cat (chr 0x2E%N) (times 3 digit))).
Definition re_comma_pair : regex :=       (* \d+,\d+ *)
  Cat (plus digit) (Cat (chr 0x2C%N) (plus digit)).
Definition re_decimal : regex :=          (* \d+\.\d+ *)
  Cat (plus digit) (Cat (chr 0x2E%N) (plus digit)).
Definition re_digits : regex :=           (* \d+ *)
  plus digit.

(** Rules 3 and 4 of [parse_number] and its final raise, lines 82-90. *)
Definition parse_number_plain (s : str) : result pynum :=
  if matched (re_fullmatch re_decimal s) then PFloat <$> py_float s
  else if matched (re_fullmatch re_digits s) then PInt <$> py_int s
  else Raise (NumberFormat s).

(** [parse_number], lines 57-90. *)
Definition parse_number (s0 : str) : result pynum :=
  let s := strip s0 in
  if matched (re_fullmatch re_dot_groups s) then
    PInt <$> py_int (remove_char 0x2E%N s)
  else if contains 0x2C%N s && negb (contains 0x2E%N s) then
    if matched (re_fullmatch re_comma_pair s) then
      match split 0x2C%N s with
      | [left_; right_] =>
          if (length right_ =? 3)%nat
          then PInt <$> py_int (left_ ++ right_)
          else PFloat <$> py_float (left_ ++ [0x2E%N] ++ right_)
      | _ => Raise Unpack
      end
    else
      let parts := split 0x2C%N s in
      if forallb (λ p, (length p <=? 3)%nat) (tail parts)
      then PInt <$> py_int (concat parts)
      else parse_number_plain s
  else parse_number_plain s.

(** ** Lines *)

Definition re_spaces : regex := plus space.     (* \s+ *)

(** [normalize_line], lines 52-54. *)
Definition normalize_line (line : str) : str :=
  let line := map (λ c, if (c =? NBSP)%N then SPACE else c) line in
  strip (re_sub re_spaces [SPACE] line).

(** [m.group(i)] of a match object. *)
Definition grp (i : nat) (m : caps) : str := default [] (group i m).

(** ** The unlock block *)

Definition re_slash_run : regex :=        (* (\d+(?:/\d+)+) *)
  Grp 1 (Cat (plus digit) (plus (Cat (chr 0x2F%N) (plus digit)))).
(** The pattern of the parenthesised total, lines 110-111: an opening
    parenthesis, any non-digits, group 1 a run of digits, any non-digits, a
    closing parenthesis. *)
Definition re_paren_total : regex :=
  Cat (chr 0x28%N) (Cat (Star non_digit) (Cat (Grp 1 (plus digit))
    (Cat (Star non_digit) (chr 0x29%N)))).

(** Step 1 of [extract_bp_from_two_lines], lines 98-106: [reqs]. *)
Definition bp_requirements_of (line1 : str) : result (option (list Z)) :=
  let l1_clean := remove_char 0x2B%N (remove_char KEY line1) in
  match re_search re_slash_run l1_clean with
  | Some m1 => Some <$> map_result py_int (split 0x2F%N (grp 1 m1))
  | None => Ok None
  end.

(** Step 2 of [extract_bp_from_two_lines], lines 108-113: [total]. *)
Definition bp_total_of (line1 : str) (line2 : option str)
  : result (option Z) :=
  let m2 := match re_search re_paren_total line1 with
            | Some m => Some m
            | None => re_search re_paren_total (default [] line2)
            end in
  match m2 with
  | Some m => Some <$> py_int (grp 1 m)
  | None => Ok None
  end.

(** [extract_bp_from_two_lines], lines 93-120. *)
Definition extract_bp_from_two_lines (line1 : str) (line2 : option str)
  : result (option (list Z * option Z)) :=
  reqs ← bp_requirements_of line1;
  total ← bp_total_of line1 line2;
  Ok (match reqs with
      | Some rs => Some (rs, total)
      | None => None
      end).

(** ** Stat blocks *)

Inductive Kind : Type := stock | star | max_wo_epics | gold.

#[global] Instance Kind_eq_dec : EqDecision Kind.
Proof. solve_decision. Defined.

Record StatEntry : Type := {
  kind : Kind;
  label : str;
  rank : Z;
  top_speed : pyfloat;
  accel : pyfloat;
  handling : pyfloat;
  nitro : pyfloat
}.

Definition re_label : regex :=            (* Stock|Gold|Max w/o epics|\STAR+ *)
  Alt (text (lit "Stock")) (Alt (text (lit "Gold"))
    (Alt (text (lit "Max w/o epics")) (plus (chr STAR)))).
Definition re_header : regex :=           (* ^(...)\s*\[(\d+)\]$ *)
  Cat Bol (Cat (Grp 1 re_label) (Cat (Star space) (Cat (chr 0x5B%N)
    (Cat (Grp 2 (plus digit)) (Cat (chr 0x5D%N) Eol))))).
Definition re_block_start : regex :=      (* ^(...)\s*\[\d+\]$ *)
  Cat Bol (Cat (Grp 1 re_label) (Cat (Star space) (Cat (chr 0x5B%N)
    (Cat (plus digit) (Cat (chr 0x5D%N) Eol))))).
Definition numeric : regex :=             (* [\d\.,] *)
  Cls (λ c, is_digit c || (c =? 0x2E)%N || (c =? 0x2C)%N).
Definition re_speed : regex :=            (* ([\d\.,]+)\s*km/h *)
  Cat (Grp 1 (plus numeric)) (Cat (Star space) (text (lit "km/h"))).
Definition re_value : regex :=            (* ([\d\.,]+) *)
  Grp 1 (plus numeric).

(** The [while] loop of [parse_stat_block], lines 164-177: [ls] is
    [lines[i:]]. *)
Fixpoint read_stats (ls : list str) (i : nat) (stats : list pynum)
  : result (list pynum * nat) :=
  match ls with
  | [] => Ok (stats, i)
  | line :: ls' =>
      if (length stats <? 4)%nat then
        if matched (re_match re_block_start line) then Ok (stats, i)
        else
          stats' ←
            match re_search re_speed line with
            | Some m_speed => x ← parse_number (grp 1 m_speed); Ok (stats ++ [x])
            | None =>
                match re_search re_value line with
                | Some m_val => x ← parse_number (grp 1 m_val); Ok (stats ++ [x])
                | None => Ok stats
                end
            end;
          read_stats ls' (S i) stats'
      else Ok (stats, i)
  end.

(** [parse_stat_block], lines 136-191. *)
Definition parse_stat_block (lines : list str) (start_idx : nat)
  : result (option StatEntry * nat) :=
  match lines !! start_idx with
  | None => Raise Index
  | Some header =>
      match re_match re_header header with
      | None => Ok (None, start_idx)
      | Some m =>
          let label := grp 1 m in
          rank ← py_int (grp 2 m);
          let kind :=
            if str_eqb label (lit "Stock") then stock
            else if str_eqb label (lit "Gold") then gold
            else if str_eqb label (lit "Max w/o epics") then max_wo_epics
            else star in
          '(stats, i) ← read_stats (drop (S start_idx) lines) (S start_idx) [];
          match stats with
          | [s0; s1; s2; s3] =>
              f0 ← to_float s0; f1 ← to_float s1;
              f2 ← to_float s2; f3 ← to_float s3;
              Ok (Some {| kind := kind; label := label; rank := rank;
                          top_speed := f0; accel := f1;
                          handling := f2; nitro := f3 |}, i)
          | _ => Ok (None, i)
          end
      end
  end.

(** ** The record *)

Inductive UnlockMethod : Type := bp | key.

Inductive TierType : Type := t_stock | t_full | t_max_wo_epics | t_gold.

#[global] Instance TierType_eq_dec : EqDecision TierType.
Proof. solve_decision. Defined.

(** An element of [car["stat"]]. *)
Module Tier.
Record t : Type := {
  star : nat;
  type : TierType;
  rank : Z;
  top_speed : pyfloat;
  accel : pyfloat;
  handling : pyfloat;
  nitro : pyfloat
}.
End Tier.

(** [car["epic_importparts_amount"]]. *)
Module Epic.
Record t : Type := {
  top_speed : Z;
  accel : Z;
  handling : Z;
  nitro : Z
}.
End Epic.

(** The dictionary [car]; an optional field is [None] when the source
    stores [None] or leaves the key out. *)
Module Car.
Record t : Type := {
  id : Z;
  unlock_method : option UnlockMethod;
  class : str;
  name : str;
  max_star : nat;
  fuel : option Z;
  bp_requirements : list Z;
  bp_cumulative : list Z;
  bp_all : option Z;
  epic_importparts_amount : Epic.t;
  epic_price : pynum;
  stat : list Tier.t;
  upgrade_cumulative : list Z;
  upgrade_per_star : list Z;
  upgrade_all : option Z
}.
End Car.

(** ** The sections of [parse_mei_page] *)

(** [lines], line 198. *)
Definition page_lines (text : str) : list str :=
  List.filter (λ l, negb (str_eqb l [])) (map normalize_line (splitlines text)).

(** The index of the first element that satisfies [p]. *)
Fixpoint find_index {A} (p : A → bool) (l : list A) : option nat :=
  match l with
  | [] => None
  | x :: l' => if p x then Some O else S <$> find_index p l'
  end.

Definition re_class : regex := one_of (lit "DCBAS").      (* [DCBAS] *)

(** Section 1, lines 205-218: the class line and the name after it. *)
Definition find_class_name (lines : list str) : result (str * str) :=
  match find_index (λ l, matched (re_fullmatch re_class l)) lines with
  | None => Raise MissingClassName
  | Some idx_class =>
      match lines !! idx_class, lines !! S idx_class with
      | Some car_class, Some name => Ok (car_class, strip name)
      | _, _ => Raise MissingClassName
      end
  end.

(** [set(l) == {STAR}], line 221. *)
Definition is_star_line (l : str) : bool :=
  bool_decide (list_to_set l = ({[ STAR ]} : gset N)).

(** Section 2, lines 220-225. *)
Definition find_max_star (lines : list str) : result nat :=
  match List.find is_star_line lines with
  | None => Raise MissingStarLine
  | Some star_line => Ok (length star_line)
  end.

Definition re_fuel : regex :=             (* FUEL\s+(\d+)\s+fuels *)
  Cat (chr FUEL) (Cat (plus space) (Cat (Grp 1 (plus digit))
    (Cat (plus space) (text (lit "fuels"))))).

(** Section 3, lines 227-233. *)
Definition find_fuel (lines : list str) : result (option Z) :=
  match List.find (startswith [FUEL]) lines with
  | Some (c :: fuel_line) =>
      match re_search re_fuel (c :: fuel_line) with
      | Some m => Some <$> py_int (grp 1 m)
      | None => Ok None
      end
  | _ => Ok None
  end.

Definition re_bp_prefix : regex :=        (* \d+/\d+/ *)
  Cat (plus digit) (Cat (chr 0x2F%N) (Cat (plus digit) (chr 0x2F%N))).
Definition re_bp_run : regex :=           (* \d+(?:/\d+)+ *)
  Cat (plus digit) (plus (Cat (chr 0x2F%N) (plus digit))).

(** Line 246: is [l] a candidate for the unlock block? *)
Definition is_bp_candidate (l : str) : bool :=
  let cand_clean := remove_char KEY l in
  matched (re_search re_bp_prefix cand_clean)
  || matched (re_fullmatch re_bp_run cand_clean).

(** The loop of section 4, lines 238-253: [bp_reqs], [bp_total],
    [uses_key]. *)
Fixpoint scan_bp (ls : list str) : result (list Z * option Z * bool) :=
  match ls with
  | [] => Ok ([], None, false)
  | l :: ls' =>
      if is_bp_candidate l then
        let next_line := head ls' in
        extracted ← extract_bp_from_two_lines l next_line;
        match extracted with
        | Some (reqs, total) =>
            Ok (reqs, total,
                contains KEY l || contains KEY (default [] next_line))
        | None => scan_bp ls'
        end
      else scan_bp ls'
  end.

(** [itertools.accumulate]: the running sums from [acc]. *)
Fixpoint accumulate_from (acc : Z) (l : list Z) : list Z :=
  match l with
  | [] => []
  | x :: l' => (acc + x) :: accumulate_from (acc + x) l'
  end.

Definition accumulate (l : list Z) : list Z := accumulate_from 0 l.

Definition re_first_int : regex := Grp 1 (plus digit).    (* (\d+) *)

(** [try: ... except ValueError: pass], keeping [dflt]. *)
Definition except_ValueError {A} (dflt : A) (r : result A) : result A :=
  match r with
  | Ok a => Ok a
  | Raise e => if is_ValueError e then Ok dflt else Raise e
  end.

(** The loop of section 5, lines 267-283: [epic_per_stat],
    [epic_price_total]. *)
Fixpoint scan_epics (ls : list str) : result (Z * pynum) :=
  match ls with
  | [] => Ok (0, PInt 0)
  | l :: ls' =>
      if startswith (lit "Epics:") l then
        epic_per_stat ←
          match ls' with
          | l1 :: _ =>
              match re_search re_first_int l1 with
              | Some m => py_int (grp 1 m)
              | None => Ok 0
              end
          | [] => Ok 0
          end;
        epic_price_total ←
          match ls' with
          | _ :: l2 :: _ => except_ValueError (PInt 0) (parse_number l2)
          | _ => Ok (PInt 0)
          end;
        Ok (epic_per_stat, epic_price_total)
      else scan_epics ls'
  end.

(** The [while] loop of section 6, lines 295-305; every turn moves [i]
    forward, so [length lines] turns are enough. *)
Fixpoint scan_stats (fuel : nat) (lines : list str) (i : nat)
         (stat_entries : list StatEntry) : result (list StatEntry) :=
  match fuel with
  | O => Ok stat_entries
  | S fuel' =>
      match lines !! i with
      | None => Ok stat_entries
      | Some line =>
          if matched (re_match re_block_start line) then
            '(entry, next_i) ← parse_stat_block lines i;
            match entry with
            | Some e => scan_stats fuel' lines next_i (stat_entries ++ [e])
            | None => scan_stats fuel' lines (S i) stat_entries
            end
          else scan_stats fuel' lines (S i) stat_entries
      end
  end.

Definition collect_stats (lines : list str) : result (list StatEntry) :=
  scan_stats (length lines) lines 0 [].

(** [next((e for e in stat_entries if e.kind == k), None)]. *)
Definition first_of_kind (k : Kind) (es : list StatEntry) : option StatEntry :=
  List.find (λ e, bool_decide (kind e = k)) es.

(** One turn of the loop at lines 318-322. *)
Definition keep_best (best_by_star : gmap nat StatEntry) (e : StatEntry)
  : gmap nat StatEntry :=
  let sc := length (label e) in
  match best_by_star !! sc with
  | None => <[sc := e]> best_by_star
  | Some cur =>
      if rank cur <? rank e then <[sc := e]> best_by_star else best_by_star
  end.

(** [best_by_star] after the loop, lines 317-322. *)
Definition best_of (star_entries : list StatEntry) : gmap nat StatEntry :=
  foldl keep_best ∅ star_entries.

Definition tier_of (s : nat) (ty : TierType) (e : StatEntry) : Tier.t :=
  {| Tier.star := s; Tier.type := ty; Tier.rank := rank e;
     Tier.top_speed := top_speed e; Tier.accel := accel e;
     Tier.handling := handling e; Tier.nitro := nitro e |}.

(** [stat_list], lines 325-376. *)
Definition build_stat_list (stat_entries : list StatEntry) (max_star : nat)
           (has_epic : bool) : list Tier.t :=
  let stock_entry := first_of_kind stock stat_entries in
  let gold_entry := first_of_kind gold stat_entries in
  let max_wo_entry := first_of_kind max_wo_epics stat_entries in
  let star_entries := List.filter (λ e, bool_decide (kind e = star)) stat_entries in
  let best_by_star := best_of star_entries in
  match stock_entry with Some e => [tier_of 1 t_stock e] | None => [] end
  ++ omap (λ s, tier_of s t_full <$> best_by_star !! s) (seq 1 (max_star - 1))
  ++ (if has_epic then
        match max_wo_entry with
        | Some e => [tier_of max_star t_max_wo_epics e]
        | None => []
        end
      else [])
  ++ match gold_entry with Some e => [tier_of max_star t_gold e] | None => [] end.

Definition re_stars : regex := plus (chr STAR).           (* \STAR+ *)
Definition re_block_total : regex :=      (* =\s*([\d,]+) *)
  Cat (chr 0x3D%N) (Cat (Star space)
    (Grp 1 (plus (Cls (λ c, is_digit c || (c =? 0x2C)%N))))).
Definition re_total : regex :=            (* Total:\s*([\d,]+) *)
  Cat (text (lit "Total:")) (Cat (Star space)
    (Grp 1 (plus (Cls (λ c, is_digit c || (c =? 0x2C)%N))))).

(** The loop of section 7, lines 381-396. *)
Fixpoint scan_upgrades (ls : list str) (in_block : bool)
         (star_full_totals : list Z) : result (list Z) :=
  match ls with
  | [] => Ok star_full_totals
  | l :: ls' =>
      if matched (re_fullmatch re_stars l) then
        scan_upgrades ls' true star_full_totals
      else if in_block then
        if startswith [0x3D%N] l then
          totals ←
            match re_search re_block_total l with
            | Some m =>
                total_full ← parse_number (grp 1 m);
                z ← to_int total_full;
                Ok (star_full_totals ++ [z])
            | None => Ok star_full_totals
            end;
          scan_upgrades ls' false totals
        else scan_upgrades ls' in_block star_full_totals
      else scan_upgrades ls' in_block star_full_totals
  end.

(** Lines 400-405: [upgrade_all_full]. *)
Definition find_total (lines : list str) : result (option pynum) :=
  match List.find (startswith (lit "Total:")) lines with
  | Some (c :: total_line) =>
      match re_search re_total (c :: total_line) with
      | Some m => Some <$> parse_number (grp 1 m)
      | None => Ok None
      end
  | _ => Ok None
  end.

(** Lines 413-418: the differences of consecutive cumulative totals. *)
Definition per_star (upgrade_cumulative : list Z) : list Z :=
  imap (λ idx val,
          if (idx =? 0)%nat then val
          else val - default 0 (upgrade_cumulative !! (idx - 1)%nat))
       upgrade_cumulative.

(** [parse_mei_page], lines 196-425. *)
Definition parse_mei_page (text : str) (car_id : Z) : result Car.t :=
  let lines := page_lines text in
  '(car_class, name) ← find_class_name lines;
  max_star ← find_max_star lines;
  fuel ← find_fuel lines;
  '(bp_reqs, bp_total, uses_key) ← scan_bp lines;
  '(epic_per_stat, epic_price_total) ← scan_epics lines;
  let has_epic := 0 <? epic_per_stat in
  stat_entries ← collect_stats lines;
  if bool_decide (stat_entries = []) then Raise MissingStatBlock else
  let stat_list := build_stat_list stat_entries max_star has_epic in
  star_full_totals ← scan_upgrades lines false [];
  upgrade_all_full ← find_total lines;
  let upgrade_cumulative := star_full_totals in
  let upgrade_per_star := per_star upgrade_cumulative in
  upgrade_all ← match upgrade_all_full with
                | Some x => Some <$> to_int x
                | None => Ok None
                end;
  Ok {| Car.id := car_id;
        Car.unlock_method :=
          match bp_reqs with
          | [] => None
          | _ => Some (if uses_key : bool then key else bp)
          end;
        Car.class := car_class;
        Car.name := name;
        Car.max_star := max_star;
        Car.fuel := fuel;
        Car.bp_requirements := bp_reqs;
        Car.bp_cumulative := accumulate bp_reqs;
        Car.bp_all := match bp_reqs with [] => None | _ => bp_total end;
        Car.epic_importparts_amount :=
          {| Epic.top_speed := epic_per_stat; Epic.accel := epic_per_stat;
             Epic.handling := epic_per_stat; Epic.nitro := epic_per_stat |};
        Car.epic_price := epic_price_total;
        Car.stat := stat_list;
        Car.upgrade_cumulative := upgrade_cumulative;
        Car.upgrade_per_star := upgrade_per_star;
        Car.upgrade_all := upgrade_all |}.

(** ** Notions used in the statements *)

(** The strings a pattern accepts. *)
Inductive matches : regex → str → Prop :=
| M_eps : matches Eps []
| M_cls p c : p c = true → matches (Cls p) [c]
| M_cat a b s1 s2 : matches a s1 → matches b s2 → matches (Cat a b) (s1 ++ s2)
| M_alt_l a b s : matches a s → matches (Alt a b) s
| M_alt_r a b s : matches b s → matches (Alt a b) s
| M_star_nil a : matches (Star a) []
| M_star_cons a s1 s2 :
    matches a s1 → matches (Star a) s2 → matches (Star a) (s1 ++ s2)
| M_grp i a s : matches a s → matches (Grp i a) s
| M_bol : matches Bol []
| M_eol : matches Eol [].

(** Every match of [r] assigns group [i]. *)
Fixpoint sets (i : nat) (r : regex) : bool :=
  match r with
  | Grp j a => Nat.eqb j i || sets i a
  | Cat a b => sets i a || sets i b
  | Alt a b => sets i a && sets i b
  | _ => false
  end.

(** Whatever a group [i] of [r] captures satisfies [P i]. *)
Fixpoint groups_in (P : nat → str → Prop) (r : regex) : Prop :=
  match r with
  | Grp i a => (∀ v, matches a v → P i v) ∧ groups_in P a
  | Cat a b | Alt a b => groups_in P a ∧ groups_in P b
  | Star a => groups_in P a
  | _ => True
  end.

Definition caps_in (P : nat → str → Prop) (g : caps) : Prop :=
  ∀ i v, group i g = Some v → P i v.

(** A non-empty run of decimal digits. *)
Definition digit_run (v : str) : Prop := v ≠ [] ∧ Forall (λ c, is_digit c = true) v.

(** What a successful run of a matcher [m] for [r] guarantees: it consumed a
    prefix that [r] accepts, kept the captures within [P], assigned the
    groups that [r] always assigns, and handed the rest to [k]. *)
Definition sound_for {R : Type} (P : nat → str → Prop) (r : regex)
  (m : str → caps → (str → caps → option R) → option R) : Prop :=
  ∀ s g k res, m s g k = Some res → caps_in P g →
    ∃ pre s' g', s = pre ++ s' ∧ matches r pre ∧ caps_in P g' ∧
      (∀ i, sets i r = true ∨ is_Some (group i g) → is_Some (group i g')) ∧
      k s' g' = Some res.

(** What the groups of the patterns with an integer group capture. *)
Definition digit_groups (i : nat) (v : str) : Prop := digit_run v.

(** A string with no more characters than [int] converts digits. *)
Definition short (s : str) : Prop := Z.of_nat (length s) ≤ int_max_str_digits.

(** No capture of [g] is longer than [n]. *)
Definition caps_within (n : nat) (g : caps) : Prop :=
  ∀ i v, group i g = Some v → (length v ≤ n)%nat.

(** A line that is one of the class letters D, C, B, A, S. *)
Definition class_letter (l : str) : Prop :=
  l ∈ [lit "D"; lit "C"; lit "B"; lit "A"; lit "S"].


(** A non-empty line of star glyphs only. *)
Definition star_glyphs (l : str) : Prop :=
  l ≠ [] ∧ Forall (λ c, c = STAR) l.



Definition tier_key (t : Tier.t) : nat * TierType := (Tier.star t, Tier.type t).

(** The (star, type) pairs a page with [max_star] stars may list. *)
Definition allowed_tier (max_star : nat) (k : nat * TierType) : Prop :=
  match k.2 with
  | t_stock => k.1 = 1%nat
  | t_full => (1 ≤ k.1 ≤ max_star - 1)%nat
  | t_max_wo_epics | t_gold => k.1 = max_star
  end.

(** No stock entry shares its star with a full entry. *)
Definition stock_full_apart (l : list Tier.t) : Prop :=
  ∀ a b, a ∈ l → b ∈ l → Tier.type a = t_stock → Tier.type b = t_full →
         Tier.star a ≠ Tier.star b.

(** ** Sample pages and entries *)

(** A page from its lines. *)
Definition page (ls : list str) : str := concat (map (λ l, l ++ [0xA%N]) ls).

Definition stars (n : nat) : str := replicate n STAR.

Definition demo_page : str :=
  page [ lit "S"; lit "Lamborghini  Revuelto "; stars 3;
         FUEL :: lit " 6 fuels"; lit "5/8/30"; lit "(43)";
         lit "Epics:"; lit "2 x 240000 x 4="; lit "1,920,000";
         lit "Stock [467]"; lit "180 km/h"; lit "4.5"; lit "50"; lit "60";
         stars 1 ++ lit " [728]"; lit "200 km/h"; lit "5"; lit "51"; lit "61";
         stars 1 ++ lit " [700]"; lit "190 km/h"; lit "4,8"; lit "50"; lit "60";
         stars 2 ++ lit " [1031]"; lit "221 km/h"; lit "6"; lit "52"; lit "62";
         lit "Max w/o epics [1200]"; lit "230 km/h"; lit "7"; lit "53"; lit "63";
         lit "Gold [1381]"; lit "240 km/h"; lit "8"; lit "54"; lit "64";
         stars 1; lit "From stage 1"; lit "= 68,200";
         stars 2; lit "= 150,000";
         lit "Total: 500,000" ].

(** A page whose second block total is below the first. *)
Definition falling_page : str :=
  page [ lit "S"; lit "Car"; stars 2;
         lit "Gold [9]"; lit "1"; lit "2"; lit "3"; lit "4";
         stars 1; lit "= 100"; stars 2; lit "= 50" ].


(** A page without a stat block, whose fuel line has one digit more than
    [int] converts. *)
Definition long_fuel_page : str :=
  page [ lit "S"; lit "Car"; stars 2;
         FUEL :: lit " " ++ replicate 4301 0x31%N ++ lit " fuels" ].

(** A page whose grand total has a group of four digits. *)
Definition bad_total_page : str :=
  page [ lit "S"; lit "Car"; stars 2;
         lit "Gold [9]"; lit "1"; lit "2"; lit "3"; lit "4";
         lit "Total: 1,2345,6" ].

(** [bad_total_page] without its last line. *)
Definition no_total_page : str :=
  page [ lit "S"; lit "Car"; stars 2;
         lit "Gold [9]"; lit "1"; lit "2"; lit "3"; lit "4" ].

(** The record [parse_mei_page] builds from [demo_page]; the float 180.0
    is [FFin 45 2], 4.5 is [FFin 9 (-1)], and so on. *)
Definition demo_record : Car.t :=
  {| Car.id := 7;
     Car.unlock_method := Some bp;
     Car.class := lit "S";
     Car.name := lit "Lamborghini Revuelto";
     Car.max_star := 3;
     Car.fuel := Some 6;
     Car.bp_requirements := [5; 8; 30];
     Car.bp_cumulative := [5; 13; 43];
     Car.bp_all := Some 43;
     Car.epic_importparts_amount :=
       {| Epic.top_speed := 2; Epic.accel := 2;
          Epic.handling := 2; Epic.nitro := 2 |};
     Car.epic_price := PInt 1920000;
     Car.stat :=
       [ {| Tier.star := 1; Tier.type := t_stock; Tier.rank := 467;
            Tier.top_speed := FFin 45 2; Tier.accel := FFin 9 (-1);
            Tier.handling := FFin 25 1; Tier.nitro := FFin 15 2 |};
         {| Tier.star := 1; Tier.type := t_full; Tier.rank := 728;
            Tier.top_speed := FFin 25 3; Tier.accel := FFin 5 0;
            Tier.handling := FFin 51 0; Tier.nitro := FFin 61 0 |};
         {| Tier.star := 2; Tier.type := t_full; Tier.rank := 1031;
            Tier.top_speed := FFin 221 0; Tier.accel := FFin 3 1;
            Tier.handling := FFin 13 2; Tier.nitro := FFin 31 1 |};
         {| Tier.star := 3; Tier.type := t_max_wo_epics; Tier.rank := 1200;
            Tier.top_speed := FFin 115 1; Tier.accel := FFin 7 0;
            Tier.handling := FFin 53 0; Tier.nitro := FFin 63 0 |};
         {| Tier.star := 3; Tier.type := t_gold; Tier.rank := 1381;
            Tier.top_speed := FFin 15 4; Tier.accel := FFin 1 3;
            Tier.handling := FFin 27 1; Tier.nitro := FFin 1 6 |} ];
     Car.upgrade_cumulative := [68200; 150000];
     Car.upgrade_per_star := [68200; 81800];
     Car.upgrade_all := Some 500000 |}.

(** [sum(l)] *)
Definition sum (l : list Z) : Z := foldr Z.add 0 l.

Definition strictly_increasing (l : list Z) : Prop :=
  ∀ i j a b, (i < j)%nat → l !! i = Some a → l !! j = Some b → a < b.

Definition non_decreasing (l : list Z) : Prop :=
  ∀ i j a b, (i ≤ j)%nat → l !! i = Some a → l !! j = Some b → a ≤ b.

(** The star count of a star-kind entry: the length of its label. *)
Definition star_count (e : StatEntry) : nat := length (label e).

(** What the loop of lines 318-322 holds for star count [s] after the
    entries [l], when it held [cur] before them. *)
Fixpoint best_in (s : nat) (cur : option StatEntry) (l : list StatEntry)
  : option StatEntry :=
  match l with
  | [] => cur
  | e :: l' =>
      best_in s
        (if Nat.eqb (star_count e) s then
           match cur with
           | None => Some e
           | Some c => if rank c <? rank e then Some e else Some c
           end
         else cur) l'
  end.

(** A star-kind entry with [n] glyphs, rank [rk], and top speed [speed]
    (an odd integer, as a float) to tell observations apart. *)
Definition star_entry (n : nat) (rk speed : Z) : StatEntry :=
  {| kind := star; label := stars n; rank := rk;
     top_speed := FFin speed 0; accel := FFin 1 0;
     handling := FFin 1 0; nitro := FFin 1 0 |}.

(** A page with the block, the key glyph on its first line. *)
Definition key_page : str :=
  page [ lit "S"; lit "Car"; stars 2;
         KEY :: lit "5/8/30"; lit "(43)";
         lit "Gold [9]"; lit "1"; lit "2"; lit "3"; lit "4" ].

(** ** Notions for the further properties *)

(** What [re.sub(r"\s+", " ", s)] leaves of [s]: every run of white space
    becomes one space; [in_run] tells that the run has begun. *)
Fixpoint collapse_spaces (in_run : bool) (s : str) : str :=
  match s with
  | [] => []
  | c :: t =>
      if is_space c then
        if in_run then collapse_spaces true t
        else SPACE :: collapse_spaces true t
      else c :: collapse_spaces false t
  end.

(** Every white-space character is a space, and no white space follows
    it. *)
Fixpoint single_spaced (s : str) : bool :=
  match s with
  | [] => true
  | c :: t =>
      (negb (is_space c)
       || ((c =? SPACE)%N
           && match t with d :: _ => negb (is_space d) | [] => true end))
      && single_spaced t
  end.

(** The first character of [s], if any, satisfies [p]. *)
Definition head_is (p : char → bool) (s : str) : bool :=
  match s with c :: _ => p c | [] => false end.

(** A trimmed, single-spaced line. *)
Definition normalized (s : str) : Prop :=
  single_spaced s = true
  ∧ head_is is_space s = false
  ∧ head_is is_space (rev s) = false.

(** A pattern without the anchors [^] and [$]. *)
Fixpoint plain (r : regex) : bool :=
  match r with
  | Bol | Eol => false
  | Cat a b | Alt a b => plain a && plain b
  | Star a | Grp _ a => plain a
  | Eps | Cls _ => true
  end.

(** A number that is not negative. *)
Definition nonneg (x : pynum) : Prop :=
  match x with
  | PInt z => 0 ≤ z
  | PFloat (FFin m _) => 0 ≤ m
  | PFloat FInf => True
  end.

(** A float that is not negative (infinity included). *)
Definition nonneg_float (f : pyfloat) : Prop := nonneg (PFloat f).

(** What every captured stat entry looks like: the label is one of the
    three words or a non-empty run of star glyphs, the kind is the one of
    the label, the rank and the four stats are not negative. *)
Definition entry_ok (e : StatEntry) : Prop :=
  match kind e with
  | stock => label e = lit "Stock"
  | gold => label e = lit "Gold"
  | max_wo_epics => label e = lit "Max w/o epics"
  | star => label e ≠ [] ∧ Forall (λ c, c = STAR) (label e)
  end
  ∧ 0 ≤ rank e
  ∧ nonneg_float (top_speed e) ∧ nonneg_float (accel e)
  ∧ nonneg_float (handling e) ∧ nonneg_float (nitro e).

(** The groups of the header pattern. *)
Definition header_groups (i : nat) (v : str) : Prop :=
  match i with
  | 1%nat => matches re_label v
  | 2%nat => digit_run v
  | _ => True
  end.

(** A run of the characters of a numeric token. *)
Definition numeric_groups (i : nat) (v : str) : Prop :=
  Forall (λ c, is_digit c || (c =? 0x2E)%N || (c =? 0x2C)%N = true) v.

(** The lines of a page that open a stat block. *)
Definition block_starts (lines : list str) : list str :=
  List.filter (λ l, matched (re_match re_block_start l)) lines.

(** The kind of entry that a tier of each type is built from, lines
    311-376. *)
Definition tier_kind (ty : TierType) : Kind :=
  match ty with
  | t_stock => stock
  | t_full => star
  | t_max_wo_epics => max_wo_epics
  | t_gold => gold
  end.

(** Does line [i] of the page open a stat block? (the test of lines 167
    and 299) *)
Definition opens_block (lines : list str) (i : nat) : bool :=
  match lines !! i with
  | Some l => matched (re_match re_block_start l)
  | None => false
  end.

(** The indices of the lines that open a stat block, in page order. *)
Definition block_start_indices (lines : list str) : list nat :=
  List.filter (opens_block lines) (seq 0 (length lines)).

(** The lines of a page that the upgrade scan takes for the header of a
    star block (line 386) and for the total of one (line 390). *)
Definition star_headers (lines : list str) : list str :=
  List.filter (λ l, matched (re_fullmatch re_stars l)) lines.
Definition total_lines (lines : list str) : list str :=
  List.filter (startswith [0x3D%N]) lines.

(** ** [parse_stat_block] at any index

    The scan of [parse_mei_page] calls [parse_stat_block] at indices from 0
    on, and [parse_stat_block] above takes a natural number.  The function
    itself accepts any integer: a negative index counts from the end of the
    list, and [i] then runs from [start_idx + 1] up through 0 to the end. *)

(** [l[i]] for any integer [i]; [None] is IndexError. *)
Definition py_index {A} (l : list A) (i : Z) : option A :=
  if 0 <=? i then l !! Z.to_nat i
  else if 0 <=? Z.of_nat (length l) + i
       then l !! Z.to_nat (Z.of_nat (length l) + i)
       else None.

(** The [while] loop of lines 164-177 on an integer index; every turn moves
    [i] forward, [fuel] bounds the turns. *)
Fixpoint read_stats_at (fuel : nat) (lines : list str) (i : Z)
         (stats : list pynum) : result (list pynum * Z) :=
  match fuel with
  | O => Ok (stats, i)
  | S fuel' =>
      if (i <? Z.of_nat (length lines)) && (length stats <? 4)%nat then
        match py_index lines i with
        | None => Raise Index
        | Some line =>
            if matched (re_match re_block_start line) then Ok (stats, i)
            else
              stats' ←
                match re_search re_speed line with
                | Some m_speed =>
                    x ← parse_number (grp 1 m_speed); Ok (stats ++ [x])
                | None =>
                    match re_search re_value line with
                    | Some m_val =>
                        x ← parse_number (grp 1 m_val); Ok (stats ++ [x])
                    | None => Ok stats
                    end
                end;
              read_stats_at fuel' lines (i + 1) stats'
        end
      else Ok (stats, i)
  end.

(** [parse_stat_block], lines 136-191, for any integer [start_idx]. *)
Definition parse_stat_block_at (lines : list str) (start_idx : Z)
  : result (option StatEntry * Z) :=
  match py_index lines start_idx with
  | None => Raise Index
  | Some header =>
      match re_match re_header header with
      | None => Ok (None, start_idx)
      | Some m =>
          let label := grp 1 m in
          rank ← py_int (grp 2 m);
          let kind :=
            if str_eqb label (lit "Stock") then stock
            else if str_eqb label (lit "Gold") then gold
            else if str_eqb label (lit "Max w/o epics") then max_wo_epics
            else star in
          '(stats, i) ←
            read_stats_at (S (Z.to_nat (Z.of_nat (length lines) - start_idx)))
                          lines (start_idx + 1) [];
          match stats with
          | [s0; s1; s2; s3] =>
              f0 ← to_float s0; f1 ← to_float s1;
              f2 ← to_float s2; f3 ← to_float s3;
              Ok (Some {| kind := kind; label := label; rank := rank;
                          top_speed := f0; accel := f1;
                          handling := f2; nitro := f3 |}, i)
          | _ => Ok (None, i)
          end
      end
  end.

(** ** The driver: which cars to fetch (lines 454-493)

    The script reads a line such as [1-5,10,20-22], collects the ids it
    names in a set, and works on them in increasing order. *)

(** [s.split(sep, 1)] for a one-character [sep] that occurs in [s]: the
    text before the first [sep] and the text after it. *)
Fixpoint split_once (sep : char) (s : str) : str * str :=
  match s with
  | [] => ([], [])
  | c :: s' =>
      if (c =? sep)%N then ([], s')
      else let '(a, b) := split_once sep s' in (c :: a, b)
  end.

(** Lines 477-481: the ids of a range, the bounds in either order. *)
Definition range_ids (start end_ : Z) : gset Z :=
  let '(start, end_) := if end_ <? start then (end_, start) else (start, end_) in
  list_to_set (seqZ start (end_ + 1 - start)).

(** One turn of the loop of lines 463-487: the ids that [part] adds to
    [id_set].  Both [try] blocks catch ValueError, the one exception that
    [int] raises on a string; they leave the set as it was. *)
Definition part_ids (part : str) : gset Z :=
  let part := strip part in
  match part with
  | [] => ∅
  | _ :: _ =>
      if contains 0x2D%N part then
        let '(start_str, end_str) := split_once 0x2D%N part in
        match py_int (strip start_str) with
        | Raise _ => ∅
        | Ok start =>
            match py_int (strip end_str) with
            | Raise _ => ∅
            | Ok end_ => range_ids start end_
            end
        end
      else
        match py_int part with
        | Ok cid => {[ cid ]}
        | Raise _ => ∅
        end
  end.

(** [id_set] after the loop, lines 461-487. *)
Definition id_set (raw : str) : gset Z :=
  foldl (λ ids part, ids ∪ part_ids part) ∅ (split 0x2C%N raw).

(** [sorted(id_set)], line 489. *)
Definition sorted (ids : gset Z) : list Z := merge_sort Z.le (elements ids).

(** Lines 454-493: the list [car_ids] for the line the user typed, or
    [None] where the script stops with SystemExit. *)
Definition requested_ids (input : str) : option (list Z) :=
  let raw := strip input in
  match raw with
  | [] => None
  | _ :: _ =>
      match sorted (id_set raw) with
      | [] => None
      | car_ids => Some car_ids
      end
  end.

(** ** The driver: the batch (lines 428-430 and 505-538)

    [fetch_mei_html] talks to the network; the batch is modelled for any
    behaviour of it: a step on a world [W] that returns the text of the
    page or the exception [E] it raised. *)

(** [results.sort(key=lambda c: c.get("id", 0))], line 538: every record
    has an id, and [list.sort] is stable, so this is the insertion of each
    record before the first one of a larger or equal id that followed it. *)
Fixpoint insert_by_id (c : Car.t) (l : list Car.t) : list Car.t :=
  match l with
  | [] => [c]
  | d :: l' =>
      if Car.id c <=? Car.id d then c :: d :: l' else d :: insert_by_id c l'
  end.

Definition sort_by_id (l : list Car.t) : list Car.t := foldr insert_by_id [] l.

Section Batch.

Context {W E : Type}.
Variable fetch_mei_html : Z → W → (E + str) * W.

(** What the [except Exception] clauses catch. *)
Inductive failure : Type :=
| FetchFailed (e : E)
| ParseFailed (e : error).

(** [parse_mei_car], lines 428-430. *)
Definition parse_mei_car (car_id : Z) (w : W) : (failure + Car.t) * W :=
  match fetch_mei_html car_id w with
  | (inl e, w') => (inl (FetchFailed e), w')
  | (inr text, w') =>
      match parse_mei_page text car_id with
      | Ok car => (inr car, w')
      | Raise e => (inl (ParseFailed e), w')
      end
  end.

(** The state of the loop of lines 505-533. *)
Record batch : Type := {
  results : list Car.t;
  errors : list (Z * failure);
  world : W
}.

(** One turn of the loop, lines 512-533. *)
Definition batch_step (b : batch) (cid : Z) : batch :=
  match parse_mei_car cid (world b) with
  | (inr car_data, w') =>
      {| results := results b ++ [car_data]; errors := errors b; world := w' |}
  | (inl e, w') =>
      {| results := results b; errors := errors b ++ [(cid, e)]; world := w' |}
  end.

(** Lines 505-538: the loop and the final sort. *)
Definition run_batch (car_ids : list Z) (w : W) : batch :=
  let b := foldl batch_step {| results := []; errors := []; world := w |}
                 car_ids in
  {| results := sort_by_id (results b); errors := errors b; world := world b |}.

End Batch.

(** * Properties *)

(** ** The matcher is sound *)

Lemma group_cons i j v g :
  group i ((j, v) :: g) = if Nat.eqb j i then Some v else group i g.
Proof. unfold group. simpl. by destruct (Nat.eqb j i). Qed.

Section MatcherSound.
Context {R : Type} (P : nat → str → Prop) (w : str).

Lemma star_loop_sound a (m : str → caps → (str → caps → option R) → option R) :
  sound_for (R:=R) P a m →
  ∀ n s g k res, star_loop m k n s g = Some res → caps_in P g →
    ∃ pre s' g', s = pre ++ s' ∧ matches (Star a) pre ∧ caps_in P g' ∧
      (∀ i, is_Some (group i g) → is_Some (group i g')) ∧
      k s' g' = Some res.
Proof.
  intros Hm n. induction n as [|n IH]; intros s g k res Hrun Hg.
  - exists [], s, g. repeat split; auto. constructor.
  - simpl in Hrun.
    destruct (m s g _) as [x|] eqn:Hstep.
    + injection Hrun as ->.
      apply Hm in Hstep as (pre & s1 & g1 & -> & Hpre & Hg1 & Hset & Hk); auto.
      destruct (length s1 <? length (pre ++ s1))%nat; [|done].
      apply IH in Hk as (pre2 & s2 & g2 & -> & Hpre2 & Hg2 & Hset2 & Hk); auto.
      exists (pre ++ pre2), s2, g2. repeat split; auto.
      * by rewrite app_assoc.
      * by constructor.
    + exists [], s, g. repeat split; auto. constructor.
Qed.

Lemma mt_sound r : groups_in P r → sound_for (R:=R) P r (mt w r).
Proof.
  induction r as [|p|a IHa b IHb|a IHa b IHb|a IHa|j a IHa| |];
    intros Hgr s g k res Hrun Hg; cbn [mt] in Hrun.
  - exists [], s, g. repeat split; auto; try constructor.
    intros i [?|?]; done.
  - destruct s as [|c s']; [done|].
    destruct (p c) eqn:Hp; [|done].
    exists [c], s', g. repeat split; auto; try by constructor.
    intros i [?|?]; done.
  - destruct Hgr as [Ha Hb].
    apply IHa in Hrun as (pre1 & s1 & g1 & -> & Hm1 & Hg1 & Hs1 & Hrun); auto.
    apply IHb in Hrun as (pre2 & s2 & g2 & -> & Hm2 & Hg2 & Hs2 & Hrun); auto.
    exists (pre1 ++ pre2), s2, g2. repeat split; auto.
    + by rewrite app_assoc.
    + by constructor.
    + simpl. intros i [Hi|Hi].
      * apply orb_true_iff in Hi as [Hi|Hi]; auto.
      * auto.
  - destruct Hgr as [Ha Hb].
    destruct (mt w a s g k) as [x|] eqn:Hleft.
    + injection Hrun as ->.
      apply IHa in Hleft as (pre & s' & g' & -> & Hm & Hg' & Hs & Hk); auto.
      exists pre, s', g'. repeat split; auto.
      * by apply M_alt_l.
      * simpl. intros i [Hi|Hi]; auto.
        apply andb_true_iff in Hi as [Hi _]; auto.
    + apply IHb in Hrun as (pre & s' & g' & -> & Hm & Hg' & Hs & Hk); auto.
      exists pre, s', g'. repeat split; auto.
      * by apply M_alt_r.
      * simpl. intros i [Hi|Hi]; auto.
        apply andb_true_iff in Hi as [_ Hi]; auto.
  - eapply star_loop_sound in Hrun as (pre & s' & g' & -> & Hm & Hg' & Hs & Hk);
      eauto.
    exists pre, s', g'. repeat split; auto.
    intros i [Hi|Hi]; [done|auto].
  - destruct Hgr as [Hv Ha].
    apply IHa in Hrun as (pre & s' & g' & -> & Hm & Hg' & Hs & Hk); auto.
    rewrite length_app, Nat.add_sub, take_app_length in Hk.
    exists pre, s', ((j, pre) :: g'). repeat split; auto.
    + by constructor.
    + intros i v. rewrite group_cons.
      destruct (Nat.eqb_spec j i) as [->|]; [|by auto].
      intros [= <-]. auto.
    + simpl. intros i Hi. rewrite group_cons.
      destruct (Nat.eqb_spec j i) as [->|]; [done|].
      simpl in Hi. destruct Hi; auto.
  - destruct (length s =? length w)%nat; [|done].
    exists [], s, g. repeat split; auto; try constructor.
    intros i [?|?]; done.
  - assert (k s g = Some res) as Hk.
    { destruct s as [|c [|d s']]; try done.
      by destruct (c =? 10)%N. }
    exists [], s, g. repeat split; auto; try constructor.
    intros i [?|?]; done.
Qed.
End MatcherSound.

(** A capture is a piece of the subject, so it is no longer than what was
    left of the subject when the match began. *)
Section MatcherWithin.
Context {R : Type} (w : str) (n : nat).

Lemma star_loop_within (m : str → caps → (str → caps → option R) → option R) :
  (∀ s g k res, m s g k = Some res → (length s ≤ n)%nat → caps_within n g →
     ∃ s' g', (length s' ≤ length s)%nat ∧ caps_within n g'
              ∧ k s' g' = Some res) →
  ∀ fuel s g k res, star_loop m k fuel s g = Some res →
    (length s ≤ n)%nat → caps_within n g →
    ∃ s' g', (length s' ≤ length s)%nat ∧ caps_within n g'
             ∧ k s' g' = Some res.
Proof.
  intros Hm fuel. induction fuel as [|fuel IH]; intros s g k res Hrun Hs Hg.
  - by exists s, g.
  - simpl in Hrun. destruct (m s g _) as [x|] eqn:Hstep; [|by exists s, g].
    injection Hrun as ->.
    apply Hm in Hstep as (s1 & g1 & Hs1 & Hg1 & Hk); [|done..].
    destruct (length s1 <? length s)%nat; [|done].
    apply IH in Hk as (s2 & g2 & Hs2 & Hg2 & Hk); [|lia|done].
    exists s2, g2. split; [lia|done].
Qed.

Lemma mt_within r s g (k : str → caps → option R) res :
  mt w r s g k = Some res → (length s ≤ n)%nat → caps_within n g →
  ∃ s' g', (length s' ≤ length s)%nat ∧ caps_within n g' ∧ k s' g' = Some res.
Proof.
  revert s g k res.
  induction r as [|p|a IHa b IHb|a IHa b IHb|a IHa|j a IHa| |];
    intros s g k res Hrun Hs Hg; cbn [mt] in Hrun.
  - by exists s, g.
  - destruct s as [|c s']; [done|]. destruct (p c); [|done].
    exists s', g. split; [simpl; lia|done].
  - apply IHa in Hrun as (s1 & g1 & Hs1 & Hg1 & Hrun); [|done..].
    apply IHb in Hrun as (s2 & g2 & Hs2 & Hg2 & Hrun); [|lia|done].
    exists s2, g2. split; [lia|done].
  - destruct (mt w a s g k) as [x|] eqn:Hleft.
    + injection Hrun as ->. by apply IHa in Hleft.
    + by apply IHb in Hrun.
  - by eapply (star_loop_within (mt w a)) in Hrun.
  - apply IHa in Hrun as (s1 & g1 & Hs1 & Hg1 & Hrun); [|done..].
    exists s1, ((j, take (length s - length s1) s) :: g1).
    split; [done|]. split; [|done].
    intros i v. rewrite group_cons.
    destruct (Nat.eqb j i); [|by apply Hg1].
    intros [= <-]. rewrite length_take. lia.
  - destruct (length s =? length w)%nat; [|done]. by exists s, g.
  - exists s, g. split; [done|]. split; [done|].
    destruct s as [|c [|d s']]; try done. by destruct (c =? 10)%N.
Qed.
End MatcherWithin.

Lemma caps_within_nil n : caps_within n [].
Proof. intros i v. unfold group. simpl. done. Qed.

Lemma re_search_within r s g i :
  re_search r s = Some g → (length (grp i g) ≤ length s)%nat.
Proof.
  unfold re_search.
  assert (∀ t, (length t ≤ length s)%nat → search_from r s t = Some g →
               caps_within (length s) g) as Hfrom.
  { induction t as [|c t IH]; simpl; intros Ht Hrun.
    - destruct (mt s r [] [] _) as [x|] eqn:Hm; [|done]. injection Hrun as ->.
      apply (mt_within s (length s)) in Hm as (s' & g' & _ & Hg & [= ->]);
        [done|simpl; lia|apply caps_within_nil].
    - destruct (mt s r (c :: t) [] _) as [x|] eqn:Hm.
      + injection Hrun as ->.
        apply (mt_within s (length s)) in Hm as (s' & g' & _ & Hg & [= ->]);
          [done|done|apply caps_within_nil].
      + apply IH; [lia|done]. }
  intros Hrun. apply Hfrom in Hrun; [|done].
  unfold grp. destruct (group i g) as [v|] eqn:Hv; simpl; [|lia].
  exact (Hrun i v Hv).
Qed.

Lemma caps_in_nil P : caps_in P [].
Proof. intros i v. unfold group. simpl. done. Qed.

Lemma search_from_sound P r w s g :
  groups_in P r → search_from r w s = Some g →
  caps_in P g ∧ ∀ i, sets i r = true → is_Some (group i g).
Proof.
  intros Hgr. induction s as [|c s IH]; simpl; intros Hrun.
  - destruct (mt w r [] [] _) as [x|] eqn:Hm; [|done].
    injection Hrun as ->.
    apply (mt_sound P w r Hgr) in Hm as (pre & s' & g' & _ & _ & Hg & Hs & Hk);
      [apply caps_in_nil|].
    injection Hk as ->. split; auto.
  - destruct (mt w r (c :: s) [] _) as [x|] eqn:Hm; [|by auto].
    injection Hrun as ->.
    apply (mt_sound P w r Hgr) in Hm as (pre & s' & g' & _ & _ & Hg & Hs & Hk);
      [apply caps_in_nil|].
    injection Hk as ->. split; auto.
Qed.

Lemma re_search_sound P r s g i :
  groups_in P r → sets i r = true → re_search r s = Some g → P i (grp i g).
Proof.
  intros Hgr Hset Hrun.
  apply (search_from_sound P) in Hrun as [Hg Hs]; auto.
  destruct (Hs i Hset) as [v Hv]. unfold grp. rewrite Hv. simpl. by apply Hg.
Qed.

Lemma re_match_sound P r s g i :
  groups_in P r → sets i r = true → re_match r s = Some g → P i (grp i g).
Proof.
  intros Hgr Hset Hrun. unfold re_match in Hrun.
  apply (mt_sound P s r Hgr) in Hrun as (pre & s' & g' & _ & _ & Hg & Hs & Hk);
    [apply caps_in_nil|].
  injection Hk as ->.
  destruct (Hs i (or_introl Hset)) as [v Hv]. unfold grp. rewrite Hv. by apply Hg.
Qed.

Lemma groups_in_True r : groups_in (λ _ _, True) r.
Proof. induction r; simpl; auto. Qed.

Lemma re_fullmatch_sound r s g : re_fullmatch r s = Some g → matches r s.
Proof.
  intros Hrun. unfold re_fullmatch in Hrun.
  destruct (mt_sound (λ _ _, True) s r (groups_in_True r) _ _ _ _ Hrun)
    as (pre & s' & g' & -> & Hm & _ & _ & Hk); [done|].
  destruct s'; [|done]. by rewrite app_nil_r.
Qed.

(** ** Digits, white space and [int] *)

Lemma matches_star_cls p v :
  matches (Star (Cls p)) v → Forall (λ c, p c = true) v.
Proof.
  intros H. remember (Star (Cls p)) as r eqn:Hr.
  induction H; try discriminate; injection Hr as ->.
  - constructor.
  - inversion H; subst. constructor; auto.
Qed.

Lemma matches_plus_digit v : matches (plus digit) v → digit_run v.
Proof.
  intros H. inversion H as [| |a b s1 s2 H1 H2| | | | | | |]; subst.
  inversion H1; subst. apply matches_star_cls in H2.
  split; [done|]. constructor; auto.
Qed.

Lemma is_space_cases c :
  is_space c = true →
  In c [0x9; 0xA; 0xB; 0xC; 0xD; 0x1C; 0x1D; 0x1E; 0x1F; 0x20; 0x85; 0xA0;
        0x1680; 0x2000; 0x2001; 0x2002; 0x2003; 0x2004; 0x2005; 0x2006;
        0x2007; 0x2008; 0x2009; 0x200A; 0x2028; 0x2029; 0x202F; 0x205F;
        0x3000]%N.
Proof.
  unfold is_space.
  rewrite !orb_true_iff, !andb_true_iff, !N.leb_le, !N.eqb_eq.
  simpl In. lia.
Qed.

Lemma digit_not_space c : is_digit c = true → is_space c = false.
Proof.
  intros Hd. destruct (is_space c) eqn:Hs; [|done].
  apply is_space_cases in Hs. simpl in Hs.
  repeat (destruct Hs as [<-|Hs]; [by vm_compute in Hd|]). done.
Qed.

Lemma digit_not_int_space c : is_digit c = true → int_space c = false.
Proof. intros Hd. unfold int_space. by rewrite digit_not_space. Qed.

Lemma digit_value_is_digit c :
  is_digit c = true → ∃ v, digit_value c = Some v ∧ 0 ≤ v.
Proof.
  unfold is_digit, digit_value.
  destruct (List.find _ nd_zeros) as [z|]; [|done].
  intros _. eexists. split; [done|]. lia.
Qed.

Lemma digit_is_not c d : is_digit d = false → is_digit c = true → (c =? d)%N = false.
Proof.
  intros Hd Hc. destruct (N.eqb_spec c d) as [->|]; [congruence|done].
Qed.

Lemma int_digits_digit_run t acc :
  Forall (λ c, is_digit c = true) t → 0 ≤ acc →
  ∃ z, int_digits acc t = Some z ∧ 0 ≤ z.
Proof.
  intros Ht. revert acc. induction Ht as [|c t Hc Ht IH]; intros acc Hacc; simpl.
  - eauto.
  - rewrite (digit_is_not c 0x5F%N) by done.
    destruct (digit_value_is_digit c Hc) as (v & -> & Hv).
    apply IH. lia.
Qed.

Lemma lstrip_by_head p c s : p c = false → lstrip_by p (c :: s) = c :: s.
Proof. intros H. simpl. by rewrite H. Qed.

Lemma strip_by_digit_run p v :
  (∀ c, is_digit c = true → p c = false) → digit_run v → strip_by p v = v.
Proof.
  intros Hp [Hne Hv]. unfold strip_by.
  destruct v as [|c t]; [done|].
  rewrite lstrip_by_head by (inversion Hv; auto).
  assert (Forall (λ c, is_digit c = true) (rev (c :: t))) as Hr.
  { by apply Forall_rev. }
  destruct (rev (c :: t)) as [|d u] eqn:Hrev.
  - apply (f_equal (@length _)) in Hrev. rewrite length_rev in Hrev. done.
  - rewrite lstrip_by_head by (inversion Hr; auto).
    by rewrite <- Hrev, rev_involutive.
Qed.

(** Every non-empty run of digits is a literal, of a number that is not
    negative. *)
Lemma int_literal_digit_run v :
  digit_run v → ∃ z, int_literal v = Some z ∧ 0 ≤ z.
Proof.
  intros Hv. unfold int_literal.
  rewrite (strip_by_digit_run _ v digit_not_int_space Hv).
  destruct Hv as [Hne Hv]. destruct v as [|c t]; [done|].
  inversion Hv as [|? ? Hc Ht]; subst.
  rewrite (digit_is_not c 0x2D%N), (digit_is_not c 0x2B%N) by done.
  unfold int_unsigned.
  destruct (digit_value_is_digit c Hc) as (v0 & -> & Hv0).
  destruct (int_digits_digit_run t v0 Ht Hv0) as (z & -> & Hz).
  eauto.
Qed.

Lemma count_digits_length s : count_digits s ≤ Z.of_nat (length s).
Proof.
  unfold count_digits. apply inj_le.
  induction s as [|c s IH]; simpl; [done|]. destruct (is_digit c); simpl; lia.
Qed.

(** What [int] returns is the number that the literal denotes. *)
Lemma py_int_literal s z : py_int s = Ok z → int_literal s = Some z.
Proof.
  unfold py_int. destruct (int_literal s) as [y|]; [|done].
  destruct (_ <=? _); [|done]. by intros [= <-].
Qed.

(** [int] converts every literal that is short enough. *)
Lemma py_int_short s z : int_literal s = Some z → short s → py_int s = Ok z.
Proof.
  unfold py_int, short. intros -> Hs.
  pose proof (count_digits_length s) as Hc.
  destruct (Z.leb_spec (count_digits s) int_max_str_digits); [done|lia].
Qed.

(** [int] accepts every non-empty run of digits within its limit, with a
    result that is not negative. *)
Lemma py_int_digit_run v :
  digit_run v → short v → ∃ z, py_int v = Ok z ∧ 0 ≤ z.
Proof.
  intros (z & Hz & Hpos)%int_literal_digit_run Hv.
  exists z. split; [by apply py_int_short|done].
Qed.

Lemma py_int_digit_run_Ok v z : digit_run v → py_int v = Ok z → 0 ≤ z.
Proof.
  intros (y & Hy & Hpos)%int_literal_digit_run Hz%py_int_literal. congruence.
Qed.

Lemma py_int_digit_runs l :
  Forall digit_run l → Forall short l →
  ∃ zs, map_result py_int l = Ok zs ∧ Forall (λ z, 0 ≤ z) zs
        ∧ length zs = length l.
Proof.
  induction 1 as [|v l Hv Hl IH]; intros Hshort; simpl.
  - exists []. auto.
  - apply Forall_cons in Hshort as [Hsv Hsl].
    destruct (IH Hsl) as (zs & Hzs & Hpos & Hlen).
    destruct (py_int_digit_run v Hv Hsv) as (z & -> & Hz). simpl.
    rewrite Hzs. simpl. exists (z :: zs). repeat split; auto. simpl. lia.
Qed.

Lemma py_int_digit_runs_Ok l zs :
  Forall digit_run l → map_result py_int l = Ok zs →
  Forall (λ z, 0 ≤ z) zs ∧ length zs = length l.
Proof.
  intros Hl. revert zs. induction Hl as [|v l Hv Hl IH]; intros zs; simpl.
  - by intros [= <-].
  - destruct (py_int v) as [z|] eqn:Hz; [|done]. simpl.
    destruct (map_result py_int l) as [ys|]; [|done]. simpl.
    intros [= <-]. destruct (IH ys eq_refl) as [Hys Hlen].
    split; [|simpl; lia]. constructor; [|done].
    by apply (py_int_digit_run_Ok v).
Qed.

(** ** Splitting a run of numbers *)

Lemma split_from_app sep cur d s :
  Forall (λ c, (c =? sep)%N = false) d →
  split_from sep cur (d ++ s) = split_from sep (rev d ++ cur) s.
Proof.
  intros Hd. revert cur. induction Hd as [|c d Hc Hd IH]; intros cur; simpl.
  - done.
  - rewrite Hc, IH. by rewrite <- app_assoc.
Qed.

Lemma digit_run_no_sep sep d :
  is_digit sep = false → digit_run d → Forall (λ c, (c =? sep)%N = false) d.
Proof.
  intros Hsep [_ Hd]. eapply Forall_impl; [exact Hd|].
  intros c Hc. by apply digit_is_not.
Qed.

Lemma split_slash_groups rest :
  matches (Star (Cat (chr 0x2F%N) (plus digit))) rest →
  ∀ cur, digit_run (rev cur) →
  Forall digit_run (split_from 0x2F%N cur rest).
Proof.
  intros H. remember (Star (Cat (chr 0x2F%N) (plus digit))) as r eqn:Hr.
  induction H as [| | | | | |a s1 s2 H1 _ H2 IH| | |];
    try discriminate; injection Hr as ->; intros cur Hcur.
  - simpl. by constructor.
  - inversion H1 as [| |? ? t1 t2 Hsl Hd| | | | | | |]; subst.
    inversion Hsl as [|? c Hc| | | | | | | |]; subst.
    apply N.eqb_eq in Hc as <-.
    apply matches_plus_digit in Hd.
    simpl. constructor; [done|].
    rewrite split_from_app by (by apply digit_run_no_sep).
    apply IH; [done|]. by rewrite app_nil_r, rev_involutive.
Qed.

Lemma split_bp_run v :
  matches re_bp_run v → Forall digit_run (split 0x2F%N v).
Proof.
  intros H. inversion H as [| |? ? d rest Hd Hrest| | | | | | |]; subst.
  apply matches_plus_digit in Hd.
  unfold split. rewrite split_from_app by (by apply digit_run_no_sep).
  apply split_slash_groups.
  - inversion Hrest; subst. by constructor.
  - by rewrite app_nil_r, rev_involutive.
Qed.

Lemma split_from_nonempty sep cur s : split_from sep cur s ≠ [].
Proof.
  revert cur. induction s as [|c s IH]; intros cur; simpl; [done|].
  destruct (c =? sep)%N; [done|apply IH].
Qed.

(** ** The sections that do not fail on short lines *)

(** [int] raises nothing but ValueError. *)
Lemma py_int_error s e : py_int s = Raise e → e = InvalidLiteral s.
Proof.
  unfold py_int. destruct (int_literal s); [|congruence].
  destruct (_ <=? _); congruence.
Qed.

Lemma py_float_error s e : py_float s = Raise e → e = InvalidLiteral s.
Proof.
  unfold py_float.
  destruct (split _ s) as [|a [|b [|]]]; try congruence.
  destruct a, b; try congruence. destruct (digits_value _ _); congruence.
Qed.

Lemma fmap_Raise {A B} (f : A → B) (m : result A) e :
  f <$> m = Raise e → m = Raise e.
Proof. destruct m; simpl; [done|by intros [= ->]]. Qed.

Lemma bind_Raise {A B} (m : result A) (f : A → result B) e :
  m ≫= f = Raise e → m = Raise e ∨ ∃ a, m = Ok a ∧ f a = Raise e.
Proof. destruct m as [a|e']; simpl; [by eauto|]. intros [= ->]. by left. Qed.

Lemma bind_Ok {A B} (m : result A) (f : A → result B) b :
  m ≫= f = Ok b → ∃ a, m = Ok a ∧ f a = Ok b.
Proof. destruct m as [a|e']; simpl; [by eauto|done]. Qed.

Lemma fmap_Ok {A B} (f : A → B) (m : result A) b :
  f <$> m = Ok b → ∃ a, m = Ok a ∧ b = f a.
Proof. destruct m as [a|e']; simpl; [|done]. intros [= <-]. eauto. Qed.


Lemma parse_number_plain_error s e :
  parse_number_plain s = Raise e → is_format_error e = true.
Proof.
  unfold parse_number_plain. intros H.
  destruct (matched (re_fullmatch re_decimal s)).
  { apply fmap_Raise, py_float_error in H as ->. done. }
  destruct (matched (re_fullmatch re_digits s)).
  { apply fmap_Raise, py_int_error in H as ->. done. }
  by injection H as <-.
Qed.

Lemma parse_number_error s e :
  parse_number s = Raise e → is_format_error e = true.
Proof.
  unfold parse_number. intros H.
  destruct (matched (re_fullmatch re_dot_groups _)).
  { apply fmap_Raise, py_int_error in H as ->. done. }
  destruct (_ && _); [|by eapply parse_number_plain_error].
  destruct (matched (re_fullmatch re_comma_pair _)).
  - destruct (split _ _) as [|a [|b [|]]]; try by injection H as <-.
    destruct (_ =? _)%nat.
    + apply fmap_Raise, py_int_error in H as ->. done.
    + apply fmap_Raise, py_float_error in H as ->. done.
  - destruct (forallb _ _); [|by eapply parse_number_plain_error].
    apply fmap_Raise, py_int_error in H as ->. done.
Qed.

Lemma format_error_is_ValueError e :
  is_format_error e = true → is_ValueError e = true.
Proof. by destruct e. Qed.


Ltac groups_of_digits :=
  repeat split; auto; intros; by apply matches_plus_digit.

Lemma short_le a b : (length a ≤ length b)%nat → short b → short a.
Proof. unfold short. lia. Qed.


Lemma search_int_group r s m :
  groups_in digit_groups r → sets 1 r = true → re_search r s = Some m →
  short s →
  ∃ z, py_int (grp 1 m) = Ok z ∧ 0 ≤ z.
Proof.
  intros Hgr Hset Hm Hs. apply py_int_digit_run.
  - by apply (re_search_sound digit_groups r s m 1).
  - eapply short_le; [by eapply re_search_within|done].
Qed.

Lemma search_int_group_Ok r s m z :
  groups_in digit_groups r → sets 1 r = true → re_search r s = Some m →
  py_int (grp 1 m) = Ok z → 0 ≤ z.
Proof.
  intros Hgr Hset Hm. apply py_int_digit_run_Ok.
  by apply (re_search_sound digit_groups r s m 1).
Qed.

Lemma remove_char_length c s : (length (remove_char c s) ≤ length s)%nat.
Proof.
  unfold remove_char. induction s as [|x s IH]; simpl; [done|].
  destruct (negb _); simpl; lia.
Qed.

Lemma split_from_length sep cur s :
  Forall (λ p, (length p ≤ length cur + length s)%nat) (split_from sep cur s).
Proof.
  revert cur. induction s as [|c s IH]; intros cur; simpl.
  - constructor; [rewrite length_rev; lia|done].
  - destruct (c =? sep)%N.
    + constructor; [rewrite length_rev; lia|].
      eapply Forall_impl; [apply IH|]. simpl. intros; lia.
    + eapply Forall_impl; [apply IH|]. simpl. intros; lia.
Qed.

Lemma slash_run_of_search l m1 :
  re_search re_slash_run l = Some m1 → matches re_bp_run (grp 1 m1).
Proof.
  intros Hm1.
  apply (re_search_sound (λ _ v, matches re_bp_run v) _ _ _ 1) in Hm1;
    [done| |done].
  repeat split; auto.
Qed.

(** The requirements that [extract_bp_from_two_lines] reads are numbers
    that are not negative. *)
Lemma bp_requirements_Ok line1 rs :
  bp_requirements_of line1 = Ok (Some rs) → rs ≠ [] ∧ Forall (λ z, 0 ≤ z) rs.
Proof.
  unfold bp_requirements_of.
  set (l1_clean := remove_char _ (remove_char _ line1)).
  destruct (re_search re_slash_run l1_clean) as [m1|] eqn:Hm1; [|done].
  apply slash_run_of_search in Hm1 as Hv.
  intros (zs & Hzs & [= <-])%fmap_Ok.
  apply py_int_digit_runs_Ok in Hzs as [Hpos Hlen]; [|by apply split_bp_run].
  split; [|done]. intros ->. simpl in Hlen. symmetry in Hlen.
  apply length_zero_iff_nil in Hlen. by apply split_from_nonempty in Hlen.
Qed.

Lemma bp_requirements_never_raises line1 :
  short line1 →
  ∃ reqs, bp_requirements_of line1 = Ok reqs
          ∧ ∀ rs, reqs = Some rs → rs ≠ [] ∧ Forall (λ z, 0 ≤ z) rs.
Proof.
  intros Hshort.
  assert (∃ reqs, bp_requirements_of line1 = Ok reqs) as [reqs Hreqs].
  { unfold bp_requirements_of.
    set (l1_clean := remove_char _ (remove_char _ line1)).
    assert (short l1_clean) as Hclean.
    { eapply short_le; [|exact Hshort]. unfold l1_clean.
      etrans; apply remove_char_length. }
    destruct (re_search re_slash_run l1_clean) as [m1|] eqn:Hm1;
      [|by eexists].
    apply slash_run_of_search in Hm1 as Hv.
    destruct (py_int_digit_runs (split 0x2F%N (grp 1 m1)))
      as (zs & -> & _); [by apply split_bp_run| |by eexists].
    eapply Forall_impl; [apply split_from_length|]. simpl. intros p Hp.
    eapply short_le; [|exact Hclean].
    etrans; [exact Hp|]. by eapply re_search_within. }
  exists reqs. split; [done|]. intros rs ->. by eapply bp_requirements_Ok.
Qed.

Lemma bp_total_never_raises line1 line2 :
  short line1 → short (default [] line2) →
  ∃ total, bp_total_of line1 line2 = Ok total.
Proof.
  intros H1 H2. unfold bp_total_of.
  set (m2 := match re_search re_paren_total line1 with
             | Some m => Some m
             | None => re_search re_paren_total (default [] line2)
             end).
  destruct m2 as [m|] eqn:Hm2; [|by eexists].
  assert (∃ s, re_search re_paren_total s = Some m ∧ short s) as (s & Hs & Hss).
  { subst m2. destruct (re_search re_paren_total line1) eqn:Hline1.
    - injection Hm2 as ->. eauto.
    - eauto. }
  apply search_int_group in Hs as (z & -> & _); [by eexists| |done|done].
  groups_of_digits.
Qed.

Lemma extract_bp_Ok line1 line2 reqs total :
  extract_bp_from_two_lines line1 line2 = Ok (Some (reqs, total)) →
  reqs ≠ [] ∧ Forall (λ z, 0 ≤ z) reqs.
Proof.
  unfold extract_bp_from_two_lines.
  intros (rs & Hrs & H)%bind_Ok. apply bind_Ok in H as (tot & _ & H).
  destruct rs as [rs|]; [|done]. injection H as <- _.
  by eapply bp_requirements_Ok.
Qed.

Lemma extract_bp_never_raises line1 line2 :
  short line1 → short (default [] line2) →
  ∃ r, extract_bp_from_two_lines line1 line2 = Ok r ∧
       ∀ reqs total, r = Some (reqs, total) →
         reqs ≠ [] ∧ Forall (λ z, 0 ≤ z) reqs.
Proof.
  intros H1 H2.
  assert (∃ r, extract_bp_from_two_lines line1 line2 = Ok r) as [r Hr].
  { unfold extract_bp_from_two_lines.
    destruct (bp_requirements_never_raises line1 H1) as (reqs & -> & _).
    destruct (bp_total_never_raises line1 line2 H1 H2) as (total & ->).
    by eexists. }
  exists r. split; [done|]. intros reqs total ->. by eapply extract_bp_Ok.
Qed.


(** The requirements of an accepted page are not negative. *)
Lemma scan_bp_nonneg ls reqs total uses_key :
  scan_bp ls = Ok (reqs, total, uses_key) → Forall (λ z, 0 ≤ z) reqs.
Proof.
  induction ls as [|l ls IH]; cbn [scan_bp].
  - by intros [= <- _ _].
  - destruct (is_bp_candidate l); [|done].
    intros (r & Hr & H)%bind_Ok.
    destruct r as [[reqs' total']|]; [|by apply IH].
    injection H as <- _ _. by apply extract_bp_Ok in Hr as [_ Hr].
Qed.





(** ** Required anchors *)

Lemma class_line_spec l :
  matched (re_fullmatch re_class l) = true ↔ class_letter l.
Proof.
  unfold class_letter, re_fullmatch, re_class, one_of. cbn [mt].
  rewrite !elem_of_cons, elem_of_nil.
  destruct l as [|c [|d l]]; simpl.
  - split; [done|]. intros [?|[?|[?|[?|[?|[]]]]]]; discriminate.
  - destruct (_ || _) eqn:Hc.
    + split; [intros _|done].
      rewrite !orb_true_iff, !N.eqb_eq in Hc.
      destruct Hc as [->|[->|[->|[->|[->|?]]]]]; auto 10; done.
    + split; [done|].
      rewrite !orb_false_iff, !N.eqb_neq in Hc.
      intros [[= ->]|[[= ->]|[[= ->]|[[= ->]|[[= ->]|[]]]]]];
        clear -Hc; intuition congruence.
  - split.
    + by destruct (_ || _).
    + intros [?|[?|[?|[?|[?|[]]]]]]; discriminate.
Qed.

Lemma star_line_spec l : is_star_line l = true ↔ star_glyphs l.
Proof.
  unfold is_star_line, star_glyphs. rewrite bool_decide_eq_true. split.
  - intros Hset. split.
    + intros ->. revert Hset. simpl. set_solver.
    + apply Forall_forall. intros c Hc.
      apply (elem_of_list_to_set (C:=gset N)) in Hc. rewrite Hset in Hc.
      by apply elem_of_singleton in Hc.
  - intros [Hne Hall]. rewrite Forall_forall in Hall.
    destruct l as [|c l]; [done|].
    apply set_eq. intros x. rewrite elem_of_list_to_set, elem_of_singleton.
    split; [by auto|]. intros ->. rewrite <- (Hall c) by set_solver. set_solver.
Qed.

Lemma find_index_Some {A} (p : A → bool) l i :
  find_index p l = Some i →
  ∃ pre x post, l = pre ++ x :: post ∧ length pre = i ∧ p x = true
    ∧ Forall (λ y, p y = false) pre.
Proof.
  revert i. induction l as [|y l IH]; intros i; simpl; [done|].
  destruct (p y) eqn:Hy.
  - intros [= <-]. exists [], y, l. auto.
  - destruct (find_index p l) as [j|]; [|done]. intros [= <-].
    destruct (IH j eq_refl) as (pre & x & post & -> & <- & Hx & Hpre).
    exists (y :: pre), x, post. auto.
Qed.





(** ** Failures of the numeric sections are not missing sections *)

Lemma to_float_error x e : to_float x = Raise e → e = Overflow.
Proof.
  destruct x as [z|f]; simpl; [|done]. unfold float_of_int.
  destruct (b64_round _ _); congruence.
Qed.








(** ** The stat scan has fuel enough *)

Lemma read_stats_index ls i stats stats' j :
  read_stats ls i stats = Ok (stats', j) → (i ≤ j)%nat.
Proof.
  revert i stats. induction ls as [|line ls IH]; intros i stats; cbn [read_stats].
  - intros [= _ <-]. lia.
  - destruct (length stats <? 4)%nat; [|intros [= _ <-]; lia].
    destruct (matched _); [intros [= _ <-]; lia|].
    intros (st & _ & H)%bind_Ok. apply IH in H. lia.
Qed.

Lemma parse_stat_block_index lines i e j :
  parse_stat_block lines i = Ok (Some e, j) → (i < j)%nat.
Proof.
  unfold parse_stat_block.
  destruct (lines !! i) as [header|]; [|done].
  destruct (re_match re_header header) as [m|]; [|done].
  intros (rk & _ & H)%bind_Ok.
  apply bind_Ok in H as ([stats k] & Hread & H).
  apply read_stats_index in Hread.
  destruct stats as [|s0 [|s1 [|s2 [|s3 [|]]]]]; try done.
  repeat (apply bind_Ok in H as (? & _ & H)).
  injection H as _ <-. lia.
Qed.

Lemma scan_stats_fuel fuel1 fuel2 lines i acc :
  (length lines - i ≤ fuel1)%nat → (length lines - i ≤ fuel2)%nat →
  scan_stats fuel1 lines i acc = scan_stats fuel2 lines i acc.
Proof.
  revert fuel2 i acc.
  induction fuel1 as [|fuel1 IH]; intros fuel2 i acc H1 H2.
  - assert (lines !! i = None) as Hi by (apply lookup_ge_None; lia).
    destruct fuel2; cbn [scan_stats]; by rewrite ?Hi.
  - destruct fuel2 as [|fuel2].
    + assert (lines !! i = None) as Hi by (apply lookup_ge_None; lia).
      cbn [scan_stats]. by rewrite Hi.
    + cbn [scan_stats].
      destruct (lines !! i) as [line|] eqn:Hi; [|done].
      apply lookup_lt_Some in Hi.
      destruct (matched _); [|apply IH; lia].
      destruct (parse_stat_block lines i) as [[[e|] j]|err] eqn:Hblock; simpl.
      * apply parse_stat_block_index in Hblock. apply IH; lia.
      * apply IH; lia.
      * done.
Qed.

(** More fuel than the number of lines changes nothing: the scan of
    [collect_stats] always runs to the end of the page. *)
Lemma collect_stats_fuel lines fuel :
  (length lines ≤ fuel)%nat → scan_stats fuel lines 0 [] = collect_stats lines.
Proof. intros H. apply scan_stats_fuel; lia. Qed.

(** ** What a successful parse returns *)

Lemma parse_mei_page_Ok text car_id r :
  parse_mei_page text car_id = Ok r →
  let lines := page_lines text in
  ∃ reqs total uses_key epic_per_stat stat_entries,
    find_max_star lines = Ok (Car.max_star r)
    ∧ find_fuel lines = Ok (Car.fuel r)
    ∧ scan_bp lines = Ok (reqs, total, uses_key)
    ∧ scan_epics lines = Ok (epic_per_stat, Car.epic_price r)
    ∧ collect_stats lines = Ok stat_entries
    ∧ stat_entries ≠ []
    ∧ scan_upgrades lines false [] = Ok (Car.upgrade_cumulative r)
    ∧ Car.stat r
      = build_stat_list stat_entries (Car.max_star r) (0 <? epic_per_stat)
    ∧ Car.upgrade_per_star r = per_star (Car.upgrade_cumulative r)
    ∧ Car.bp_requirements r = reqs
    ∧ Car.bp_cumulative r = accumulate reqs
    ∧ Car.bp_all r = match reqs with [] => None | _ => total end
    ∧ Car.unlock_method r
      = match reqs with
        | [] => None
        | _ => Some (if uses_key then key else bp)
        end
    ∧ Car.epic_importparts_amount r
      = {| Epic.top_speed := epic_per_stat; Epic.accel := epic_per_stat;
           Epic.handling := epic_per_stat; Epic.nitro := epic_per_stat |}
    ∧ ∃ upgrade_all_full,
        find_total lines = Ok upgrade_all_full
        ∧ match upgrade_all_full with
          | Some x => Some <$> to_int x
          | None => Ok None
          end = Ok (Car.upgrade_all r).
Proof.
  intros H. unfold parse_mei_page in H. cbv zeta in *.
  set (lines := page_lines text) in *.
  apply bind_Ok in H as ([car_class name] & _ & H).
  apply bind_Ok in H as (max_star & Hstar & H).
  apply bind_Ok in H as (fuel & Hfuel & H).
  apply bind_Ok in H as ([[reqs total] uses_key] & Hbp & H).
  apply bind_Ok in H as ([epic_per_stat price] & Hepics & H).
  apply bind_Ok in H as (stat_entries & Hstats & H).
  case_bool_decide as Hempty; [done|].
  apply bind_Ok in H as (totals & Hup & H).
  apply bind_Ok in H as (upgrade_all_full & Htotal & H).
  apply bind_Ok in H as (upgrade_all & Hall & H).
  injection H as <-. simpl.
  exists reqs, total, uses_key, epic_per_stat, stat_entries.
  repeat split; try done. by exists upgrade_all_full.
Qed.

(** ** The stat list *)

(** The stat list of an accepted page is the aggregate of the entries that
    the scan captured. *)
Lemma stat_of_parsed_page text car_id r :
  parse_mei_page text car_id = Ok r →
  ∃ stat_entries epic_per_stat,
    collect_stats (page_lines text) = Ok stat_entries
    ∧ Car.stat r
      = build_stat_list stat_entries (Car.max_star r) (0 <? epic_per_stat).
Proof.
  intros (reqs & total & uses_key & eps & es & _ & _ & _ & _ & Hes & _ & _
          & Hstat & _)%parse_mei_page_Ok.
  by exists es, eps.
Qed.

Lemma omap_full_keys (m : gmap nat StatEntry) l :
  tier_key <$> omap (λ s, tier_of s t_full <$> m !! s) l
  = (λ s, (s, t_full)) <$> List.filter (λ s, bool_decide (is_Some (m !! s))) l.
Proof.
  induction l as [|s l IH]; [done|].
  cbn [omap list_omap List.filter].
  destruct (m !! s) as [e|] eqn:Hs.
  - rewrite bool_decide_eq_true_2 by eauto. simpl. f_equal. apply IH.
  - rewrite bool_decide_eq_false_2 by (by intros [? ?]). done.
Qed.

Lemma build_stat_list_keys es max_star has_epic :
  ∃ a b c d,
    tier_key <$> build_stat_list es max_star has_epic
    = a ++ ((λ s, (s, t_full)) <$> b) ++ c ++ d
    ∧ (a = [] ∨ a = [(1%nat, t_stock)])
    ∧ NoDup b ∧ Forall (λ s, (1 ≤ s ≤ max_star - 1)%nat) b
    ∧ (c = [] ∨ c = [(max_star, t_max_wo_epics)])
    ∧ (d = [] ∨ d = [(max_star, t_gold)]).
Proof.
  unfold build_stat_list. rewrite !fmap_app, omap_full_keys.
  eexists _, _, _, _. split; [reflexivity|]. repeat split.
  - destruct (first_of_kind stock es); auto.
  - apply NoDup_ListNoDup, List.NoDup_filter, NoDup_ListNoDup, NoDup_seq.
  - apply Forall_forall. intros s Hs.
    apply list_elem_of_In, filter_In in Hs as [Hs _].
    apply in_seq in Hs. lia.
  - destruct has_epic; auto. destruct (first_of_kind max_wo_epics es); auto.
  - destruct (first_of_kind gold es); auto.
Qed.

Lemma stat_keys_nodup (a c d : list (nat * TierType)) b max_star :
  (a = [] ∨ a = [(1%nat, t_stock)]) → NoDup b →
  (c = [] ∨ c = [(max_star, t_max_wo_epics)]) →
  (d = [] ∨ d = [(max_star, t_gold)]) →
  NoDup (a ++ ((λ s, (s, t_full)) <$> b) ++ c ++ d).
Proof.
  intros Ha Hb Hc Hd.
  assert (NoDup ((λ s : nat, (s, t_full)) <$> b)) as Hb'.
  { apply NoDup_fmap_2; [|done]. by intros x y [=]. }
  assert (∀ x, x ∈ (λ s : nat, (s, t_full)) <$> b → x.2 = t_full) as Hfull.
  { intros x (s & -> & _)%list_elem_of_fmap. done. }
  apply NoDup_app. split; [|split].
  - destruct Ha as [->| ->]; [constructor|apply NoDup_singleton].
  - intros x Hx Hin.
    assert (x = (1%nat, t_stock)) as ->.
    { destruct Ha as [->| ->]; set_solver. }
    apply elem_of_app in Hin as [Hin|Hin].
    + by apply Hfull in Hin.
    + destruct Hc as [->| ->], Hd as [->| ->]; set_solver.
  - apply NoDup_app. split; [done|split].
    + intros x Hx Hin. apply Hfull in Hx.
      destruct x as [s ty]. simpl in Hx. subst ty.
      destruct Hc as [->| ->], Hd as [->| ->]; set_solver.
    + destruct Hc as [->| ->], Hd as [->| ->]; simpl;
        repeat constructor; set_solver.
Qed.

Lemma stat_keys_allowed (a c d : list (nat * TierType)) b max_star :
  (a = [] ∨ a = [(1%nat, t_stock)]) →
  Forall (λ s, (1 ≤ s ≤ max_star - 1)%nat) b →
  (c = [] ∨ c = [(max_star, t_max_wo_epics)]) →
  (d = [] ∨ d = [(max_star, t_gold)]) →
  Forall (allowed_tier max_star) (a ++ ((λ s, (s, t_full)) <$> b) ++ c ++ d).
Proof.
  intros Ha Hb Hc Hd. rewrite !Forall_app. repeat split.
  - destruct Ha as [->| ->]; repeat constructor.
  - apply Forall_fmap. eapply Forall_impl; [exact Hb|]. done.
  - destruct Hc as [->| ->]; repeat constructor.
  - destruct Hd as [->| ->]; repeat constructor.
Qed.

(** ** The demo page *)

Lemma demo_page_parses : parse_mei_page demo_page 7 = Ok demo_record.
Proof. vm_compute. reflexivity. Qed.

(** ** C1: the shape of the stat list *)

(** C1 as stated fails on [demo_page]: its stat list holds a stock entry and
    a full entry that are both at star 1, so the third part of the statement,
    that stock and full never share a star, is false there. *)
Lemma C1_stock_and_full_share_star_1 :
  parse_mei_page demo_page 7 = Ok demo_record
  ∧ ¬ (NoDup (tier_key <$> Car.stat demo_record)
       ∧ Forall (λ t, allowed_tier (Car.max_star demo_record) (tier_key t))
                (Car.stat demo_record)
       ∧ stock_full_apart (Car.stat demo_record)).
Proof.
  split; [vm_compute; reflexivity|].
  intros (_ & _ & Hapart).
  eapply Hapart.
  - apply list_elem_of_here.
  - apply list_elem_of_further, list_elem_of_here.
  - reflexivity.
  - reflexivity.
  - reflexivity.
Qed.

(** C1, amended: on every text that [parse_mei_page] accepts, the stat list
    has at most one entry per (star, type) pair and every pair is one of
    (1, stock), (s, full) with 1 <= s <= max_star - 1, (max_star,
    max_wo_epics), (max_star, gold); a stock entry and a full entry share a
    star only at star 1. *)
Theorem C1_stat_list_shape text car_id r :
  parse_mei_page text car_id = Ok r →
  NoDup (tier_key <$> Car.stat r)
  ∧ Forall (λ t, allowed_tier (Car.max_star r) (tier_key t)) (Car.stat r)
  ∧ ∀ a b, a ∈ Car.stat r → b ∈ Car.stat r →
           Tier.type a = t_stock → Tier.type b = t_full →
           Tier.star a = Tier.star b → Tier.star a = 1%nat.
Proof.
  intros (reqs & total & uses_key & eps & es & _ & _ & _ & _ & _ & _ & _
          & Hstat & _)%parse_mei_page_Ok.
  destruct (build_stat_list_keys es (Car.max_star r) (0 <? eps))
    as (a & b & c & d & Hkeys & Ha & Hb & Hrange & Hc & Hd).
  rewrite <- Hstat in Hkeys.
  assert (Forall (λ t, allowed_tier (Car.max_star r) (tier_key t)) (Car.stat r))
    as Hallowed.
  { apply (Forall_fmap tier_key (allowed_tier (Car.max_star r))).
    rewrite Hkeys. by apply stat_keys_allowed. }
  split; [|split].
  - rewrite Hkeys. by apply (stat_keys_nodup a c d b (Car.max_star r)).
  - done.
  - intros x y Hx _ Hty _ _. rewrite Forall_forall in Hallowed.
    apply Hallowed in Hx. unfold allowed_tier, tier_key in Hx. simpl in Hx.
    by rewrite Hty in Hx.
Qed.

Lemma C1_stat_list_shape_witness :
  parse_mei_page demo_page 7 = Ok demo_record
  ∧ NoDup (tier_key <$> Car.stat demo_record)
  ∧ Forall (λ t, allowed_tier (Car.max_star demo_record) (tier_key t))
           (Car.stat demo_record)
  ∧ ∀ a b, a ∈ Car.stat demo_record → b ∈ Car.stat demo_record →
           Tier.type a = t_stock → Tier.type b = t_full →
           Tier.star a = Tier.star b → Tier.star a = 1%nat.
Proof.
  split; [vm_compute; reflexivity|].
  apply (C1_stat_list_shape demo_page 7 demo_record).
  vm_compute; reflexivity.
Defined.

(** ** C2: the examples of [parse_number] *)

(** The two floats of the examples: 42.2 and 123.45 are no binary64
    numbers; [float] returns their nearest neighbours, within half a unit in
    the last place (2^-48 and 2^-47). *)
Lemma float_42_2 :
  b64_round 422 10 = FFin 2969561004297421 (-46)
  ∧ Z.abs (2969561004297421 * 10 - 422 * 2 ^ 46) * 2 ^ 48 ≤ 10 * 2 ^ 46.
Proof. split; [vm_compute; reflexivity|]. vm_compute. discriminate. Qed.

Lemma float_123_45 :
  b64_round 12345 100 = FFin 8687021468732621 (-46)
  ∧ Z.abs (8687021468732621 * 100 - 12345 * 2 ^ 46) * 2 ^ 47 ≤ 100 * 2 ^ 46.
Proof. split; [vm_compute; reflexivity|]. vm_compute. discriminate. Qed.

(** C2: [parse_number] maps "42.486.000" to the integer 42486000, "68,200"
    to the integer 68200, "42,2" to the float 42.2, "1,234,567" to the
    integer 1234567, "123.45" to the float 123.45, "307" to the integer 307,
    and raises its ValueError on "12a".  The two floats are the binary64
    numbers 2969561004297421 / 2^46 and 8687021468732621 / 2^46, which lie
    within half a unit in the last place of 42.2 and of 123.45. *)
Theorem C2_parse_number_examples :
  parse_number (lit "42.486.000") = Ok (PInt 42486000)
  ∧ parse_number (lit "68,200") = Ok (PInt 68200)
  ∧ parse_number (lit "42,2") = Ok (PFloat (FFin 2969561004297421 (-46)))
  ∧ parse_number (lit "1,234,567") = Ok (PInt 1234567)
  ∧ parse_number (lit "123.45") = Ok (PFloat (FFin 8687021468732621 (-46)))
  ∧ parse_number (lit "307") = Ok (PInt 307)
  ∧ parse_number (lit "12a") = Raise (NumberFormat (lit "12a"))
  ∧ Z.abs (2969561004297421 * 10 - 422 * 2 ^ 46) * 2 ^ 48 ≤ 10 * 2 ^ 46
  ∧ Z.abs (8687021468732621 * 100 - 12345 * 2 ^ 46) * 2 ^ 47 ≤ 100 * 2 ^ 46.
Proof. repeat split; vm_compute; first [reflexivity | discriminate]. Qed.

(** The order of the rules decides where two of them apply: "1.234" is a
    group of thousands for rule 1 and a decimal for rule 3, "1,234" is read
    by the comma rule before the plain rules are tried. *)
Lemma parse_number_order :
  parse_number (lit "1.234") = Ok (PInt 1234)
  ∧ parse_number (lit "1.23") = Ok (PFloat (b64_round 123 100))
  ∧ parse_number (lit "1,234") = Ok (PInt 1234)
  ∧ parse_number (lit "1,2345") = Ok (PFloat (b64_round 12345 10000))
  ∧ parse_number (lit "1,23,4") = Ok (PInt 1234)
  ∧ parse_number (lit "1,2345,6") = Raise (NumberFormat (lit "1,2345,6")).
Proof. repeat split; vm_compute; reflexivity. Qed.

(** ** C3: a numeric token that cannot be read, in an optional field *)

(** The price after "Epics:" is read under [except ValueError]: a token
    that [parse_number] rejects leaves the price at its default 0 and the
    scan goes on. *)
Lemma epic_price_failure_is_soft pre l l1 l2 post e :
  Forall (λ x, startswith (lit "Epics:") x = false) pre →
  startswith (lit "Epics:") l = true →
  short l1 →
  parse_number l2 = Raise e →
  ∃ n, scan_epics (pre ++ l :: l1 :: l2 :: post) = Ok (n, PInt 0).
Proof.
  intros Hpre Hl Hl1 Hfail. induction Hpre as [|x pre Hx Hpre IH].
  - cbn [app scan_epics]. rewrite Hl.
    assert (∃ n, match re_search re_first_int l1 with
                 | Some m => py_int (grp 1 m)
                 | None => Ok 0
                 end = Ok n) as (n & ->).
    { destruct (re_search re_first_int l1) as [m|] eqn:Hm; [|by eexists].
      apply search_int_group in Hm as (z & -> & _); [by eexists| |done|done].
      groups_of_digits. }
    rewrite Hfail. simpl.
    apply parse_number_error, format_error_is_ValueError in Hfail as ->.
    by exists n.
  - cbn [app scan_epics]. rewrite Hx. apply IH.
Qed.

(** C3 fails on [bad_total_page]: the token "1,2345,6" after "Total:" is
    rejected by every rule of [parse_number]; no handler surrounds that call
    (lines 402-405), so the whole page fails, where the spec wants
    upgrade_all left unset.  Without that line the same page parses. *)
Theorem C3_total_token_is_fatal :
  parse_number (lit "1,2345,6") = Raise (NumberFormat (lit "1,2345,6"))
  ∧ parse_mei_page bad_total_page 1 = Raise (NumberFormat (lit "1,2345,6"))
  ∧ ∃ r, parse_mei_page no_total_page 1 = Ok r ∧ Car.upgrade_all r = None.
Proof.
  split; [vm_compute; reflexivity|].
  split; [vm_compute; reflexivity|].
  eexists. split; [vm_compute; reflexivity|]. reflexivity.
Qed.

(** ** C4: missing sections and soft omissions *)








Lemma scan_bp_no_candidate ls :
  (∀ l, l ∈ ls → is_bp_candidate l = false) → scan_bp ls = Ok ([], None, false).
Proof.
  induction ls as [|y ls IH]; intros H; cbn [scan_bp]; [done|].
  rewrite (H y) by apply list_elem_of_here.
  apply IH. intros x Hx. apply H. by apply list_elem_of_further.
Qed.


(** Why C4 needs short lines: [long_fuel_page] has its class, name and star
    lines and no stat block, and still the failure is the ValueError that
    [int] raises at line 231 on the 4301 digits of the fuel line, before
    the check for a stat block is reached. *)
Lemma fuel_digits_beyond_limit :
  parse_mei_page long_fuel_page 1
  = Raise (InvalidLiteral (replicate 4301 0x31%N))
  ∧ collect_stats (page_lines long_fuel_page) = Ok []
  ∧ ¬ Forall short (page_lines long_fuel_page).
Proof.
  split; [vm_compute; reflexivity|]. split; [vm_compute; reflexivity|].
  assert (page_lines long_fuel_page
          = [ lit "S"; lit "Car"; stars 2;
              FUEL :: lit " " ++ replicate 4301 0x31%N ++ lit " fuels" ])
    as -> by (vm_compute; reflexivity).
  intros H. do 3 apply Forall_cons in H as [_ H].
  apply Forall_cons in H as [H _]. vm_compute in H. by apply H.
Qed.




(** ** C5 and C6: the upgrade ladder *)

Lemma per_star_length l : length (per_star l) = length l.
Proof. unfold per_star. apply length_imap. Qed.

Lemma per_star_first l : per_star l !! 0%nat = l !! 0%nat.
Proof. unfold per_star. rewrite list_lookup_imap. by destruct (l !! 0%nat). Qed.

Lemma per_star_next l i a b :
  l !! i = Some a → l !! S i = Some b → per_star l !! S i = Some (b - a).
Proof.
  intros Ha Hb. unfold per_star. rewrite list_lookup_imap, Hb. simpl.
  by rewrite Nat.sub_0_r, Ha.
Qed.

Lemma sum_app l k : sum (l ++ k) = sum l + sum k.
Proof. unfold sum. induction l as [|x l IH]; simpl; lia. Qed.

(** The deltas up to index [n] add up to the cumulative total at [n]. *)
Lemma sum_per_star_prefix l n a :
  l !! n = Some a → sum (take (S n) (per_star l)) = a.
Proof.
  revert a. induction n as [|n IH]; intros a Ha.
  - pose proof (per_star_first l) as H0. rewrite Ha in H0.
    rewrite (take_S_r _ _ _ H0). simpl. lia.
  - assert (is_Some (l !! n)) as [p Hp].
    { apply lookup_lt_is_Some. apply lookup_lt_Some in Ha. lia. }
    rewrite (take_S_r _ _ _ (per_star_next l n p a Hp Ha)).
    rewrite sum_app, (IH p Hp). simpl. lia.
Qed.

Lemma sum_per_star l a : last l = Some a → sum (per_star l) = a.
Proof.
  intros Hlast. rewrite last_lookup in Hlast.
  assert (length l ≠ 0%nat) as Hne.
  { intros H0. apply length_zero_iff_nil in H0. by subst l. }
  rewrite <- (sum_per_star_prefix l (pred (length l)) a Hlast).
  f_equal. symmetry. apply take_ge. rewrite per_star_length. lia.
Qed.

Lemma strictly_increasing_steps l :
  strictly_increasing l
  ↔ ∀ i d, (1 ≤ i)%nat → per_star l !! i = Some d → 0 < d.
Proof.
  split.
  - intros Hinc [|i] d Hi Hd; [lia|].
    assert (is_Some (l !! S i)) as [b Hb].
    { apply lookup_lt_is_Some. apply lookup_lt_Some in Hd.
      by rewrite per_star_length in Hd. }
    assert (is_Some (l !! i)) as [a Ha].
    { apply lookup_lt_is_Some. apply lookup_lt_Some in Hb. lia. }
    rewrite (per_star_next l i a b Ha Hb) in Hd. injection Hd as <-.
    assert (a < b) by (apply (Hinc i (S i)); auto; lia). lia.
  - intros Hstep i j. revert i. induction j as [|j IH]; intros i a b Hij Ha Hb.
    + lia.
    + assert (is_Some (l !! j)) as [p Hp].
      { apply lookup_lt_is_Some. apply lookup_lt_Some in Hb. lia. }
      assert (p < b).
      { pose proof (Hstep (S j) (b - p)) as H.
        rewrite (per_star_next l j p b Hp Hb) in H.
        specialize (H ltac:(lia) eq_refl). lia. }
      destruct (decide (i = j)) as [->|Hne].
      * congruence.
      * assert (a < p) by (apply (IH i); auto; lia). lia.
Qed.

(** C5 as stated fails on [falling_page]: its two block totals are 100 and
    then 50, and [parse_mei_page] stores them as read. *)
Lemma C5_totals_may_fall :
  ∃ r, parse_mei_page falling_page 1 = Ok r
       ∧ Car.upgrade_cumulative r = [100; 50]
       ∧ Car.upgrade_cumulative r ≠ []
       ∧ ¬ strictly_increasing (Car.upgrade_cumulative r).
Proof.
  eexists. split; [vm_compute; reflexivity|]. simpl.
  split; [done|]. split; [done|].
  intros H. specialize (H 0%nat 1%nat 100 50). simpl in H.
  specialize (H ltac:(lia) eq_refl eq_refl). lia.
Qed.

(** C5, amended: on every text that [parse_mei_page] accepts,
    upgrade_cumulative is the list of block totals in the order of the page,
    as the scan of lines 381-396 read them; it is strictly increasing
    exactly when every element of upgrade_per_star after the first is
    positive. *)
Theorem C5_upgrade_cumulative_as_read text car_id r :
  parse_mei_page text car_id = Ok r →
  scan_upgrades (page_lines text) false [] = Ok (Car.upgrade_cumulative r)
  ∧ (strictly_increasing (Car.upgrade_cumulative r)
     ↔ ∀ i d, (1 ≤ i)%nat → Car.upgrade_per_star r !! i = Some d → 0 < d).
Proof.
  intros (reqs & total & uses_key & eps & es & _ & _ & _ & _ & _ & _ & Hup
          & _ & Hper & _)%parse_mei_page_Ok.
  split; [done|]. rewrite Hper. apply strictly_increasing_steps.
Qed.

Lemma C5_upgrade_cumulative_as_read_witness :
  parse_mei_page demo_page 7 = Ok demo_record
  ∧ scan_upgrades (page_lines demo_page) false []
    = Ok (Car.upgrade_cumulative demo_record)
  ∧ (strictly_increasing (Car.upgrade_cumulative demo_record)
     ↔ ∀ i d, (1 ≤ i)%nat →
              Car.upgrade_per_star demo_record !! i = Some d → 0 < d).
Proof.
  split; [vm_compute; reflexivity|].
  apply (C5_upgrade_cumulative_as_read demo_page 7 demo_record).
  vm_compute; reflexivity.
Defined.

(** C6: on every text that [parse_mei_page] accepts with a non-empty
    upgrade_cumulative, upgrade_per_star has the same length, its first
    element is upgrade_cumulative[0], each later element is the difference
    of two consecutive cumulative totals, and its sum is the last element
    of upgrade_cumulative. *)
Theorem C6_per_star_deltas text car_id r :
  parse_mei_page text car_id = Ok r →
  Car.upgrade_cumulative r ≠ [] →
  length (Car.upgrade_per_star r) = length (Car.upgrade_cumulative r)
  ∧ Car.upgrade_per_star r !! 0%nat = Car.upgrade_cumulative r !! 0%nat
  ∧ (∀ i a b, Car.upgrade_cumulative r !! i = Some a →
              Car.upgrade_cumulative r !! S i = Some b →
              Car.upgrade_per_star r !! S i = Some (b - a))
  ∧ last (Car.upgrade_cumulative r) = Some (sum (Car.upgrade_per_star r)).
Proof.
  intros (reqs & total & uses_key & eps & es & _ & _ & _ & _ & _ & _ & _
          & _ & Hper & _)%parse_mei_page_Ok Hne.
  rewrite Hper. split; [apply per_star_length|].
  split; [apply per_star_first|].
  split; [apply per_star_next|].
  destruct (last (Car.upgrade_cumulative r)) as [a|] eqn:Hlast.
  - by rewrite (sum_per_star _ a Hlast).
  - by apply last_None in Hlast.
Qed.

Lemma C6_per_star_deltas_witness :
  parse_mei_page demo_page 7 = Ok demo_record
  ∧ Car.upgrade_cumulative demo_record ≠ []
  ∧ length (Car.upgrade_per_star demo_record)
    = length (Car.upgrade_cumulative demo_record)
  ∧ Car.upgrade_per_star demo_record !! 0%nat
    = Car.upgrade_cumulative demo_record !! 0%nat
  ∧ (∀ i a b, Car.upgrade_cumulative demo_record !! i = Some a →
              Car.upgrade_cumulative demo_record !! S i = Some b →
              Car.upgrade_per_star demo_record !! S i = Some (b - a))
  ∧ last (Car.upgrade_cumulative demo_record)
    = Some (sum (Car.upgrade_per_star demo_record)).
Proof.
  split; [vm_compute; reflexivity|].
  split; [discriminate|].
  apply (C6_per_star_deltas demo_page 7 demo_record).
  - vm_compute; reflexivity.
  - discriminate.
Defined.

(** ** C9: the running sum of the blueprint requirements *)

Lemma accumulate_from_length acc l : length (accumulate_from acc l) = length l.
Proof. revert acc. induction l as [|x l IH]; intros acc; simpl; auto. Qed.

Lemma accumulate_from_lookup acc l i :
  (i < length l)%nat →
  accumulate_from acc l !! i = Some (acc + sum (take (S i) l)).
Proof.
  revert acc i. induction l as [|x l IH]; intros acc i Hi; simpl in Hi; [lia|].
  destruct i as [|i].
  - simpl. f_equal. lia.
  - cbn [accumulate_from lookup list_lookup]. rewrite IH by lia.
    f_equal. change (sum (take (S (S i)) (x :: l))) with (x + sum (take (S i) l)).
    lia.
Qed.

Lemma sum_take_mono l i j :
  Forall (λ z, 0 ≤ z) l → (i ≤ j)%nat → sum (take i l) ≤ sum (take j l).
Proof.
  intros Hl. revert i j. induction Hl as [|x l Hx Hl IH]; intros i j Hij.
  - by rewrite !take_nil.
  - destruct i as [|i], j as [|j]; try lia.
    + simpl. specialize (IH 0%nat j ltac:(lia)). simpl in IH. lia.
    + simpl. specialize (IH i j ltac:(lia)). lia.
Qed.

(** C9: on every text that [parse_mei_page] accepts with a non-empty
    bp_requirements, bp_cumulative has the same length, its element [i] is
    the sum of bp_requirements[0..i], and it never decreases. *)
Theorem C9_bp_cumulative text car_id r :
  parse_mei_page text car_id = Ok r →
  Car.bp_requirements r ≠ [] →
  length (Car.bp_cumulative r) = length (Car.bp_requirements r)
  ∧ (∀ i, (i < length (Car.bp_requirements r))%nat →
          Car.bp_cumulative r !! i
          = Some (sum (take (S i) (Car.bp_requirements r))))
  ∧ non_decreasing (Car.bp_cumulative r).
Proof.
  intros (reqs & total & uses_key & eps & es & _ & _ & Hbp & _ & _ & _ & _
          & _ & _ & Hreqs & Hcum & _)%parse_mei_page_Ok _.
  rewrite Hcum, Hreqs. unfold accumulate.
  assert (∀ i, (i < length reqs)%nat →
               accumulate_from 0 reqs !! i = Some (sum (take (S i) reqs)))
    as Hlookup.
  { intros i Hi. by rewrite accumulate_from_lookup. }
  split; [apply accumulate_from_length|]. split; [done|].
  pose proof (scan_bp_nonneg _ _ _ _ Hbp) as Hpos.
  intros i j a b Hij Ha Hb.
  assert (j < length reqs)%nat as Hj.
  { apply lookup_lt_Some in Hb. by rewrite accumulate_from_length in Hb. }
  rewrite Hlookup in Ha by lia. rewrite Hlookup in Hb by lia.
  injection Ha as <-. injection Hb as <-.
  apply sum_take_mono; [done|lia].
Qed.

Lemma C9_bp_cumulative_witness :
  parse_mei_page demo_page 7 = Ok demo_record
  ∧ Car.bp_requirements demo_record ≠ []
  ∧ length (Car.bp_cumulative demo_record)
    = length (Car.bp_requirements demo_record)
  ∧ (∀ i, (i < length (Car.bp_requirements demo_record))%nat →
          Car.bp_cumulative demo_record !! i
          = Some (sum (take (S i) (Car.bp_requirements demo_record))))
  ∧ non_decreasing (Car.bp_cumulative demo_record).
Proof.
  split; [vm_compute; reflexivity|].
  split; [discriminate|].
  apply (C9_bp_cumulative demo_page 7 demo_record).
  - vm_compute; reflexivity.
  - discriminate.
Defined.

(** ** C7 and C10: one entry per star count *)

Lemma keep_best_lookup m e s :
  keep_best m e !! s
  = if Nat.eqb (star_count e) s then
      match m !! s with
      | None => Some e
      | Some c => if rank c <? rank e then Some e else Some c
      end
    else m !! s.
Proof.
  unfold keep_best, star_count.
  destruct (Nat.eqb_spec (length (label e)) s) as [<-|Hne].
  - destruct (m !! length (label e)) as [c|] eqn:Hc.
    + destruct (rank c <? rank e); [by rewrite lookup_insert_eq|done].
    + by rewrite lookup_insert_eq.
  - destruct (m !! length (label e)) as [c|].
    + destruct (rank c <? rank e); [by rewrite lookup_insert_ne|done].
    + by rewrite lookup_insert_ne.
Qed.

Lemma foldl_keep_best_lookup l m s :
  foldl keep_best m l !! s = best_in s (m !! s) l.
Proof.
  revert m. induction l as [|e l IH]; intros m; simpl; [done|].
  by rewrite IH, keep_best_lookup.
Qed.

Lemma best_of_lookup l s : best_of l !! s = best_in s None l.
Proof. unfold best_of. by rewrite foldl_keep_best_lookup, lookup_empty. Qed.

Lemma best_in_app s cur l1 l2 :
  best_in s cur (l1 ++ l2) = best_in s (best_in s cur l1) l2.
Proof. revert cur. induction l1 as [|e l1 IH]; intros cur; simpl; auto. Qed.

Lemma best_in_origin s cur l b :
  best_in s cur l = Some b → cur = Some b ∨ (b ∈ l ∧ star_count b = s).
Proof.
  revert cur. induction l as [|e l IH]; intros cur; simpl; [by left|].
  intros [H|[H1 H2]]%IH.
  - destruct (Nat.eqb_spec (star_count e) s) as [Hs|]; [|by left].
    destruct cur as [c|].
    + destruct (rank c <? rank e); [|by left].
      injection H as <-. right. split; [apply list_elem_of_here|done].
    + injection H as <-. right. split; [apply list_elem_of_here|done].
  - right. split; [by apply list_elem_of_further|done].
Qed.

Lemma best_in_bound s cur l b :
  best_in s cur l = Some b →
  (∀ c, cur = Some c → rank c ≤ rank b)
  ∧ ∀ e, e ∈ l → star_count e = s → rank e ≤ rank b.
Proof.
  revert cur. induction l as [|e l IH]; intros cur; simpl.
  - intros ->. split; [intros c [= ->]; lia|]. intros e He. by inversion He.
  - intros [Hcur Hl]%IH. split.
    + intros c ->. destruct (Nat.eqb (star_count e) s); [|by apply Hcur].
      destruct (Z.ltb_spec (rank c) (rank e)).
      * specialize (Hcur e eq_refl). lia.
      * by apply Hcur.
    + intros x Hx Hs. apply elem_of_cons in Hx as [->|Hx]; [|by apply Hl].
      rewrite <- Hs, Nat.eqb_refl in Hcur.
      destruct cur as [c|]; [|by apply Hcur].
      destruct (Z.ltb_spec (rank c) (rank e)).
      * by apply Hcur.
      * specialize (Hcur c eq_refl). lia.
Qed.

Lemma best_in_is_Some s cur l :
  is_Some cur ∨ (∃ e, e ∈ l ∧ star_count e = s) → is_Some (best_in s cur l).
Proof.
  revert cur. induction l as [|e l IH]; intros cur; simpl.
  - intros [H|(e & He & _)]; [done|by inversion He].
  - intros H. apply IH.
    destruct (Nat.eqb_spec (star_count e) s) as [Hs|Hs].
    + left. destruct cur as [c|]; [destruct (rank c <? rank e)|]; eauto.
    + destruct H as [H|(x & Hx & Hxs)]; [by left|].
      apply elem_of_cons in Hx as [->|Hx]; [done|]. right. eauto.
Qed.

(** Later entries of the same star count that do not exceed the rank of the
    one held leave it in place: the comparison of line 321 is strict. *)
Lemma best_in_keeps s e l :
  star_count e = s →
  (∀ x, x ∈ l → star_count x = s → rank x ≤ rank e) →
  best_in s (Some e) l = Some e.
Proof.
  intros Hs. induction l as [|x l IH]; intros Hl; simpl; [done|].
  assert (best_in s (Some e) l = Some e) as IH'.
  { apply IH. intros y Hy. apply Hl. by apply list_elem_of_further. }
  destruct (Nat.eqb_spec (star_count x) s) as [Hx|]; [|done].
  specialize (Hl x (list_elem_of_here _ _) Hx).
  destruct (Z.ltb_spec (rank e) (rank x)); [lia|done].
Qed.

Lemma best_in_first_max l1 e l2 :
  (∀ x, x ∈ l1 → star_count x = star_count e → rank x < rank e) →
  (∀ x, x ∈ l2 → star_count x = star_count e → rank x ≤ rank e) →
  best_in (star_count e) None (l1 ++ e :: l2) = Some e.
Proof.
  intros H1 H2. rewrite best_in_app. cbn [best_in].
  rewrite Nat.eqb_refl.
  destruct (best_in (star_count e) None l1) as [c|] eqn:Hc.
  - apply best_in_origin in Hc as [[=]|[Hin Hs]].
    specialize (H1 c Hin Hs).
    destruct (Z.ltb_spec (rank c) (rank e)); [|lia].
    by apply best_in_keeps.
  - by apply best_in_keeps.
Qed.

Lemma full_tier_in_stat_list es max_star has_epic t :
  t ∈ build_stat_list es max_star has_epic → Tier.type t = t_full →
  ∃ b, best_of (List.filter (λ e, bool_decide (kind e = star)) es)
         !! Tier.star t = Some b
       ∧ t = tier_of (Tier.star t) t_full b
       ∧ (1 ≤ Tier.star t ≤ max_star - 1)%nat.
Proof.
  unfold build_stat_list. intros Hin Hty.
  apply elem_of_app in Hin as [Hin|Hin].
  { destruct (first_of_kind stock es); [|by inversion Hin].
    apply list_elem_of_singleton in Hin as ->. done. }
  apply elem_of_app in Hin as [Hin|Hin].
  { apply list_elem_of_omap in Hin as (s & Hs & Hb).
    destruct (best_of _ !! s) as [b|] eqn:Hbest; [|done].
    injection Hb as <-. simpl. exists b. split; [done|]. split; [done|].
    apply list_elem_of_In, in_seq in Hs. lia. }
  apply elem_of_app in Hin as [Hin|Hin].
  { destruct has_epic; [|by inversion Hin].
    destruct (first_of_kind max_wo_epics es); [|by inversion Hin].
    apply list_elem_of_singleton in Hin as ->. done. }
  destruct (first_of_kind gold es); [|by inversion Hin].
  apply list_elem_of_singleton in Hin as ->. done.
Qed.

Lemma best_in_stat_list es max_star has_epic s b :
  best_of (List.filter (λ e, bool_decide (kind e = star)) es) !! s = Some b →
  (1 ≤ s ≤ max_star - 1)%nat →
  tier_of s t_full b ∈ build_stat_list es max_star has_epic.
Proof.
  intros Hb Hs. unfold build_stat_list.
  apply elem_of_app. right. apply elem_of_app. left.
  apply list_elem_of_omap. exists s. split.
  - apply list_elem_of_In, in_seq. lia.
  - by rewrite Hb.
Qed.

(** C7: the aggregator groups the star-kind entries by the length of their
    label; for each star count it holds one of the observed entries, whose
    rank no other observation of that star count exceeds; each observed
    star count from 1 to max_star - 1 has its entry in the stat list; and
    every full entry of the stat list is the held entry of its star, so
    that no observation of lower rank appears in the list. *)
Theorem C7_highest_rank_per_star stat_entries max_star has_epic :
  let star_entries :=
    List.filter (λ e, bool_decide (kind e = star)) stat_entries in
  let stat_list := build_stat_list stat_entries max_star has_epic in
  (∀ e, e ∈ star_entries →
        ∃ b, best_of star_entries !! star_count e = Some b
             ∧ b ∈ star_entries ∧ star_count b = star_count e
             ∧ rank e ≤ rank b
             ∧ ((1 ≤ star_count e ≤ max_star - 1)%nat →
                tier_of (star_count e) t_full b ∈ stat_list))
  ∧ (∀ t, t ∈ stat_list → Tier.type t = t_full →
        ∃ b, best_of star_entries !! Tier.star t = Some b
             ∧ t = tier_of (Tier.star t) t_full b
             ∧ ∀ e, e ∈ star_entries → star_count e = Tier.star t →
                    rank e ≤ Tier.rank t)
  ∧ (∀ t e, t ∈ stat_list → Tier.type t = t_full →
        e ∈ star_entries → star_count e = Tier.star t →
        rank e < Tier.rank t →
        tier_of (star_count e) t_full e ∉ stat_list).
Proof.
  intros star_entries stat_list.
  assert (∀ t, t ∈ stat_list → Tier.type t = t_full →
            ∃ b, best_of star_entries !! Tier.star t = Some b
                 ∧ t = tier_of (Tier.star t) t_full b
                 ∧ ∀ e, e ∈ star_entries → star_count e = Tier.star t →
                        rank e ≤ Tier.rank t) as Hfull.
  { intros t Ht Hty.
    destruct (full_tier_in_stat_list _ _ _ t Ht Hty) as (b & Hb & Heq & _).
    exists b. split; [done|]. split; [done|].
    fold star_entries in Hb. rewrite best_of_lookup in Hb.
    apply best_in_bound in Hb as [_ Hb]. intros e He Hs.
    rewrite Heq. simpl. by apply Hb. }
  split; [|split].
  - intros e He.
    destruct (best_in_is_Some (star_count e) None star_entries) as [b Hb];
      [right; by eauto|].
    exists b. rewrite best_of_lookup.
    pose proof (best_in_origin _ _ _ _ Hb) as [[=]|[Hin Hs]].
    pose proof (best_in_bound _ _ _ _ Hb) as [_ Hmax].
    repeat split; auto.
    intros Hrange. apply best_in_stat_list; [|done].
    by rewrite best_of_lookup.
  - done.
  - intros t e Ht Hty He Hs Hlt Hin.
    destruct (Hfull _ Hin eq_refl) as (b & Hb & Heq & _).
    destruct (Hfull _ Ht Hty) as (b' & Hb' & Heq' & _).
    simpl in Hb. rewrite Hs, Hb' in Hb. injection Hb as ->.
    apply (f_equal Tier.rank) in Heq. simpl in Heq.
    rewrite Heq' in Hlt. simpl in Hlt. lia.
Qed.

Lemma C7_highest_rank_per_star_witness :
  let stat_entries :=
    [star_entry 1 728 1; star_entry 1 700 3; star_entry 2 1031 5] in
  let star_entries :=
    List.filter (λ e, bool_decide (kind e = star)) stat_entries in
  let stat_list := build_stat_list stat_entries 3 false in
  stat_list = [tier_of 1 t_full (star_entry 1 728 1);
               tier_of 2 t_full (star_entry 2 1031 5)]
  ∧ (∀ e, e ∈ star_entries →
        ∃ b, best_of star_entries !! star_count e = Some b
             ∧ b ∈ star_entries ∧ star_count b = star_count e
             ∧ rank e ≤ rank b
             ∧ ((1 ≤ star_count e ≤ 3 - 1)%nat →
                tier_of (star_count e) t_full b ∈ stat_list))
  ∧ (∀ t, t ∈ stat_list → Tier.type t = t_full →
        ∃ b, best_of star_entries !! Tier.star t = Some b
             ∧ t = tier_of (Tier.star t) t_full b
             ∧ ∀ e, e ∈ star_entries → star_count e = Tier.star t →
                    rank e ≤ Tier.rank t)
  ∧ (∀ t e, t ∈ stat_list → Tier.type t = t_full →
        e ∈ star_entries → star_count e = Tier.star t →
        rank e < Tier.rank t →
        tier_of (star_count e) t_full e ∉ stat_list).
Proof.
  split; [vm_compute; reflexivity|].
  exact (C7_highest_rank_per_star
           [star_entry 1 728 1; star_entry 1 700 3; star_entry 2 1031 5]
           3 false).
Defined.

(** C10: of the star-kind entries with one star count, the first that
    reaches the highest rank is the one held: an entry all of whose
    predecessors of the same star count have a strictly lower rank, and none
    of whose successors has a higher one, is held whatever equal-rank
    entries follow it; for a star count of the progression it is the one
    full entry of that star in the stat list. *)
Theorem C10_first_of_equal_rank_is_kept stat_entries max_star has_epic l1 e l2 :
  List.filter (λ x, bool_decide (kind x = star)) stat_entries = l1 ++ e :: l2 →
  (∀ x, x ∈ l1 → star_count x = star_count e → rank x < rank e) →
  (∀ x, x ∈ l2 → star_count x = star_count e → rank x ≤ rank e) →
  best_of (l1 ++ e :: l2) !! star_count e = Some e
  ∧ ((1 ≤ star_count e ≤ max_star - 1)%nat →
     tier_of (star_count e) t_full e
       ∈ build_stat_list stat_entries max_star has_epic)
  ∧ ∀ t, t ∈ build_stat_list stat_entries max_star has_epic →
         Tier.type t = t_full → Tier.star t = star_count e →
         t = tier_of (star_count e) t_full e.
Proof.
  intros Hfilter H1 H2.
  assert (best_of (l1 ++ e :: l2) !! star_count e = Some e) as Hbest.
  { rewrite best_of_lookup. by apply best_in_first_max. }
  split; [done|]. split.
  - intros Hrange. apply best_in_stat_list; [|done]. by rewrite Hfilter.
  - intros t Ht Hty Hs.
    destruct (full_tier_in_stat_list _ _ _ t Ht Hty) as (b & Hb & Heq & _).
    rewrite Hfilter, Hs, Hbest in Hb. injection Hb as <-. by rewrite <- Hs.
Qed.

Lemma C10_first_of_equal_rank_is_kept_witness :
  let stat_entries :=
    [star_entry 1 700 1; star_entry 1 728 3; star_entry 1 728 5;
     star_entry 2 1031 7] in
  List.filter (λ x, bool_decide (kind x = star)) stat_entries
  = [star_entry 1 700 1] ++ star_entry 1 728 3
      :: [star_entry 1 728 5; star_entry 2 1031 7]
  ∧ best_of ([star_entry 1 700 1] ++ star_entry 1 728 3
               :: [star_entry 1 728 5; star_entry 2 1031 7])
      !! star_count (star_entry 1 728 3) = Some (star_entry 1 728 3)
  ∧ ((1 ≤ star_count (star_entry 1 728 3) ≤ 3 - 1)%nat →
     tier_of (star_count (star_entry 1 728 3)) t_full (star_entry 1 728 3)
       ∈ build_stat_list stat_entries 3 false)
  ∧ ∀ t, t ∈ build_stat_list stat_entries 3 false →
         Tier.type t = t_full →
         Tier.star t = star_count (star_entry 1 728 3) →
         t = tier_of (star_count (star_entry 1 728 3)) t_full
               (star_entry 1 728 3).
Proof.
  split; [reflexivity|].
  apply (C10_first_of_equal_rank_is_kept
           [star_entry 1 700 1; star_entry 1 728 3; star_entry 1 728 5;
            star_entry 2 1031 7] 3 false).
  - reflexivity.
  - intros x Hx _. apply list_elem_of_singleton in Hx as ->. vm_compute.
    reflexivity.
  - intros x Hx Hs.
    apply elem_of_cons in Hx as [->|Hx]; [vm_compute; discriminate|].
    apply list_elem_of_singleton in Hx as ->. vm_compute in Hs. discriminate.
Defined.

(** ** C8: the unlock block "5/8/30" then "(43)" *)

Lemma scan_bp_skip pre rest :
  (∀ l, l ∈ pre → is_bp_candidate l = false) →
  scan_bp (pre ++ rest) = scan_bp rest.
Proof.
  induction pre as [|y pre IH]; intros H; [done|].
  cbn [app scan_bp]. rewrite (H y) by apply list_elem_of_here.
  apply IH. intros x Hx. apply H. by apply list_elem_of_further.
Qed.

Lemma remove_char_keeps c x s :
  x ≠ c → contains x s = true → contains x (remove_char c s) = true.
Proof.
  intros Hne. unfold contains, remove_char.
  rewrite !existsb_exists. intros (y & Hy & Hxy).
  apply N.eqb_eq in Hxy as <-.
  exists x. split; [|by apply N.eqb_eq].
  apply filter_In. split; [done|]. by apply negb_true_iff, N.eqb_neq.
Qed.

(** A pattern that begins with a fixed character finds nothing in a string
    without that character. *)
Lemma search_from_needs_first c r w s :
  contains c s = false → search_from (Cat (chr c) r) w s = None.
Proof.
  induction s as [|x s IH]; cbn [search_from mt chr]; [done|].
  unfold contains. simpl. intros [Hx Hs]%orb_false_iff.
  rewrite Hx. by apply IH.
Qed.

Lemma block_first_line l1 :
  remove_char KEY l1 = lit "5/8/30" →
  is_bp_candidate l1 = true
  ∧ bp_requirements_of l1 = Ok (Some [5; 8; 30])
  ∧ re_search re_paren_total l1 = None.
Proof.
  intros Hl1. repeat split.
  - unfold is_bp_candidate. rewrite Hl1. vm_compute. reflexivity.
  - unfold bp_requirements_of. rewrite Hl1. vm_compute. reflexivity.
  - apply search_from_needs_first.
    destruct (contains 0x28%N l1) eqn:Hc; [|done].
    apply (remove_char_keeps KEY) in Hc; [|done].
    rewrite Hl1 in Hc. vm_compute in Hc. discriminate.
Qed.

Lemma block_scan pre l1 l2 post :
  (∀ l, l ∈ pre → is_bp_candidate l = false) →
  remove_char KEY l1 = lit "5/8/30" →
  scan_bp (pre ++ l1 :: l2 :: post)
  = (total ← bp_total_of l1 (Some l2);
     Ok ([5; 8; 30], total, contains KEY l1 || contains KEY l2)).
Proof.
  intros Hpre Hl1. destruct (block_first_line l1 Hl1) as (Hcand & Hreqs & _).
  rewrite scan_bp_skip by done. cbn [scan_bp]. rewrite Hcand.
  unfold extract_bp_from_two_lines. cbn [head].
  rewrite Hreqs. simpl. by destruct (bp_total_of l1 (Some l2)).
Qed.

(** C8: let the unlock block be the first candidate line of the page, and
    let its two lines be "5/8/30" and "(43)" with key glyphs possibly added
    to them. Then bp_requirements is [5, 8, 30]; unlock_method is "key" when
    a key glyph is on either line and "bp" when there is none; and bp_all is
    43 whenever the second line is "(43)" itself. *)
Theorem C8_unlock_block text car_id r pre l1 l2 post :
  parse_mei_page text car_id = Ok r →
  page_lines text = pre ++ l1 :: l2 :: post →
  (∀ l, l ∈ pre → is_bp_candidate l = false) →
  remove_char KEY l1 = lit "5/8/30" →
  remove_char KEY l2 = lit "(43)" →
  Car.bp_requirements r = [5; 8; 30]
  ∧ (l1 = lit "5/8/30" → l2 = lit "(43)" →
     Car.bp_all r = Some 43 ∧ Car.unlock_method r = Some bp)
  ∧ (contains KEY l1 || contains KEY l2 = true →
     Car.unlock_method r = Some key)
  ∧ (l2 = lit "(43)" → Car.bp_all r = Some 43).
Proof.
  intros (reqs & total & uses_key & eps & es & _ & _ & Hbp & _ & _ & _ & _
          & _ & _ & Hreqs & _ & Hall & Hunlock & _)%parse_mei_page_Ok
         Hlines Hpre Hl1 Hl2.
  rewrite Hlines in Hbp.
  rewrite (block_scan pre l1 l2 post Hpre Hl1) in Hbp.
  apply bind_Ok in Hbp as (total' & Htotal & [= <- <- <-]).
  rewrite Hall, Hunlock, Hreqs.
  assert (l2 = lit "(43)" → total' = Some 43) as H43.
  { intros ->. unfold bp_total_of in Htotal.
    destruct (block_first_line l1 Hl1) as (_ & _ & Hnone).
    rewrite Hnone in Htotal. vm_compute in Htotal. congruence. }
  split; [done|]. split; [|split].
  - intros -> ->. split; [by apply H43|]. done.
  - by intros ->.
  - done.
Qed.

Lemma C8_unlock_block_witness :
  ∃ r, parse_mei_page key_page 1 = Ok r
    ∧ page_lines key_page
      = [lit "S"; lit "Car"; stars 2] ++ (KEY :: lit "5/8/30") :: lit "(43)"
          :: [lit "Gold [9]"; lit "1"; lit "2"; lit "3"; lit "4"]
    ∧ remove_char KEY (KEY :: lit "5/8/30") = lit "5/8/30"
    ∧ remove_char KEY (lit "(43)") = lit "(43)"
    ∧ Car.bp_requirements r = [5; 8; 30]
    ∧ (KEY :: lit "5/8/30" = lit "5/8/30" → lit "(43)" = lit "(43)" →
       Car.bp_all r = Some 43 ∧ Car.unlock_method r = Some bp)
    ∧ (contains KEY (KEY :: lit "5/8/30") || contains KEY (lit "(43)") = true →
       Car.unlock_method r = Some key)
    ∧ (lit "(43)" = lit "(43)" → Car.bp_all r = Some 43).
Proof.
  eexists. split; [vm_compute; reflexivity|].
  split; [vm_compute; reflexivity|].
  split; [vm_compute; reflexivity|].
  split; [vm_compute; reflexivity|].
  eapply (C8_unlock_block key_page 1 _ [lit "S"; lit "Car"; stars 2]
            (KEY :: lit "5/8/30") (lit "(43)")
            [lit "Gold [9]"; lit "1"; lit "2"; lit "3"; lit "4"]).
  - vm_compute; reflexivity.
  - vm_compute; reflexivity.
  - intros l Hl.
    repeat (apply elem_of_cons in Hl as [->|Hl]; [vm_compute; reflexivity|]).
    by inversion Hl.
  - vm_compute; reflexivity.
  - vm_compute; reflexivity.
Defined.

(** The shapes of the docstring of [extract_bp_from_two_lines]: a key and a
    slash before the run, a key and a plus sign inside the parentheses. *)
Lemma extract_bp_key_shapes :
  extract_bp_from_two_lines (lit "5/8/30") (Some (lit "(43)"))
  = Ok (Some ([5; 8; 30], Some 43))
  ∧ extract_bp_from_two_lines (KEY :: lit "/5/8/30")
      (Some (lit "(" ++ KEY :: lit " + 43)"))
    = Ok (Some ([5; 8; 30], Some 43))
  ∧ extract_bp_from_two_lines (lit "5/8/30") None
    = Ok (Some ([5; 8; 30], None)).
Proof. repeat split; vm_compute; reflexivity. Qed.

(** * Further properties *)

(** ** [normalize_line] *)

(** A greedy run over a character class, followed by a continuation that
    accepts whatever is left, takes the whole run. *)
Lemma star_cls_greedy {R} w p (k : str → caps → option R) n s g :
  (∀ s' g', is_Some (k s' g')) → (length s < n)%nat →
  star_loop (mt w (Cls p)) k n s g = k (lstrip_by p s) g.
Proof.
  intros Hk. revert n. induction s as [|c t IH]; intros n Hn.
  - destruct n as [|n]; [simpl in Hn; lia|]. done.
  - destruct n as [|n]; [lia|]. cbn [star_loop mt lstrip_by].
    destruct (p c); [|done].
    assert ((length t <? length (c :: t))%nat = true) as ->
      by (apply Nat.ltb_lt; simpl; lia).
    rewrite IH by (simpl in Hn; lia).
    by destruct (Hk (lstrip_by p t) g) as [x ->].
Qed.

Lemma mt_spaces {R} w (k : str → caps → option R) s g :
  (∀ s' g', is_Some (k s' g')) →
  mt w re_spaces s g k
  = match s with
    | c :: t => if is_space c then k (lstrip_by is_space t) g else None
    | [] => None
    end.
Proof.
  intros Hk. unfold re_spaces, plus, space. cbn [mt].
  destruct s as [|c t]; [done|]. destruct (is_space c); [|done].
  apply (star_cls_greedy w); [done|lia].
Qed.

Lemma lstrip_by_length p s : (length (lstrip_by p s) ≤ length s)%nat.
Proof.
  induction s as [|c t IH]; simpl; [lia|]. destruct (p c); simpl; lia.
Qed.

Lemma collapse_spaces_run t :
  collapse_spaces true t = collapse_spaces false (lstrip_by is_space t).
Proof.
  induction t as [|c t IH]; simpl; [done|].
  destruct (is_space c) eqn:Hc; [done|]. simpl. by rewrite Hc.
Qed.

Lemma sub_from_spaces fuel w s :
  (length s < fuel)%nat →
  sub_from fuel re_spaces [SPACE] w s = collapse_spaces false s.
Proof.
  revert s. induction fuel as [|fuel IH]; intros s Hs; [lia|].
  cbn [sub_from]. rewrite mt_spaces by eauto.
  destruct s as [|c t]; [done|]. simpl in Hs. cbn [collapse_spaces].
  destruct (is_space c).
  - pose proof (lstrip_by_length is_space t) as Hlen.
    assert ((length (lstrip_by is_space t) <? length (c :: t))%nat = true) as ->
      by (apply Nat.ltb_lt; simpl; lia).
    rewrite IH by lia. simpl. by rewrite collapse_spaces_run.
  - by rewrite IH by lia.
Qed.

(** [normalize_line] without the matcher: white space runs collapsed, ends
    trimmed. *)
Lemma normalize_line_collapse line :
  normalize_line line
  = strip (collapse_spaces false
             (map (λ c, if (c =? NBSP)%N then SPACE else c) line)).
Proof.
  unfold normalize_line, re_sub. by rewrite sub_from_spaces by lia.
Qed.

Lemma collapse_spaces_shape b s :
  single_spaced (collapse_spaces b s) = true
  ∧ (b = true → head_is is_space (collapse_spaces b s) = false).
Proof.
  revert b. induction s as [|c t IH]; intros b; [by destruct b|].
  cbn [collapse_spaces]. destruct (is_space c) eqn:Hc.
  - destruct b; [apply IH|].
    destruct (IH true) as [Hss Hhead]. specialize (Hhead eq_refl).
    split; [|done]. cbn [single_spaced]. rewrite Hss, N.eqb_refl.
    destruct (collapse_spaces true t) as [|d u]; [done|].
    simpl in Hhead. by rewrite Hhead.
  - destruct (IH false) as [Hss _]. split.
    + cbn [single_spaced]. by rewrite Hc, Hss.
    + intros _. simpl. exact Hc.
Qed.

Lemma lstrip_by_split p s :
  ∃ a, s = a ++ lstrip_by p s ∧ Forall (λ c, p c = true) a.
Proof.
  induction s as [|c t (a & IH & Ha)]; [by exists []|].
  simpl. destruct (p c) eqn:Hc.
  - exists (c :: a). split; [by rewrite IH at 1|]. by constructor.
  - by exists [].
Qed.

Lemma lstrip_by_head_is p s : head_is p (lstrip_by p s) = false.
Proof.
  induction s as [|c t IH]; [done|]. simpl.
  destruct (p c) eqn:Hc; [done|]. simpl. exact Hc.
Qed.

(** [strip_by p s] is what is left of [s] between a prefix and a suffix of
    characters in [p]; it neither begins nor ends with one. *)
Lemma strip_by_split p s :
  ∃ a b, s = a ++ strip_by p s ++ b
         ∧ Forall (λ c, p c = true) a ∧ Forall (λ c, p c = true) b
         ∧ head_is p (strip_by p s) = false
         ∧ head_is p (rev (strip_by p s)) = false.
Proof.
  unfold strip_by.
  destruct (lstrip_by_split p s) as (a & Hs & Ha).
  destruct (lstrip_by_split p (rev (lstrip_by p s))) as (b & Hm & Hb).
  set (m := lstrip_by p s) in *.
  set (u := lstrip_by p (rev m)) in *.
  assert (m = rev u ++ rev b) as Hm'.
  { rewrite <- rev_app_distr, <- Hm. by rewrite rev_involutive. }
  exists a, (rev b). repeat split.
  - by rewrite <- Hm'.
  - done.
  - by apply Forall_rev.
  - pose proof (lstrip_by_head_is p s) as Hhead. fold m in Hhead.
    rewrite Hm' in Hhead. by destruct (rev u).
  - rewrite rev_involutive. apply lstrip_by_head_is.
Qed.

Lemma strip_by_id p s :
  head_is p s = false → head_is p (rev s) = false → strip_by p s = s.
Proof.
  intros Hh Hl. unfold strip_by.
  assert (∀ t, head_is p t = false → lstrip_by p t = t) as Hid.
  { intros [|c t] H; [done|]. simpl in *. by rewrite H. }
  by rewrite (Hid s Hh), (Hid _ Hl), rev_involutive.
Qed.

Lemma single_spaced_suffix a m :
  single_spaced (a ++ m) = true → single_spaced m = true.
Proof.
  induction a as [|c a IH]; [done|].
  cbn [app single_spaced]. intros [_ H]%andb_true_iff. by apply IH.
Qed.

Lemma single_spaced_prefix m b :
  single_spaced (m ++ b) = true → single_spaced m = true.
Proof.
  induction m as [|c t IH]; [done|].
  cbn [app single_spaced]. intros [Hc H]%andb_true_iff.
  rewrite (IH H), andb_true_r.
  destruct (negb (is_space c)); [done|]. simpl in *.
  destruct (c =? SPACE)%N; [|done]. simpl in *.
  destruct t as [|d t']; [done|]. exact Hc.
Qed.

Lemma normalize_line_normalized line : normalized (normalize_line line).
Proof.
  rewrite normalize_line_collapse. unfold strip.
  set (s := collapse_spaces false _).
  destruct (strip_by_split is_space s) as (a & b & Hs & _ & _ & Hh & Hl).
  split; [|done].
  apply (single_spaced_prefix _ b), (single_spaced_suffix a).
  rewrite <- Hs. apply collapse_spaces_shape.
Qed.

Lemma single_spaced_spaces s :
  single_spaced s = true → Forall (λ c, is_space c = true → c = SPACE) s.
Proof.
  induction s as [|c t IH]; [constructor|].
  cbn [single_spaced]. intros [Hc H]%andb_true_iff. constructor; [|by apply IH].
  intros Hsp. rewrite Hsp in Hc. simpl in Hc.
  apply andb_true_iff in Hc as [Hc _]. by apply N.eqb_eq in Hc.
Qed.

Lemma collapse_spaces_id s :
  single_spaced s = true → collapse_spaces false s = s.
Proof.
  induction s as [|c t IH]; [done|].
  cbn [single_spaced collapse_spaces]. intros [Hc H]%andb_true_iff.
  specialize (IH H). destruct (is_space c) eqn:Hsp.
  - simpl in Hc. apply andb_true_iff in Hc as [->%N.eqb_eq Hnext].
    f_equal. destruct t as [|d t']; [done|].
    apply negb_true_iff in Hnext. cbn [collapse_spaces] in *.
    by rewrite Hnext in *.
  - by rewrite IH.
Qed.

Lemma normalized_fixed s : normalized s → normalize_line s = s.
Proof.
  intros (Hss & Hh & Hl). rewrite normalize_line_collapse.
  assert (map (λ c, if (c =? NBSP)%N then SPACE else c) s = s) as ->.
  { apply single_spaced_spaces in Hss. clear Hh Hl.
    induction Hss as [|c t Hc _ IH]; [done|]. simpl. rewrite IH. f_equal.
    destruct (N.eqb_spec c NBSP) as [->|]; [|done].
    by specialize (Hc eq_refl). }
  rewrite collapse_spaces_id by done. by apply strip_by_id.
Qed.

Lemma single_spaced_adjacent s i c d :
  single_spaced s = true → s !! i = Some c → s !! S i = Some d →
  is_space c = true → is_space d = false.
Proof.
  revert i. induction s as [|x t IH]; intros i Hss Hc Hd Hsp; [done|].
  cbn [single_spaced] in Hss. apply andb_true_iff in Hss as [Hx Hss].
  destruct i as [|i]; [|by eapply IH].
  simpl in Hc. injection Hc as ->. rewrite Hsp in Hx. simpl in Hx.
  apply andb_true_iff in Hx as [_ Hx].
  destruct t as [|y t']; [done|]. simpl in Hd. injection Hd as ->.
  by apply negb_true_iff.
Qed.

(** X1: a normalised line has no white space other than the space
    character, no white space after a space, and no white space at either
    end. *)
Theorem normalize_line_shape line :
  let n := normalize_line line in
  Forall (λ c, is_space c = true → c = SPACE) n
  ∧ (∀ i c d, n !! i = Some c → n !! S i = Some d →
              is_space c = true → is_space d = false)
  ∧ (∀ c, head n = Some c → is_space c = false)
  ∧ (∀ c, last n = Some c → is_space c = false).
Proof.
  cbv zeta. destruct (normalize_line_normalized line) as (Hss & Hh & Hl).
  split; [by apply single_spaced_spaces|].
  split; [|split].
  - intros i c d. by apply single_spaced_adjacent.
  - intros c Hc. destruct (normalize_line line) as [|x t]; [done|].
    simpl in Hc, Hh. congruence.
  - intros c Hc. apply last_Some in Hc as [l' Hn].
    rewrite Hn, rev_unit in Hl. exact Hl.
Qed.

(** X2: normalising a normalised line changes nothing. *)
Theorem normalize_line_idempotent line :
  normalize_line (normalize_line line) = normalize_line line.
Proof. apply normalized_fixed, normalize_line_normalized. Qed.

Lemma filter_all_space a :
  Forall (λ c, is_space c = true) a →
  List.filter (λ c, negb (is_space c)) a = [].
Proof.
  induction 1 as [|c a Hc _ IH]; [done|]. simpl. by rewrite Hc.
Qed.

Lemma filter_collapse_spaces b s :
  List.filter (λ c, negb (is_space c)) (collapse_spaces b s)
  = List.filter (λ c, negb (is_space c)) s.
Proof.
  revert b. induction s as [|c t IH]; intros b; [done|].
  cbn [collapse_spaces]. simpl. destruct (is_space c) eqn:Hc; simpl.
  - destruct b; simpl; by rewrite IH.
  - by rewrite Hc, IH.
Qed.

Lemma filter_normalize_line line :
  List.filter (λ c, negb (is_space c)) (normalize_line line)
  = List.filter (λ c, negb (is_space c)) line.
Proof.
  rewrite normalize_line_collapse. unfold strip.
  set (s := collapse_spaces false _).
  destruct (strip_by_split is_space s) as (a & b & Hs & Ha & Hb & _).
  transitivity (List.filter (λ c, negb (is_space c)) s).
  - rewrite Hs at 2. rewrite !List.filter_app.
    by rewrite (filter_all_space a), (filter_all_space b), app_nil_r.
  - unfold s. rewrite filter_collapse_spaces. clear.
    induction line as [|c t IH]; [done|]. cbn [map List.filter].
    destruct (N.eqb_spec c NBSP) as [->|]; [|by rewrite IH].
    change (negb (is_space SPACE)) with false.
    change (negb (is_space NBSP)) with false. exact IH.
Qed.

(** X3: normalising a line touches white space only: the other characters
    are kept, in their order. *)
Theorem normalize_line_keeps_text line :
  List.filter (λ c, negb (is_space c)) (normalize_line line)
  = List.filter (λ c, negb (is_space c)) line.
Proof. exact (filter_normalize_line line). Qed.

(** X4: a line normalises to the empty string exactly when it holds white
    space only; these are the lines that [parse_mei_page] drops. *)
Theorem normalize_line_empty line :
  normalize_line line = [] ↔ Forall (λ c, is_space c = true) line.
Proof.
  split.
  - intros Hn. pose proof (filter_normalize_line line) as Hkeep.
    rewrite Hn in Hkeep. simpl in Hkeep.
    apply Forall_forall. intros c Hc.
    destruct (is_space c) eqn:Hsp; [done|].
    assert (In c (List.filter (λ c, negb (is_space c)) line)) as Hin.
    { apply filter_In. split; [by apply list_elem_of_In|]. by rewrite Hsp. }
    by rewrite <- Hkeep in Hin.
  - intros Hall. pose proof (filter_normalize_line line) as Hkeep.
    rewrite (filter_all_space line Hall) in Hkeep.
    destruct (normalize_line_normalized line) as (_ & Hh & _).
    destruct (normalize_line line) as [|c t]; [done|].
    simpl in Hh, Hkeep. by rewrite Hh in Hkeep.
Qed.

Lemma linebreak_is_space c :
  is_linebreak c = true → is_space c = true ∧ c ≠ SPACE.
Proof.
  unfold is_linebreak, is_space, SPACE.
  rewrite !orb_true_iff, !andb_true_iff, !N.leb_le, !N.eqb_eq. lia.
Qed.

Lemma page_line_origin text l :
  l ∈ page_lines text → l ≠ [] ∧ ∃ raw, l = normalize_line raw.
Proof.
  unfold page_lines. intros Hl.
  apply list_elem_of_In, filter_In in Hl as [Hin Hne].
  apply in_map_iff in Hin as (raw & <- & _).
  split; [|by exists raw].
  unfold str_eqb in Hne. apply negb_true_iff in Hne.
  by apply bool_decide_eq_false in Hne.
Qed.

Lemma page_line_fixed text l : l ∈ page_lines text → normalize_line l = l.
Proof.
  intros (_ & raw & ->)%page_line_origin.
  apply normalized_fixed, normalize_line_normalized.
Qed.

(** X5: every line that [parse_mei_page] works on is non-empty, is its own
    normal form, and holds no line boundary of [str.splitlines]. *)
Theorem page_lines_normalized text l :
  l ∈ page_lines text →
  l ≠ [] ∧ normalize_line l = l ∧ Forall (λ c, is_linebreak c = false) l.
Proof.
  intros Hl. split; [by apply (page_line_origin text)|].
  split; [by apply (page_line_fixed text)|].
  apply page_line_origin in Hl as (_ & raw & ->).
  destruct (normalize_line_normalized raw) as (Hss & _).
  apply single_spaced_spaces in Hss.
  eapply Forall_impl; [exact Hss|]. intros c Hc. simpl in Hc.
  destruct (is_linebreak c) eqn:Hlb; [|done].
  apply linebreak_is_space in Hlb as [Hs Hne']. by apply Hc in Hs.
Qed.

Lemma page_lines_normalized_witness :
  lit "Lamborghini Revuelto" ∈ page_lines demo_page
  ∧ lit "Lamborghini Revuelto" ≠ []
  ∧ normalize_line (lit "Lamborghini Revuelto") = lit "Lamborghini Revuelto"
  ∧ Forall (λ c, is_linebreak c = false) (lit "Lamborghini Revuelto").
Proof.
  assert (lit "Lamborghini Revuelto" ∈ page_lines demo_page) as Hin.
  { vm_compute. apply list_elem_of_further, list_elem_of_here. }
  split; [exact Hin|].
  exact (page_lines_normalized demo_page (lit "Lamborghini Revuelto") Hin).
Defined.

(** ** The matcher is complete for patterns without anchors *)

Section MatcherComplete.
Context {R : Type} (w : str).

Lemma star_loop_complete a
  (m : str → caps → (str → caps → option R) → option R) :
  (∀ pre, matches a pre → ∀ s' g k,
      (∀ g', is_Some (k s' g')) → is_Some (m (pre ++ s') g k)) →
  ∀ pre, matches (Star a) pre → ∀ n s' g k,
    (length pre < n)%nat → (∀ g', is_Some (k s' g')) →
    is_Some (star_loop m k n (pre ++ s') g).
Proof.
  intros Hm pre Hpre. remember (Star a) as r eqn:Hr.
  induction Hpre as [| | | | | |a' s1 s2 H1 _ H2 IH| | |];
    try discriminate; injection Hr as ->; intros n s' g k Hn Hk.
  - destruct n as [|n]; [lia|]. cbn [star_loop app].
    destruct (m s' g _); [done|apply Hk].
  - destruct s1 as [|c s1]; [by apply IH|].
    destruct n as [|n]; [lia|]. cbn [star_loop].
    rewrite <- app_assoc.
    edestruct (Hm (c :: s1) H1 (s2 ++ s') g) as [x ->]; [|done].
    intros g'. cbv beta.
    assert ((length (s2 ++ s') <? length ((c :: s1) ++ s2 ++ s'))%nat = true)
      as -> by (apply Nat.ltb_lt; simpl; rewrite !length_app; lia).
    apply IH; [done| |done]. simpl in Hn. rewrite length_app in Hn. lia.
Qed.

Lemma mt_complete r :
  plain r = true →
  ∀ pre, matches r pre → ∀ s' g (k : str → caps → option R),
    (∀ g', is_Some (k s' g')) → is_Some (mt w r (pre ++ s') g k).
Proof.
  induction r as [|p|a IHa b IHb|a IHa b IHb|a IHa|j a IHa| |];
    intros Hplain pre Hpre s' g k Hk; cbn [mt plain] in *.
  - inversion Hpre; subst. apply Hk.
  - inversion Hpre as [|? c Hc| | | | | | | |]; subst. simpl. rewrite Hc. apply Hk.
  - apply andb_true_iff in Hplain as [Ha Hb].
    inversion Hpre as [| |? ? s1 s2 H1 H2| | | | | | |]; subst.
    rewrite <- app_assoc. apply IHa; [done..|].
    intros g'. by apply IHb.
  - apply andb_true_iff in Hplain as [Ha Hb].
    inversion Hpre as [| | |? ? ? H1|? ? ? H2| | | | |]; subst.
    + destruct (IHa Ha pre H1 s' g k Hk) as [x ->]. done.
    + destruct (mt w a (pre ++ s') g k); [done|]. by apply IHb.
  - apply (star_loop_complete a); [by apply IHa|done| |done].
    rewrite length_app. lia.
  - inversion Hpre; subst. apply IHa; [done..|]. intros g'. apply Hk.
  - done.
  - done.
Qed.
End MatcherComplete.

(** On a pattern without anchors [re.fullmatch] succeeds exactly on the
    strings the pattern accepts. *)
Lemma re_fullmatch_iff r s :
  plain r = true → matched (re_fullmatch r s) = true ↔ matches r s.
Proof.
  intros Hplain. split.
  - destruct (re_fullmatch r s) as [g|] eqn:Hm; [|done].
    intros _. by eapply re_fullmatch_sound.
  - intros Hs. unfold re_fullmatch.
    destruct (mt_complete s r Hplain s Hs [] []
                (λ s' g, match s' with [] => Some g | _ => None end))
      as [x Hx]; [by eauto|].
    rewrite app_nil_r in Hx. by rewrite Hx.
Qed.

Lemma re_fullmatch_not r s :
  plain r = true → ¬ matches r s → matched (re_fullmatch r s) = false.
Proof.
  intros Hplain Hs. destruct (matched _) eqn:Hm; [|done].
  by apply re_fullmatch_iff in Hm.
Qed.

(** ** [parse_number] on digits, and on two runs of digits around a
    separator *)

Lemma M_cat' a b s s1 s2 :
  s = s1 ++ s2 → matches a s1 → matches b s2 → matches (Cat a b) s.
Proof. intros ->. apply M_cat. Qed.

Lemma matches_star_of_cls p v :
  Forall (λ c, p c = true) v → matches (Star (Cls p)) v.
Proof.
  induction 1 as [|c v Hc _ IH]; [constructor|].
  apply (M_star_cons _ [c] v); [by constructor|done].
Qed.

Lemma digit_run_matches v : digit_run v → matches (plus digit) v.
Proof.
  intros [Hne Hv]. destruct v as [|c t]; [done|].
  inversion Hv; subst.
  apply (M_cat' _ _ _ [c] t); [done|by constructor|].
  by apply matches_star_of_cls.
Qed.

Lemma digit_run_app a b : digit_run a → digit_run b → digit_run (a ++ b).
Proof.
  intros [Ha Hda] [Hb Hdb]. split; [by destruct a|]. by apply Forall_app.
Qed.

Lemma digit_run_rev v : digit_run v → digit_run (rev v).
Proof.
  intros [Hne Hv]. split; [|by apply Forall_rev].
  intros Hr. apply (f_equal (@length _)) in Hr. rewrite length_rev in Hr.
  by destruct v.
Qed.

Lemma digit_run_head v : digit_run v → head_is is_space v = false.
Proof.
  intros [Hne Hv]. destruct v as [|c t]; [done|].
  inversion Hv; subst. by apply digit_not_space.
Qed.

Lemma digit_run_no_char c v :
  is_digit c = false → digit_run v → contains c v = false.
Proof.
  intros Hc [_ Hv]. unfold contains.
  induction Hv as [|x v Hx _ IH]; [done|]. simpl. rewrite IH, orb_false_r.
  rewrite N.eqb_sym. by apply digit_is_not.
Qed.

Lemma contains_app c a b : contains c (a ++ b) = contains c a || contains c b.
Proof. apply existsb_app. Qed.

Lemma int_digits_value t acc :
  Forall (λ c, is_digit c = true) t → int_digits acc t = digits_value acc t.
Proof.
  intros Ht. revert acc. induction Ht as [|c t Hc _ IH]; intros acc; [done|].
  simpl. rewrite (digit_is_not c 0x5F%N) by done.
  destruct (digit_value c); [apply IH|done].
Qed.

(** The literal of a run of digits denotes its decimal value. *)
Lemma int_literal_value v :
  digit_run v →
  ∃ n, digits_value 0 v = Some n ∧ 0 ≤ n ∧ int_literal v = Some n.
Proof.
  intros Hv. destruct (int_literal_digit_run v Hv) as (z & Hz & Hpos).
  exists z. split; [|done].
  unfold int_literal in Hz.
  rewrite (strip_by_digit_run _ v digit_not_int_space Hv) in Hz.
  destruct Hv as [Hne Hv]. destruct v as [|c t]; [done|].
  inversion Hv as [|? ? Hc Ht]; subst.
  rewrite (digit_is_not c 0x2D%N), (digit_is_not c 0x2B%N) in Hz by done.
  unfold int_unsigned in Hz. cbn [digits_value].
  destruct (digit_value c) as [v0|]; [|done].
  rewrite int_digits_value in Hz by done.
  replace (10 * 0 + v0) with v0 by lia.
  destruct (digits_value v0 t); by simplify_eq.
Qed.

(** [int] of a run of digits within the limit is its decimal value. *)
Lemma py_int_value v :
  digit_run v → short v →
  ∃ n, digits_value 0 v = Some n ∧ 0 ≤ n ∧ py_int v = Ok n.
Proof.
  intros (n & Hn & Hpos & Hlit)%int_literal_value Hshort.
  exists n. split; [done|]. split; [done|]. by apply py_int_short.
Qed.

(** [int] refuses a run of digits beyond the limit. *)
Lemma py_int_long v :
  digit_run v → ¬ short v → py_int v = Raise (InvalidLiteral v).
Proof.
  intros Hv Hlong. unfold py_int.
  destruct (int_literal v); [|done].
  assert (count_digits v = Z.of_nat (length v)) as Hcount.
  { unfold count_digits. f_equal. destruct Hv as [_ Hv]. clear -Hv.
    induction Hv as [|c t Hc _ IH]; [done|]. simpl. rewrite Hc. simpl.
    by rewrite IH. }
  unfold short in Hlong. rewrite Hcount.
  destruct (Z.leb_spec (Z.of_nat (length v)) int_max_str_digits); [lia|done].
Qed.

Lemma split_no_sep sep cur d :
  contains sep d = false → split_from sep cur d = [rev cur ++ d].
Proof.
  revert cur. induction d as [|c d IH]; intros cur; simpl.
  - intros _. by rewrite app_nil_r.
  - intros [Hc Hd]%orb_false_iff. rewrite N.eqb_sym, Hc, IH by done.
    simpl. by rewrite <- app_assoc.
Qed.

Lemma split_pair sep a b :
  contains sep a = false → contains sep b = false →
  split sep (a ++ sep :: b) = [a; b].
Proof.
  intros Ha Hb. unfold split.
  assert (∀ cur, split_from sep cur (a ++ sep :: b) = [rev cur ++ a; b]) as H.
  { induction a as [|c a IH]; intros cur; simpl.
    - rewrite N.eqb_refl, app_nil_r. by rewrite split_no_sep.
    - simpl in Ha. apply orb_false_iff in Ha as [Hc Ha].
      rewrite N.eqb_sym, Hc, IH by done. simpl. by rewrite <- app_assoc. }
  apply H.
Qed.

Lemma strip_pair a x b :
  digit_run a → digit_run b → strip (a ++ x :: b) = a ++ x :: b.
Proof.
  intros Ha Hb. apply strip_by_id.
  - destruct Ha as [Hne Ha]. destruct a as [|c t]; [done|].
    inversion Ha; subst. by apply digit_not_space.
  - rewrite rev_app_distr. simpl. rewrite <- app_assoc.
    pose proof (digit_run_head _ (digit_run_rev b Hb)) as H.
    destruct (digit_run_rev b Hb) as [Hne _].
    by destruct (rev b).
Qed.

Lemma py_float_pair a b n :
  digit_run a → digit_run b → digits_value 0 (a ++ b) = Some n →
  py_float (a ++ 0x2E%N :: b) = Ok (b64_round n (10 ^ Z.of_nat (length b))).
Proof.
  intros Ha Hb Hn. unfold py_float.
  rewrite split_pair by (by apply digit_run_no_char).
  destruct Ha as [Ha _], Hb as [Hb _].
  destruct a as [|c a]; [done|]. destruct b as [|d b]; [done|].
  cbv beta iota. by rewrite Hn.
Qed.

Lemma times3_digit y :
  matches (times 3 digit) y ↔ length y = 3%nat ∧ Forall (λ c, is_digit c = true) y.
Proof.
  split.
  - intros H. simpl in H.
    repeat match goal with
    | H : matches (Cat _ _) _ |- _ => inversion H; clear H; subst
    | H : matches digit _ |- _ => inversion H; clear H; subst
    | H : matches Eps _ |- _ => inversion H; clear H; subst
    end.
    split; [done|]. by repeat constructor.
  - intros [Hlen Hy]. destruct y as [|c1 [|c2 [|c3 [|]]]]; try done.
    apply Forall_cons in Hy as [Hc1 Hy]. apply Forall_cons in Hy as [Hc2 Hy].
    apply Forall_cons in Hy as [Hc3 _].
    apply (M_cat' _ _ _ [c1] [c2; c3]); [done|by constructor|].
    apply (M_cat' _ _ _ [c2] [c3]); [done|by constructor|].
    apply (M_cat' _ _ _ [c3] []); [done|by constructor|constructor].
Qed.

Lemma upto3_digit x :
  matches (Cat digit (upto 2 digit)) x
  ↔ (1 ≤ length x ≤ 3)%nat ∧ Forall (λ c, is_digit c = true) x.
Proof.
  split.
  - intros H. simpl in H.
    repeat match goal with
    | H : matches (Cat _ _) _ |- _ => inversion H; clear H; subst
    | H : matches (opt _) _ |- _ => inversion H; clear H; subst
    | H : matches digit _ |- _ => inversion H; clear H; subst
    | H : matches Eps _ |- _ => inversion H; clear H; subst
    end; (split; [simpl; lia|by repeat constructor]).
  - intros [Hlen Hx]. destruct x as [|c1 t]; [simpl in Hlen; lia|].
    apply Forall_cons in Hx as [Hc1 Ht].
    apply (M_cat' _ _ _ [c1] t); [done|by constructor|].
    destruct t as [|c2 t]; [apply M_alt_r; constructor|].
    apply Forall_cons in Ht as [Hc2 Ht].
    apply M_alt_l, (M_cat' _ _ _ [c2] t); [done|by constructor|].
    destruct t as [|c3 t]; [apply M_alt_r; constructor|].
    apply Forall_cons in Ht as [Hc3 _].
    destruct t; [|simpl in Hlen; lia].
    apply M_alt_l, (M_cat' _ _ _ [c3] []); [done|by constructor|constructor].
Qed.

Lemma first_sep_unique sep a r1 x r2 :
  a ++ sep :: r1 = x ++ sep :: r2 →
  contains sep a = false → contains sep x = false → a = x ∧ r1 = r2.
Proof.
  revert x. induction a as [|c a IH]; intros [|d x] Heq Ha Hx; simpl in *.
  - by injection Heq as ->.
  - injection Heq as <- _. by rewrite N.eqb_refl in Hx.
  - injection Heq as -> _. by rewrite N.eqb_refl in Ha.
  - injection Heq as -> Heq.
    apply orb_false_iff in Ha as [_ Ha]. apply orb_false_iff in Hx as [_ Hx].
    by destruct (IH x Heq Ha Hx) as [-> ->].
Qed.

Lemma forall_digit_no_char c v :
  is_digit c = false → Forall (λ x, is_digit x = true) v → contains c v = false.
Proof.
  intros Hc Hv. unfold contains.
  induction Hv as [|x v Hx _ IH]; [done|]. simpl. rewrite IH, orb_false_r.
  rewrite N.eqb_sym. by apply digit_is_not.
Qed.

Lemma dot_groups_split s :
  matches re_dot_groups s →
  ∃ x y z, s = x ++ 0x2E%N :: y ++ z
    ∧ (1 ≤ length x ≤ 3)%nat ∧ Forall (λ c, is_digit c = true) x
    ∧ length y = 3%nat ∧ Forall (λ c, is_digit c = true) y
    ∧ matches (Star (Cat (chr 0x2E%N) (times 3 digit))) z.
Proof.
  intros H. unfold re_dot_groups, plus in H.
  inversion H as [| |? ? x rest Hx Hrest| | | | | | |]; subst.
  inversion Hrest as [| |? ? g z Hg Hz| | | | | | |]; subst.
  inversion Hg as [| |? ? dot y Hdot Hy| | | | | | |]; subst.
  inversion Hdot as [|? c Hc| | | | | | | |]; subst.
  apply N.eqb_eq in Hc as <-.
  apply upto3_digit in Hx as [Hxlen Hxd].
  apply times3_digit in Hy as [Hylen Hyd].
  exists x, y, z. destruct Hxlen. repeat split; done.
Qed.

(** The thousands pattern of rule 1 accepts two runs of digits around a dot
    exactly when the first has at most three digits and the second has
    three. *)
Lemma dot_groups_pair a b :
  digit_run a → digit_run b →
  matches re_dot_groups (a ++ 0x2E%N :: b)
  ↔ (length a ≤ 3)%nat ∧ length b = 3%nat.
Proof.
  intros Ha Hb. split.
  - intros (x & y & z & Heq & Hxlen & Hxd & Hylen & Hyd & Hz)%dot_groups_split.
    apply first_sep_unique in Heq as [-> ->];
      [|by apply digit_run_no_char|by apply forall_digit_no_char].
    split; [exact (proj2 Hxlen)|].
    assert (z = []) as ->.
    { inversion Hz as [| | | | |?|? s1 s2 H1 H2| | |]; subst; [done|].
      inversion H1 as [| |? ? d1 d2 Hd1 Hd2| | | | | | |]; subst.
      inversion Hd1 as [|? c Hc| | | | | | | |]; subst.
      apply N.eqb_eq in Hc as <-.
      pose proof (digit_run_no_char 0x2E%N _ eq_refl Hb) as Hno.
      rewrite !contains_app in Hno. simpl in Hno.
      by rewrite !orb_true_r in Hno. }
    by rewrite app_nil_r.
  - intros [Hla Hlb]. destruct Ha as [Hne Ha], Hb as [_ Hb].
    apply (M_cat' _ _ _ a (0x2E%N :: b)); [done| |].
    + apply upto3_digit. split; [|done]. destruct a; [done|simpl in *; lia].
    + apply (M_cat' _ _ _ (0x2E%N :: b) []); [by rewrite app_nil_r| |constructor].
      apply (M_cat' _ _ _ [0x2E%N] b); [done|by constructor|].
      by apply times3_digit.
Qed.

Lemma dot_groups_has_dot s :
  matches re_dot_groups s → contains 0x2E%N s = true.
Proof.
  intros (x & y & z & -> & _)%dot_groups_split.
  rewrite contains_app. simpl. by rewrite orb_true_r.
Qed.

Lemma decimal_has_dot s : matches re_decimal s → contains 0x2E%N s = true.
Proof.
  intros H. unfold re_decimal in H.
  inversion H as [| |? ? x rest Hx Hrest Heq| | | | | | |]; subst.
  inversion Hrest as [| |? ? dot y Hdot Hy Heq'| | | | | | |]; subst.
  inversion Hdot as [|? c Hc| | | | | | | |]; subst.
  apply N.eqb_eq in Hc as <-.
  rewrite !contains_app. simpl. by rewrite !orb_true_r.
Qed.

Lemma no_dot_not_dot_groups s :
  contains 0x2E%N s = false → matched (re_fullmatch re_dot_groups s) = false.
Proof.
  intros Hs. apply re_fullmatch_not; [done|].
  intros H%dot_groups_has_dot. congruence.
Qed.

Lemma fullmatch_digits v : digit_run v → matched (re_fullmatch re_digits v) = true.
Proof. intros Hv. apply re_fullmatch_iff; [done|]. by apply digit_run_matches. Qed.

Lemma no_dot_not_decimal s :
  contains 0x2E%N s = false → matched (re_fullmatch re_decimal s) = false.
Proof.
  intros Hs. apply re_fullmatch_not; [done|].
  intros H%decimal_has_dot. congruence.
Qed.

Lemma remove_char_absent c v : contains c v = false → remove_char c v = v.
Proof.
  unfold contains, remove_char. induction v as [|x v IH]; [done|]. simpl.
  intros [Hx Hv]%orb_false_iff. rewrite N.eqb_sym, Hx. simpl. by rewrite IH.
Qed.

(** X6: a non-empty run of decimal digits is read as the integer it
    spells when it has at most 4300 digits, and makes [int] raise its
    ValueError when it has more. *)
Theorem parse_number_digits v :
  digit_run v →
  ∃ n, digits_value 0 v = Some n ∧ 0 ≤ n
       ∧ (short v → parse_number v = Ok (PInt n))
       ∧ (¬ short v → parse_number v = Raise (InvalidLiteral v)).
Proof.
  intros Hv. destruct (int_literal_value v Hv) as (n & Hn & Hpos & Hlit).
  exists n. split; [done|]. split; [done|].
  assert (parse_number v = PInt <$> py_int v) as ->.
  { unfold parse_number, strip.
    rewrite (strip_by_digit_run _ v digit_not_space Hv).
    rewrite no_dot_not_dot_groups by (by apply digit_run_no_char).
    rewrite (digit_run_no_char 0x2C%N) by done. cbn [andb].
    unfold parse_number_plain.
    rewrite no_dot_not_decimal by (by apply digit_run_no_char).
    by rewrite fullmatch_digits. }
  split.
  - intros Hshort. by rewrite (py_int_short v n).
  - intros Hlong. by rewrite py_int_long.
Qed.

Lemma parse_number_digits_witness :
  digit_run (lit "307")
  ∧ ∃ n, digits_value 0 (lit "307") = Some n ∧ 0 ≤ n
         ∧ (short (lit "307") → parse_number (lit "307") = Ok (PInt n))
         ∧ (¬ short (lit "307")
            → parse_number (lit "307") = Raise (InvalidLiteral (lit "307"))).
Proof.
  assert (digit_run (lit "307")) as H.
  { split; [discriminate|]. repeat constructor. }
  split; [exact H|]. exact (parse_number_digits (lit "307") H).
Defined.

(** X7: two runs of digits around a comma: the comma separates thousands
    when exactly three digits follow it, and is a decimal point otherwise;
    [n] is the value of the digits taken together.  The integer is
    returned when the digits are at most 4300, the most that [int]
    converts. *)
Theorem parse_number_comma_pair a b :
  digit_run a → digit_run b →
  (length b = 3%nat → short (a ++ b)) →
  ∃ n, digits_value 0 (a ++ b) = Some n
    ∧ parse_number (a ++ 0x2C%N :: b)
      = Ok (if (length b =? 3)%nat then PInt n
            else PFloat (b64_round n (10 ^ Z.of_nat (length b)))).
Proof.
  intros Ha Hb Hshort.
  destruct (int_literal_value (a ++ b) (digit_run_app a b Ha Hb))
    as (n & Hn & _ & Hlit).
  exists n. split; [done|].
  unfold parse_number. rewrite strip_pair by done. unfold str, char in *.
  assert (contains 0x2E%N (a ++ 0x2C%N :: b) = false) as Hdot.
  { rewrite contains_app. simpl.
    by rewrite !(digit_run_no_char 0x2E%N) by done. }
  assert (contains 0x2C%N (a ++ 0x2C%N :: b) = true) as Hcomma.
  { rewrite contains_app. simpl. by rewrite orb_true_r. }
  rewrite no_dot_not_dot_groups, Hcomma, Hdot by done. cbn [andb negb].
  assert (matched (re_fullmatch re_comma_pair (a ++ 0x2C%N :: b)) = true) as ->.
  { apply re_fullmatch_iff; [done|].
    apply (M_cat' _ _ _ a (0x2C%N :: b)); [done|by apply digit_run_matches|].
    apply (M_cat' _ _ _ [0x2C%N] b); [done|by constructor|].
    by apply digit_run_matches. }
  rewrite split_pair by (by apply digit_run_no_char).
  destruct (Nat.eqb_spec (length b) 3) as [Hlen|Hlen].
  - by rewrite (py_int_short _ n Hlit (Hshort Hlen)).
  - cbn [app]. by rewrite (py_float_pair _ _ n).
Qed.

Lemma parse_number_comma_pair_witness :
  digit_run (lit "68") ∧ digit_run (lit "200")
  ∧ (length (lit "200") = 3%nat → short (lit "68" ++ lit "200"))
  ∧ ∃ n, digits_value 0 (lit "68" ++ lit "200") = Some n
    ∧ parse_number (lit "68" ++ 0x2C%N :: lit "200")
      = Ok (if (length (lit "200") =? 3)%nat then PInt n
            else PFloat (b64_round n (10 ^ Z.of_nat (length (lit "200"))))).
Proof.
  assert (digit_run (lit "68")) as Ha.
  { split; [discriminate|]. repeat constructor. }
  assert (digit_run (lit "200")) as Hb.
  { split; [discriminate|]. repeat constructor. }
  assert (length (lit "200") = 3%nat → short (lit "68" ++ lit "200")) as Hs.
  { intros _. by vm_compute. }
  split; [exact Ha|]. split; [exact Hb|]. split; [exact Hs|].
  exact (parse_number_comma_pair (lit "68") (lit "200") Ha Hb Hs).
Defined.

(** X8: two runs of digits around a dot: the dot separates thousands when
    at most three digits stand before it and exactly three after it, and is
    a decimal point otherwise. *)
Theorem parse_number_dot_pair a b :
  digit_run a → digit_run b →
  ∃ n, digits_value 0 (a ++ b) = Some n
    ∧ parse_number (a ++ 0x2E%N :: b)
      = Ok (if (length a <=? 3)%nat && (length b =? 3)%nat then PInt n
            else PFloat (b64_round n (10 ^ Z.of_nat (length b)))).
Proof.
  intros Ha Hb.
  destruct (int_literal_value (a ++ b) (digit_run_app a b Ha Hb))
    as (n & Hn & _ & Hlit).
  exists n. split; [done|].
  unfold parse_number. rewrite strip_pair by done. unfold str, char in *.
  destruct ((length a <=? 3)%nat && (length b =? 3)%nat) eqn:Hshape.
  - apply andb_true_iff in Hshape as [Hla%Nat.leb_le Hlb%Nat.eqb_eq].
    assert (matched (re_fullmatch re_dot_groups (a ++ 0x2E%N :: b)) = true) as ->.
    { apply re_fullmatch_iff; [done|]. by apply dot_groups_pair. }
    unfold remove_char. rewrite List.filter_app. cbn [List.filter].
    change (negb (0x2E =? 0x2E)%N) with false. cbv iota.
    fold (remove_char 0x2E%N a). fold (remove_char 0x2E%N b).
    rewrite !remove_char_absent by (by apply digit_run_no_char).
    rewrite (py_int_short _ n Hlit); [done|].
    unfold short, int_max_str_digits. rewrite length_app. lia.
  - assert (matched (re_fullmatch re_dot_groups (a ++ 0x2E%N :: b)) = false) as ->.
    { apply re_fullmatch_not; [done|].
      intros [Hla Hlb]%dot_groups_pair; [|done..]. unfold str, char in *.
      apply andb_false_iff in Hshape as [H%Nat.leb_gt|H%Nat.eqb_neq]; lia. }
    assert (contains 0x2C%N (a ++ 0x2E%N :: b) = false) as ->.
    { rewrite contains_app. simpl.
      by rewrite !(digit_run_no_char 0x2C%N) by done. }
    cbn [andb]. unfold parse_number_plain.
    assert (matched (re_fullmatch re_decimal (a ++ 0x2E%N :: b)) = true) as ->.
    { apply re_fullmatch_iff; [done|].
      apply (M_cat' _ _ _ a (0x2E%N :: b)); [done|by apply digit_run_matches|].
      apply (M_cat' _ _ _ [0x2E%N] b); [done|by constructor|].
      by apply digit_run_matches. }
    by rewrite (py_float_pair _ _ n).
Qed.

Lemma parse_number_dot_pair_witness :
  digit_run (lit "1") ∧ digit_run (lit "234")
  ∧ ∃ n, digits_value 0 (lit "1" ++ lit "234") = Some n
    ∧ parse_number (lit "1" ++ 0x2E%N :: lit "234")
      = Ok (if (length (lit "1") <=? 3)%nat && (length (lit "234") =? 3)%nat
            then PInt n
            else PFloat (b64_round n (10 ^ Z.of_nat (length (lit "234"))))).
Proof.
  assert (digit_run (lit "1")) as Ha.
  { split; [discriminate|]. repeat constructor. }
  assert (digit_run (lit "234")) as Hb.
  { split; [discriminate|]. repeat constructor. }
  split; [exact Ha|]. split; [exact Hb|].
  exact (parse_number_dot_pair (lit "1") (lit "234") Ha Hb).
Defined.

(** ** [parse_number]: white space around the token, and signs *)

Lemma lstrip_by_pad p a x :
  Forall (λ c, p c = true) a → lstrip_by p (a ++ x) = lstrip_by p x.
Proof. induction 1 as [|c a Hc _ IH]; [done|]. simpl. by rewrite Hc. Qed.

Lemma lstrip_by_all p a :
  Forall (λ c, p c = true) a → lstrip_by p a = [].
Proof. induction 1 as [|c a Hc _ IH]; [done|]. simpl. by rewrite Hc. Qed.

Lemma lstrip_by_app p x b :
  Forall (λ c, p c = true) b →
  lstrip_by p (x ++ b) = lstrip_by p x ++ b ∨
  (lstrip_by p (x ++ b) = [] ∧ lstrip_by p x = []).
Proof.
  intros Hb. induction x as [|c x IH]; simpl.
  - right. split; [by apply lstrip_by_all|done].
  - destruct (p c); [exact IH|by left].
Qed.

Lemma strip_by_pad p a x b :
  Forall (λ c, p c = true) a → Forall (λ c, p c = true) b →
  strip_by p (a ++ x ++ b) = strip_by p x.
Proof.
  intros Ha Hb. unfold strip_by. rewrite lstrip_by_pad by done.
  destruct (lstrip_by_app p x b Hb) as [->|[-> ->]]; [|done].
  rewrite rev_app_distr, lstrip_by_pad; [done|]. by apply Forall_rev.
Qed.

(** X9: white space before and after the token does not change what
    [parse_number] returns or raises. *)
Theorem parse_number_ignores_padding a s b :
  Forall (λ c, is_space c = true) a → Forall (λ c, is_space c = true) b →
  parse_number (a ++ s ++ b) = parse_number s.
Proof.
  intros Ha Hb. unfold parse_number, strip. by rewrite strip_by_pad.
Qed.

Lemma parse_number_ignores_padding_witness :
  Forall (λ c, is_space c = true) [SPACE; NBSP]
  ∧ Forall (λ c, is_space c = true) [0x9%N]
  ∧ parse_number ([SPACE; NBSP] ++ lit "68,200" ++ [0x9%N])
    = parse_number (lit "68,200").
Proof.
  assert (Forall (λ c, is_space c = true) [SPACE; NBSP]) as Ha
    by (repeat constructor).
  assert (Forall (λ c, is_space c = true) [0x9%N]) as Hb
    by (repeat constructor).
  split; [exact Ha|]. split; [exact Hb|].
  exact (parse_number_ignores_padding _ (lit "68,200") _ Ha Hb).
Defined.

Lemma digit_value_nonneg c v : digit_value c = Some v → 0 ≤ v.
Proof.
  unfold digit_value. destruct (List.find _ _); [|done].
  intros [= <-]. lia.
Qed.

Lemma int_digits_nonneg_step s :
  (∀ acc z, int_digits acc s = Some z → 0 ≤ acc → 0 ≤ z)
  ∧ ∀ c acc z, int_digits acc (c :: s) = Some z → 0 ≤ acc → 0 ≤ z.
Proof.
  induction s as [|x s [IH1 IH2]].
  - split; [by intros acc z [= <-]|].
    intros c acc z. simpl. destruct (c =? 95)%N; [done|].
    destruct (digit_value c) as [v|] eqn:Hd; [|done].
    apply digit_value_nonneg in Hd. intros [= <-] ?. lia.
  - split; [exact (IH2 x)|].
    intros c acc z. cbn [int_digits]. destruct (c =? 95)%N.
    + destruct (digit_value x) as [v|] eqn:Hd; [|done].
      apply digit_value_nonneg in Hd. intros H ?. eapply IH1; [exact H|lia].
    + destruct (digit_value c) as [v|] eqn:Hd; [|done].
      apply digit_value_nonneg in Hd. intros H ?. eapply IH2; [exact H|lia].
Qed.

Lemma int_digits_nonneg s acc z : int_digits acc s = Some z → 0 ≤ acc → 0 ≤ z.
Proof. apply int_digits_nonneg_step. Qed.

Lemma int_unsigned_nonneg s z : int_unsigned s = Some z → 0 ≤ z.
Proof.
  unfold int_unsigned. destruct s as [|c s]; [done|].
  destruct (digit_value c) as [v|] eqn:Hd; [|done].
  apply digit_value_nonneg in Hd. intros H. by eapply int_digits_nonneg.
Qed.

Lemma contains_infix c a m b :
  contains c (a ++ m ++ b) = false → contains c m = false.
Proof.
  rewrite !contains_app. intros [_ [H _]%orb_false_iff]%orb_false_iff. done.
Qed.

(** [int] returns a negative number only for a string with a minus sign. *)
Lemma py_int_nonneg s z : py_int s = Ok z → contains 0x2D%N s = false → 0 ≤ z.
Proof.
  intros Hz%py_int_literal Hs. unfold int_literal in Hz.
  destruct (strip_by_split int_space s) as (a & b & Heq & _).
  rewrite Heq in Hs. apply contains_infix in Hs.
  destruct (strip_by int_space s) as [|c t]; [done|].
  unfold contains in Hs. cbn [existsb] in Hs.
  apply orb_false_iff in Hs as [Hc Hs].
  rewrite N.eqb_sym in Hc. rewrite Hc in Hz.
  destruct (c =? 43)%N.
  - destruct (int_unsigned t) as [n|] eqn:Hn; [|done].
    injection Hz as <-. by eapply int_unsigned_nonneg.
  - destruct (int_unsigned (c :: t)) as [n|] eqn:Hn; [|done].
    injection Hz as <-. by eapply int_unsigned_nonneg.
Qed.

Lemma digits_value_nonneg s acc z :
  digits_value acc s = Some z → 0 ≤ acc → 0 ≤ z.
Proof.
  revert acc. induction s as [|c s IH]; intros acc; simpl.
  - by intros [= <-].
  - destruct (digit_value c) as [v|] eqn:Hd; [|done].
    apply digit_value_nonneg in Hd. intros H Hacc. eapply IH; [exact H|lia].
Qed.

(** Rounding a ratio that is not negative gives a float that is not
    negative. *)
Lemma b64_round_nonneg n d m e :
  0 ≤ n → 0 < d → b64_round n d = FFin m e → 0 ≤ m.
Proof.
  intros Hn Hd. unfold b64_round.
  destruct (n =? 0); [by intros [= <- _]|].
  cbv zeta.
  set (l := Z.log2 n - Z.log2 d).
  set (ge := if 0 <=? l then d * 2 ^ l <=? n else d <=? n * 2 ^ (- l)).
  set (fl := if ge then l else l - 1).
  set (ex := Z.max (fl - 52) (-1074)).
  set (num := if 0 <=? ex then n else n * 2 ^ (- ex)).
  set (den := if 0 <=? ex then d * 2 ^ ex else d).
  assert (0 ≤ num) as Hnum.
  { unfold num. destruct (Z.leb_spec 0 ex); [done|].
    apply Z.mul_nonneg_nonneg; [done|]. apply Z.pow_nonneg. lia. }
  assert (0 < den) as Hden.
  { unfold den. destruct (Z.leb_spec 0 ex); [|done].
    apply Z.mul_pos_pos; [done|]. apply Z.pow_pos_nonneg; lia. }
  assert (0 ≤ num / den) as Hq by (by apply Z.div_pos).
  set (q' := if 2 * (num mod den) <? den then num / den
             else if den <? 2 * (num mod den) then num / den + 1
             else if Z.even (num / den) then num / den else num / den + 1).
  assert (0 ≤ q') as Hq'.
  { unfold q'. repeat match goal with |- context [if ?c then _ else _] =>
      destruct c end; lia. }
  destruct (q' =? 0); [by intros [= <- _]|].
  destruct (_ && _); [done|].
  intros [= <- _]. by apply Z.shiftr_nonneg.
Qed.

Lemma py_float_nonneg s m e : py_float s = Ok (FFin m e) → 0 ≤ m.
Proof.
  unfold py_float.
  destruct (split _ s) as [|a [|b [|]]]; try done.
  destruct a as [|c a]; [done|]. destruct b as [|d b]; [done|].
  destruct (digits_value 0 _) as [n|] eqn:Hn; [|done].
  apply digits_value_nonneg in Hn; [|done].
  intros [= H]. eapply b64_round_nonneg; [exact Hn| |exact H].
  apply Z.pow_pos_nonneg; lia.
Qed.

Lemma split_from_contains c sep cur s :
  contains c cur = false → contains c s = false →
  Forall (λ p, contains c p = false) (split_from sep cur s).
Proof.
  revert cur. induction s as [|x s IH]; intros cur Hcur Hs; simpl.
  - constructor; [|done]. unfold contains in *.
    rewrite <- Hcur. apply eq_true_iff_eq. rewrite !existsb_exists.
    split; intros (y & Hy & ?); exists y; (split; [|done]);
      by apply in_rev in Hy || (apply in_rev; by rewrite rev_involutive).
  - simpl in Hs. apply orb_false_iff in Hs as [Hx Hs].
    destruct (x =? sep)%N.
    + constructor; [|by apply IH].
      unfold contains in *.
      rewrite <- Hcur. apply eq_true_iff_eq. rewrite !existsb_exists.
      split; intros (y & Hy & ?); exists y; (split; [|done]);
        by apply in_rev in Hy || (apply in_rev; by rewrite rev_involutive).
    + apply IH; [|done]. simpl. by rewrite Hx.
Qed.

Lemma concat_contains c l :
  Forall (λ p, contains c p = false) l → contains c (concat l) = false.
Proof.
  induction 1 as [|p l Hp _ IH]; [done|]. simpl.
  by rewrite contains_app, Hp, IH.
Qed.

Lemma remove_char_contains c x s :
  contains c s = false → contains c (remove_char x s) = false.
Proof.
  unfold contains, remove_char. induction s as [|y s IH]; [done|]. simpl.
  intros [Hy Hs]%orb_false_iff. destruct (negb _); simpl; [|by apply IH].
  by rewrite Hy, IH.
Qed.

Lemma parse_number_plain_nonneg s v :
  contains 0x2D%N s = false → parse_number_plain s = Ok v → nonneg v.
Proof.
  intros Hs. unfold parse_number_plain.
  destruct (matched (re_fullmatch re_decimal s)).
  { intros ([m e|] & Hf & ->)%fmap_Ok; [|done]. by eapply py_float_nonneg. }
  destruct (matched (re_fullmatch re_digits s)); [|done].
  intros (z & Hz & ->)%fmap_Ok. by eapply py_int_nonneg.
Qed.

Lemma parse_number_sign s v :
  contains 0x2D%N s = false → parse_number s = Ok v → nonneg v.
Proof.
  intros Hs0. unfold parse_number.
  assert (contains 0x2D%N (strip s) = false) as Hs.
  { unfold strip. destruct (strip_by_split is_space s) as (a & b & Heq & _).
    rewrite Heq in Hs0. by apply contains_infix in Hs0. }
  set (t := strip s) in *.
  destruct (matched (re_fullmatch re_dot_groups t)).
  { intros (z & Hz & ->)%fmap_Ok. eapply py_int_nonneg; [exact Hz|].
    by apply remove_char_contains. }
  destruct (_ && _); [|by apply parse_number_plain_nonneg].
  pose proof (split_from_contains 0x2D%N 0x2C%N [] t eq_refl Hs) as Hparts.
  fold (split 0x2C%N t) in Hparts.
  destruct (matched (re_fullmatch re_comma_pair t)).
  - destruct (split 0x2C%N t) as [|l [|r [|]]]; try done.
    apply Forall_cons in Hparts as [Hl Hparts].
    apply Forall_cons in Hparts as [Hr _].
    destruct (length r =? 3)%nat.
    + intros (z & Hz & ->)%fmap_Ok. eapply py_int_nonneg; [exact Hz|].
      by rewrite contains_app, Hl, Hr.
    + intros ([m e|] & Hf & ->)%fmap_Ok; [|done]. by eapply py_float_nonneg.
  - destruct (forallb _ _); [|by apply parse_number_plain_nonneg].
    intros (z & Hz & ->)%fmap_Ok. eapply py_int_nonneg; [exact Hz|].
    by apply concat_contains.
Qed.

(** X10: [parse_number] returns a negative number only for a token that
    holds a minus sign; the tokens the scans cut out of a page, made of
    digits, dots and commas, never do. *)
Theorem parse_number_nonneg s v :
  contains 0x2D%N s = false → parse_number s = Ok v → nonneg v.
Proof. exact (parse_number_sign s v). Qed.

Lemma parse_number_nonneg_witness :
  contains 0x2D%N (lit "42,2") = false
  ∧ parse_number (lit "42,2") = Ok (PFloat (FFin 2969561004297421 (-46)))
  ∧ nonneg (PFloat (FFin 2969561004297421 (-46))).
Proof.
  split; [reflexivity|]. split; [vm_compute; reflexivity|].
  apply (parse_number_nonneg (lit "42,2")); [reflexivity|].
  vm_compute; reflexivity.
Defined.

(** ** [parse_stat_block] *)

Lemma matches_text s v : matches (text s) v → v = s.
Proof.
  revert v. induction s as [|c s IH]; intros v H; simpl in H.
  - by inversion H.
  - inversion H as [| |? ? s1 s2 H1 H2| | | | | | |]; subst.
    inversion H1 as [|? x Hx| | | | | | | |]; subst.
    apply N.eqb_eq in Hx as <-. simpl. f_equal. by apply IH.
Qed.

Lemma matches_label v :
  matches re_label v →
  v = lit "Stock" ∨ v = lit "Gold" ∨ v = lit "Max w/o epics"
  ∨ (v ≠ [] ∧ Forall (λ c, c = STAR) v).
Proof.
  unfold re_label. intros H.
  inversion H as [| | |? ? ? H1|? ? ? H2| | | | |]; subst.
  { left. by apply matches_text. }
  inversion H2 as [| | |? ? ? H3|? ? ? H4| | | | |]; subst.
  { right; left. by apply matches_text. }
  inversion H4 as [| | |? ? ? H5|? ? ? H6| | | | |]; subst.
  { right; right; left. by apply matches_text. }
  right; right; right.
  inversion H6 as [| |? ? s1 s2 Hs1 Hs2| | | | | | |]; subst.
  inversion Hs1 as [|? c Hc| | | | | | | |]; subst.
  apply matches_star_cls in Hs2. split; [done|].
  constructor; [by apply N.eqb_eq in Hc|].
  eapply Forall_impl; [exact Hs2|]. intros x Hx. by apply N.eqb_eq in Hx.
Qed.

Lemma header_groups_sound : groups_in header_groups re_header.
Proof.
  unfold re_header. cbn [groups_in].
  split; [done|]. split; [split; [done|vm_compute; tauto]|].
  split; [done|]. split; [done|]. split; [|done].
  split; [|done]. intros v Hv. by apply matches_plus_digit.
Qed.

Lemma matches_plus_cls p v :
  matches (plus (Cls p)) v → v ≠ [] ∧ Forall (λ c, p c = true) v.
Proof.
  intros H. inversion H as [| |? ? s1 s2 H1 H2| | | | | | |]; subst.
  inversion H1; subst. apply matches_star_cls in H2.
  split; [done|]. by constructor.
Qed.

Lemma numeric_no_minus v : numeric_groups 1 v → contains 0x2D%N v = false.
Proof.
  unfold numeric_groups, contains. induction 1 as [|c v Hc _ IH]; [done|].
  cbn [existsb]. rewrite IH, orb_false_r.
  destruct (N.eqb_spec 0x2D c) as [<-|]; [by vm_compute in Hc|done].
Qed.

Lemma speed_groups_sound : groups_in numeric_groups re_speed.
Proof.
  unfold re_speed. cbn [groups_in].
  split; [|split; [done|vm_compute; tauto]].
  split; [|done]. intros v Hv. by apply matches_plus_cls in Hv as [_ Hv].
Qed.

Lemma value_groups_sound : groups_in numeric_groups re_value.
Proof.
  unfold re_value. cbn [groups_in].
  split; [|done]. intros v Hv. by apply matches_plus_cls in Hv as [_ Hv].
Qed.

Lemma search_numeric_nonneg r line m x :
  groups_in numeric_groups r → sets 1 r = true →
  re_search r line = Some m → parse_number (grp 1 m) = Ok x → nonneg x.
Proof.
  intros Hgr Hset Hm Hx. eapply parse_number_sign; [|exact Hx].
  apply numeric_no_minus.
  by apply (re_search_sound numeric_groups r line m 1).
Qed.

(** What the loop of [parse_stat_block] returns: the stats it adds are not
    negative, and it has moved past one line for each of them. *)
Lemma read_stats_spec ls i stats stats' j :
  read_stats ls i stats = Ok (stats', j) →
  Forall nonneg stats →
  Forall nonneg stats'
  ∧ (i + (length stats' - length stats) ≤ j ≤ i + length ls)%nat
  ∧ (length stats ≤ length stats')%nat.
Proof.
  revert i stats. induction ls as [|line ls IH]; intros i stats; cbn [read_stats].
  - intros [= <- <-] Hst. simpl. split; [done|]. lia.
  - destruct (length stats <? 4)%nat;
      [|intros [= <- <-] Hst; simpl; split; [done|lia]].
    destruct (matched _); [intros [= <- <-] Hst; simpl; split; [done|lia]|].
    intros (st & Hstep & Hrest)%bind_Ok Hst.
    assert (Forall nonneg st ∧ (length stats ≤ length st ≤ S (length stats))%nat)
      as [Hst' Hlen].
    { destruct (re_search re_speed line) as [m|] eqn:Hm.
      - apply bind_Ok in Hstep as (x & Hx & [= <-]).
        split; [|rewrite length_app; simpl; lia].
        apply Forall_app. split; [done|]. constructor; [|done].
        by eapply (search_numeric_nonneg re_speed), Hx;
          [apply speed_groups_sound| |exact Hm].
      - destruct (re_search re_value line) as [m|] eqn:Hm'.
        + apply bind_Ok in Hstep as (x & Hx & [= <-]).
          split; [|rewrite length_app; simpl; lia].
          apply Forall_app. split; [done|]. constructor; [|done].
          by eapply (search_numeric_nonneg re_value), Hx;
            [apply value_groups_sound| |exact Hm'].
        + injection Hstep as <-. split; [done|lia]. }
    destruct (IH _ _ Hrest Hst') as (Hok & Hidx & Hmono).
    split; [done|]. simpl. lia.
Qed.

Lemma to_float_nonneg x f : nonneg x → to_float x = Ok f → nonneg_float f.
Proof.
  destruct x as [z|g]; simpl; [|by intros ? [= <-]].
  intros Hz. unfold float_of_int.
  destruct (b64_round (Z.abs z) 1) as [m e|] eqn:Hr; [|done].
  intros [= <-]. unfold nonneg_float. simpl.
  apply b64_round_nonneg in Hr; [|lia..].
  apply Z.mul_nonneg_nonneg; [|done]. by apply Z.sgn_nonneg.
Qed.

Lemma label_kind label :
  matches re_label label →
  let kind :=
    if str_eqb label (lit "Stock") then stock
    else if str_eqb label (lit "Gold") then gold
    else if str_eqb label (lit "Max w/o epics") then max_wo_epics
    else star in
  match kind with
  | stock => label = lit "Stock"
  | gold => label = lit "Gold"
  | max_wo_epics => label = lit "Max w/o epics"
  | star => label ≠ [] ∧ Forall (λ c, c = STAR) label
  end.
Proof.
  intros Hl. cbv zeta. unfold str_eqb.
  case_bool_decide as H1; [done|].
  case_bool_decide as H2; [done|].
  case_bool_decide as H3; [done|].
  by destruct (matches_label label Hl) as [?|[?|[?|?]]].
Qed.

Lemma parse_stat_block_spec lines start_idx entry i :
  parse_stat_block lines start_idx = Ok (entry, i) →
  (start_idx ≤ i ≤ length lines)%nat
  ∧ ∀ e, entry = Some e → entry_ok e ∧ (start_idx + 5 ≤ i)%nat.
Proof.
  unfold parse_stat_block.
  destruct (lines !! start_idx) as [header|] eqn:Hheader; [|done].
  apply lookup_lt_Some in Hheader.
  destruct (re_match re_header header) as [m|] eqn:Hm;
    [|intros [= <- <-]; split; [lia|done]].
  pose proof (re_match_sound header_groups re_header header m 1
                header_groups_sound eq_refl Hm) as Hlabel.
  pose proof (re_match_sound header_groups re_header header m 2
                header_groups_sound eq_refl Hm) as Hrank.
  simpl in Hlabel, Hrank.
  intros (rk & Hrk & H)%bind_Ok.
  pose proof (py_int_digit_run_Ok _ _ Hrank Hrk) as Hpos.
  apply bind_Ok in H as ([stats j] & Hread & H).
  assert (Forall nonneg []) as Hnil by constructor.
  destruct (read_stats_spec _ _ _ _ _ Hread Hnil) as (Hstats & Hidx & _).
  rewrite length_drop in Hidx. simpl in Hidx.
  destruct stats as [|s0 [|s1 [|s2 [|s3 [|]]]]];
    try (injection H as <- <-; split; [lia|done]).
  apply bind_Ok in H as (f0 & Hf0 & H). apply bind_Ok in H as (f1 & Hf1 & H).
  apply bind_Ok in H as (f2 & Hf2 & H). apply bind_Ok in H as (f3 & Hf3 & H).
  injection H as <- <-. simpl in Hidx. split; [lia|].
  intros e [= <-]. split; [|lia].
  apply Forall_cons in Hstats as [H0 Hstats].
  apply Forall_cons in Hstats as [H1 Hstats].
  apply Forall_cons in Hstats as [H2 Hstats].
  apply Forall_cons in Hstats as [H3 _].
  unfold entry_ok. cbn [kind label rank top_speed accel handling nitro].
  split; [by apply label_kind|]. split; [done|].
  split; [exact (to_float_nonneg _ _ H0 Hf0)|].
  split; [exact (to_float_nonneg _ _ H1 Hf1)|].
  split; [exact (to_float_nonneg _ _ H2 Hf2)|].
  exact (to_float_nonneg _ _ H3 Hf3).
Qed.

(** X11: what [parse_stat_block] returns lies within the page and not
    before the header; an entry it returns has one of the three words or a
    non-empty run of star glyphs as its label, the kind of that label, a
    rank and four stats that are not negative, and it has used at least
    the header and four more lines. *)
Theorem parse_stat_block_entry lines start_idx entry i :
  parse_stat_block lines start_idx = Ok (entry, i) →
  (start_idx ≤ i ≤ length lines)%nat
  ∧ ∀ e, entry = Some e → entry_ok e ∧ (start_idx + 5 ≤ i)%nat.
Proof. exact (parse_stat_block_spec lines start_idx entry i). Qed.

Lemma parse_stat_block_entry_witness :
  let lines := [lit "Stock [467]"; lit "180 km/h"; lit "4.5"; lit "50";
                lit "60"; lit "Gold [9]"] in
  let e := {| kind := stock; label := lit "Stock"; rank := 467;
              top_speed := FFin 45 2; accel := FFin 9 (-1);
              handling := FFin 25 1; nitro := FFin 15 2 |} in
  parse_stat_block lines 0 = Ok (Some e, 5%nat)
  ∧ (0 ≤ 5 ≤ length lines)%nat
  ∧ ∀ e', Some e = Some e' → entry_ok e' ∧ (0 + 5 ≤ 5)%nat.
Proof.
  split; [vm_compute; reflexivity|].
  eapply parse_stat_block_entry. vm_compute. reflexivity.
Defined.

(** ** The stat scan of [parse_mei_page] *)

Lemma block_starts_drop k lines :
  (length (block_starts (drop k lines)) ≤ length (block_starts lines))%nat.
Proof.
  revert k. induction lines as [|l lines IH]; intros [|k]; simpl; try lia.
  specialize (IH k). unfold block_starts in *. simpl.
  destruct (matched _); simpl; lia.
Qed.

Lemma block_starts_drop_le i j lines :
  (i ≤ j)%nat →
  (length (block_starts (drop j lines)) ≤ length (block_starts (drop i lines)))%nat.
Proof.
  intros Hij. replace j with (i + (j - i))%nat by lia.
  rewrite <- drop_drop. apply block_starts_drop.
Qed.

Lemma scan_stats_spec fuel lines i acc es :
  scan_stats fuel lines i acc = Ok es →
  ∃ new, es = acc ++ new ∧ Forall entry_ok new
         ∧ (length new ≤ length (block_starts (drop i lines)))%nat.
Proof.
  revert i acc. induction fuel as [|fuel IH]; intros i acc; cbn [scan_stats].
  { intros [= <-]. exists []. rewrite app_nil_r. split; [done|].
    split; [done|simpl; lia]. }
  destruct (lines !! i) as [line|] eqn:Hline.
  2:{ intros [= <-]. exists []. rewrite app_nil_r. split; [done|].
      split; [done|simpl; lia]. }
  rewrite (drop_S _ _ _ Hline). unfold block_starts at 1. cbn [List.filter].
  fold (block_starts (drop (S i) lines)).
  destruct (matched (re_match re_block_start line)).
  - intros ([entry j] & Hblock & H)%bind_Ok.
    destruct (parse_stat_block_spec _ _ _ _ Hblock) as [Hj Hentry].
    destruct entry as [e|].
    + destruct (Hentry e eq_refl) as [He Hj'].
      apply IH in H as (new & -> & Hnew & Hlen).
      exists (e :: new). rewrite <- app_assoc. split; [done|].
      split; [by constructor|]. simpl.
      pose proof (block_starts_drop_le (S i) j lines ltac:(lia)). lia.
    + apply IH in H as (new & -> & Hnew & Hlen).
      exists new. split; [done|]. split; [done|]. simpl. lia.
  - intros H. apply IH in H as (new & -> & Hnew & Hlen). by exists new.
Qed.

(** X12: the stat entries of a page are all well formed, and there are no
    more of them than lines that open a stat block. *)
Theorem collect_stats_entries lines es :
  collect_stats lines = Ok es →
  Forall entry_ok es ∧ (length es ≤ length (block_starts lines))%nat.
Proof.
  intros (new & -> & Hnew & Hlen)%scan_stats_spec. by rewrite drop_0 in Hlen.
Qed.

Lemma collect_stats_entries_witness :
  ∃ es, collect_stats (page_lines demo_page) = Ok es
        ∧ Forall entry_ok es
        ∧ (length es ≤ length (block_starts (page_lines demo_page)))%nat.
Proof.
  eexists. split; [vm_compute; reflexivity|].
  apply collect_stats_entries. vm_compute. reflexivity.
Defined.

(** ** The fields of an accepted record *)

Lemma find_first {A} (p : A → bool) l x :
  List.find p l = Some x →
  ∃ pre post, l = pre ++ x :: post ∧ p x = true
              ∧ Forall (λ y, p y = false) pre.
Proof.
  induction l as [|y l IH]; simpl; [done|].
  destruct (p y) eqn:Hy.
  - intros [= ->]. by exists [], l.
  - intros (pre & post & -> & Hx & Hpre)%IH.
    exists (y :: pre), post. split; [done|]. split; [done|]. by constructor.
Qed.

Lemma normalized_strip s : normalize_line s = s → strip s = s.
Proof.
  intros Hs. destruct (normalize_line_normalized s) as (_ & Hh & Hl).
  rewrite Hs in Hh, Hl. by apply strip_by_id.
Qed.

Lemma find_class_name_Ok lines c n :
  find_class_name lines = Ok (c, n) →
  ∃ pre nm post, lines = pre ++ c :: nm :: post ∧ class_letter c
                 ∧ Forall (λ l, ¬ class_letter l) pre ∧ n = strip nm.
Proof.
  unfold find_class_name.
  destruct (find_index _ lines) as [i|] eqn:Hi; [|done].
  apply find_index_Some in Hi as (pre & x & post & -> & <- & Hx & Hpre).
  rewrite lookup_app_r, Nat.sub_diag by lia. simpl.
  replace (S (length pre)) with (length pre + 1)%nat by lia.
  rewrite lookup_app_r, Nat.add_sub_swap, Nat.sub_diag by lia. simpl.
  destruct post as [|nm post]; [done|]. simpl. intros [= <- <-].
  exists pre, nm, post. split; [done|].
  split; [by apply class_line_spec|]. split; [|done].
  eapply Forall_impl; [exact Hpre|]. intros l Hl Hcl.
  apply class_line_spec in Hcl. simpl in Hl. congruence.
Qed.

(** X13: an accepted record carries the identifier it was given; its class
    is the first line of the page that is one of the letters D, C, B, A, S,
    and its name is the line after it, as that line stands: never empty,
    trimmed and single-spaced. *)
Theorem record_class_and_name text car_id r :
  parse_mei_page text car_id = Ok r →
  Car.id r = car_id
  ∧ class_letter (Car.class r)
  ∧ Car.name r ≠ []
  ∧ normalize_line (Car.name r) = Car.name r
  ∧ ∃ pre post,
      page_lines text = pre ++ Car.class r :: Car.name r :: post
      ∧ Forall (λ l, ¬ class_letter l) pre.
Proof.
  intros H. unfold parse_mei_page in H. cbv zeta in H.
  apply bind_Ok in H as ([car_class name] & Hclass & H).
  apply bind_Ok in H as (max_star & _ & H).
  apply bind_Ok in H as (fuel & _ & H).
  apply bind_Ok in H as ([[reqs total] uses_key] & _ & H).
  apply bind_Ok in H as ([epic_per_stat price] & _ & H).
  apply bind_Ok in H as (stat_entries & _ & H).
  case_bool_decide; [done|].
  apply bind_Ok in H as (totals & _ & H).
  apply bind_Ok in H as (upgrade_all_full & _ & H).
  apply bind_Ok in H as (upgrade_all & _ & H).
  injection H as <-. simpl.
  apply find_class_name_Ok in Hclass
    as (pre & nm & post & Hlines & Hc & Hpre & ->).
  assert (nm ∈ page_lines text) as Hnm.
  { rewrite Hlines. apply elem_of_app. right.
    apply list_elem_of_further, list_elem_of_here. }
  pose proof (page_line_fixed _ _ Hnm) as Hnorm.
  apply page_line_origin in Hnm as (Hne & _).
  rewrite (normalized_strip nm Hnorm).
  split; [done|]. split; [done|]. split; [done|]. split; [done|].
  by exists pre, post.
Qed.

Lemma record_class_and_name_witness :
  parse_mei_page demo_page 7 = Ok demo_record
  ∧ Car.id demo_record = 7
  ∧ class_letter (Car.class demo_record)
  ∧ Car.name demo_record ≠ []
  ∧ normalize_line (Car.name demo_record) = Car.name demo_record
  ∧ ∃ pre post,
      page_lines demo_page
      = pre ++ Car.class demo_record :: Car.name demo_record :: post
      ∧ Forall (λ l, ¬ class_letter l) pre.
Proof.
  split; [vm_compute; reflexivity|].
  apply (record_class_and_name demo_page 7 demo_record).
  vm_compute; reflexivity.
Defined.

(** X14: max_star of an accepted record is the length of the first line of
    the page that holds star glyphs only; it is at least 1. *)
Theorem record_max_star text car_id r :
  parse_mei_page text car_id = Ok r →
  (1 ≤ Car.max_star r)%nat
  ∧ ∃ pre star_line post,
      page_lines text = pre ++ star_line :: post
      ∧ star_glyphs star_line
      ∧ Car.max_star r = length star_line
      ∧ Forall (λ l, ¬ star_glyphs l) pre.
Proof.
  intros (reqs & total & uses_key & eps & es & Hstar & _)%parse_mei_page_Ok.
  unfold find_max_star in Hstar.
  destruct (List.find is_star_line _) as [star_line|] eqn:Hfind; [|done].
  injection Hstar as Hstar.
  apply find_first in Hfind as (pre & post & Hlines & Hs & Hpre).
  apply star_line_spec in Hs.
  split.
  - rewrite <- Hstar. destruct Hs as [Hne _]. destruct star_line; [done|].
    simpl. lia.
  - exists pre, star_line, post. split; [done|]. split; [done|].
    split; [done|]. eapply Forall_impl; [exact Hpre|].
    intros l Hl Hsl. apply star_line_spec in Hsl. simpl in Hl. congruence.
Qed.

Lemma record_max_star_witness :
  parse_mei_page demo_page 7 = Ok demo_record
  ∧ (1 ≤ Car.max_star demo_record)%nat
  ∧ ∃ pre star_line post,
      page_lines demo_page = pre ++ star_line :: post
      ∧ star_glyphs star_line
      ∧ Car.max_star demo_record = length star_line
      ∧ Forall (λ l, ¬ star_glyphs l) pre.
Proof.
  split; [vm_compute; reflexivity|].
  apply (record_max_star demo_page 7 demo_record).
  vm_compute; reflexivity.
Defined.

(** ** The counts and prices of an accepted record *)

Lemma to_int_nonneg x z : nonneg x → to_int x = Ok z → 0 ≤ z.
Proof.
  destruct x as [y|[m e|]]; simpl; [by intros ? [= <-]| |done].
  intros Hm [= <-]. destruct (Z.leb_spec 0 e).
  - apply Z.mul_nonneg_nonneg; [done|]. apply Z.pow_nonneg. lia.
  - apply Z.quot_pos; [done|]. apply Z.pow_pos_nonneg; lia.
Qed.

Lemma find_fuel_nonneg lines f : find_fuel lines = Ok (Some f) → 0 ≤ f.
Proof.
  unfold find_fuel.
  destruct (List.find _ lines) as [[|c fuel_line]|]; try done.
  destruct (re_search re_fuel _) as [m|] eqn:Hm; [|done].
  intros (z & Hz & [= ->])%fmap_Ok.
  apply (search_int_group_Ok re_fuel (c :: fuel_line) m z); [|done..].
  groups_of_digits.
Qed.

Lemma bp_total_nonneg line1 line2 t :
  bp_total_of line1 line2 = Ok (Some t) → 0 ≤ t.
Proof.
  unfold bp_total_of.
  set (m2 := match re_search re_paren_total line1 with
             | Some m => Some m
             | None => re_search re_paren_total (default [] line2)
             end).
  destruct m2 as [m|] eqn:Hm2; [|done].
  assert (∃ s, re_search re_paren_total s = Some m) as [s Hs].
  { subst m2. destruct (re_search re_paren_total line1) eqn:H1.
    - injection Hm2 as ->. eauto.
    - eauto. }
  intros (z & Hz & [= ->])%fmap_Ok.
  apply (search_int_group_Ok re_paren_total s m z); [|done..].
  groups_of_digits.
Qed.

Lemma split_bp_run_length v :
  matches re_bp_run v → (2 ≤ length (split 0x2F%N v))%nat.
Proof.
  intros H. inversion H as [| |? ? d rest Hd Hrest| | | | | | |]; subst.
  apply matches_plus_digit in Hd.
  inversion Hrest as [| |? ? x1 rest2 Hx1 _| | | | | | |]; subst.
  inversion Hx1 as [| |? ? sl d2 Hsl _| | | | | | |]; subst.
  inversion Hsl as [|? c Hc| | | | | | | |]; subst.
  apply N.eqb_eq in Hc as <-.
  unfold split. rewrite split_from_app by (by apply digit_run_no_sep).
  simpl.
  pose proof (split_from_nonempty 0x2F%N [] (d2 ++ rest2)) as Hne.
  destruct (split_from 0x2F%N [] (d2 ++ rest2)); [done|]. simpl. lia.
Qed.

Lemma bp_requirements_length line1 rs :
  bp_requirements_of line1 = Ok (Some rs) → (2 ≤ length rs)%nat.
Proof.
  unfold bp_requirements_of.
  set (l1_clean := remove_char _ (remove_char _ line1)).
  destruct (re_search re_slash_run l1_clean) as [m1|] eqn:Hm1; [|done].
  apply slash_run_of_search in Hm1 as Hv.
  intros (zs & Hzs & [= <-])%fmap_Ok.
  apply py_int_digit_runs_Ok in Hzs as [_ Hlen]; [|by apply split_bp_run].
  rewrite Hlen. by apply split_bp_run_length.
Qed.

Lemma extract_bp_spec line1 line2 reqs total :
  extract_bp_from_two_lines line1 line2 = Ok (Some (reqs, total)) →
  (2 ≤ length reqs)%nat ∧ Forall (λ z, 0 ≤ z) reqs
  ∧ ∀ t, total = Some t → 0 ≤ t.
Proof.
  intros H. pose proof (extract_bp_Ok _ _ _ _ H) as [_ Hpos].
  unfold extract_bp_from_two_lines in H.
  apply bind_Ok in H as (rs & Hrs & H). apply bind_Ok in H as (tot & Htot & H).
  destruct rs as [rs|]; [|done]. injection H as <- <-.
  split; [by apply (bp_requirements_length line1)|]. split; [done|].
  intros t ->. by apply (bp_total_nonneg line1 line2).
Qed.

(** X15: on lines of at most 4300 characters
    [extract_bp_from_two_lines] never raises. When it returns a pair, the
    requirements are at least two numbers, none of them negative, and the
    total, when there is one, is not negative either. *)
Theorem extract_bp_from_two_lines_total line1 line2 :
  short line1 → short (default [] line2) →
  ∃ r, extract_bp_from_two_lines line1 line2 = Ok r
       ∧ ∀ reqs total, r = Some (reqs, total) →
           (2 ≤ length reqs)%nat ∧ Forall (λ z, 0 ≤ z) reqs
           ∧ ∀ t, total = Some t → 0 ≤ t.
Proof.
  intros H1 H2.
  destruct (extract_bp_never_raises line1 line2 H1 H2) as (r & Hr & _).
  exists r. split; [done|]. intros reqs total ->.
  by apply (extract_bp_spec line1 line2).
Qed.

Lemma extract_bp_from_two_lines_total_witness :
  short (lit "5/8/30") ∧ short (default [] (Some (lit "(43)")))
  ∧ ∃ r, extract_bp_from_two_lines (lit "5/8/30") (Some (lit "(43)")) = Ok r
       ∧ ∀ reqs total, r = Some (reqs, total) →
           (2 ≤ length reqs)%nat ∧ Forall (λ z, 0 ≤ z) reqs
           ∧ ∀ t, total = Some t → 0 ≤ t.
Proof.
  assert (short (lit "5/8/30")) as H1 by (by vm_compute).
  assert (short (default [] (Some (lit "(43)")))) as H2 by (by vm_compute).
  split; [exact H1|]. split; [exact H2|].
  exact (extract_bp_from_two_lines_total (lit "5/8/30") (Some (lit "(43)"))
           H1 H2).
Defined.

Lemma scan_bp_spec ls reqs total uses_key :
  scan_bp ls = Ok (reqs, total, uses_key) →
  (reqs = [] ∧ total = None ∧ uses_key = false)
  ∨ ((2 ≤ length reqs)%nat ∧ Forall (λ z, 0 ≤ z) reqs
     ∧ (∀ t, total = Some t → 0 ≤ t)
     ∧ (uses_key = true → ∃ l, l ∈ ls ∧ contains KEY l = true)).
Proof.
  induction ls as [|l ls IH]; cbn [scan_bp].
  - intros [= <- <- <-]. by left.
  - assert (scan_bp ls = Ok (reqs, total, uses_key) →
            (reqs = [] ∧ total = None ∧ uses_key = false)
            ∨ ((2 ≤ length reqs)%nat ∧ Forall (λ z, 0 ≤ z) reqs
               ∧ (∀ t, total = Some t → 0 ≤ t)
               ∧ (uses_key = true →
                  ∃ l', l' ∈ l :: ls ∧ contains KEY l' = true))) as IH'.
    { intros [H|(H1 & H2 & H3 & H4)]%IH; [by left|right].
      split; [done|]. split; [done|]. split; [done|].
      intros (l' & Hl' & Hk)%H4. exists l'. split; [|done].
      by apply list_elem_of_further. }
    destruct (is_bp_candidate l); [|done].
    intros (r & Hr & H)%bind_Ok.
    destruct r as [[reqs' total']|]; [|by apply IH'].
    injection H as <- <- <-. right.
    destruct (extract_bp_spec _ _ _ _ Hr) as (H1 & H2 & H3).
    split; [done|]. split; [done|]. split; [done|].
    intros [Hk|Hk]%orb_true_iff.
    + exists l. split; [apply list_elem_of_here|done].
    + destruct ls as [|l2 ls']; [done|]. simpl in Hk.
      exists l2. split; [|done].
      apply list_elem_of_further, list_elem_of_here.
Qed.

Lemma scan_epics_nonneg ls n price : scan_epics ls = Ok (n, price) → 0 ≤ n.
Proof.
  induction ls as [|l ls IH]; cbn [scan_epics]; [by intros [= <- _]|].
  destruct (startswith (lit "Epics:") l); [|done].
  intros (eps & Heps & H)%bind_Ok.
  apply bind_Ok in H as (p & _ & [= <- _]).
  destruct ls as [|l1 ls']; [by injection Heps as <-|].
  destruct (re_search re_first_int l1) as [m|] eqn:Hm;
    [|by injection Heps as <-].
  apply (search_int_group_Ok re_first_int l1 m eps); [|done..].
  groups_of_digits.
Qed.

Lemma amount_groups_sound r :
  r = re_block_total ∨ r = re_total → groups_in numeric_groups r.
Proof.
  assert (∀ v, matches (plus (Cls (λ c, is_digit c || (c =? 0x2C)%N))) v →
               numeric_groups 1 v) as Hv.
  { intros v [_ Hv]%matches_plus_cls. unfold numeric_groups.
    eapply Forall_impl; [exact Hv|]. intros c Hc. simpl in Hc.
    apply orb_true_iff in Hc as [-> | ->]; [done|]. by rewrite orb_true_r. }
  intros [->| ->].
  - unfold re_block_total. cbn [groups_in]. repeat split; done.
  - unfold re_total. cbn [groups_in]. repeat split; done.
Qed.

Lemma scan_upgrades_nonneg ls in_block acc totals :
  scan_upgrades ls in_block acc = Ok totals →
  Forall (λ z, 0 ≤ z) acc → Forall (λ z, 0 ≤ z) totals.
Proof.
  revert in_block acc. induction ls as [|l ls IH]; intros in_block acc;
    cbn [scan_upgrades].
  - by intros [= <-].
  - destruct (matched (re_fullmatch re_stars l)); [by apply IH|].
    destruct in_block; [|by apply IH].
    destruct (startswith [0x3D%N] l); [|by apply IH].
    intros (acc' & Hacc' & H)%bind_Ok Hacc. apply IH in H; [done|].
    destruct (re_search re_block_total l) as [m|] eqn:Hm;
      [|by injection Hacc' as <-].
    apply bind_Ok in Hacc' as (x & Hx & Hacc').
    apply bind_Ok in Hacc' as (z & Hz & [= <-]).
    apply Forall_app. split; [done|]. constructor; [|done].
    apply (to_int_nonneg x); [|done].
    apply (search_numeric_nonneg re_block_total l m); try done.
    apply amount_groups_sound. by left.
Qed.

Lemma find_total_nonneg lines x : find_total lines = Ok (Some x) → nonneg x.
Proof.
  unfold find_total.
  destruct (List.find _ lines) as [[|c total_line]|]; try done.
  destruct (re_search re_total _) as [m|] eqn:Hm; [|done].
  intros (y & Hy & [= <-])%fmap_Ok.
  apply (search_numeric_nonneg re_total (c :: total_line) m); try done.
  apply amount_groups_sound. by right.
Qed.

(** X16: no count of an accepted record is negative: the fuel, the
    blueprint requirements and their total, the epic part amounts (the same
    number for the four stats), the upgrade totals and the overall upgrade
    cost. Requirements, when there are any, are at least two. *)
Theorem record_counts_nonneg text car_id r :
  parse_mei_page text car_id = Ok r →
  (∀ f, Car.fuel r = Some f → 0 ≤ f)
  ∧ Forall (λ z, 0 ≤ z) (Car.bp_requirements r)
  ∧ (Car.bp_requirements r ≠ [] → (2 ≤ length (Car.bp_requirements r))%nat)
  ∧ (∀ t, Car.bp_all r = Some t → 0 ≤ t)
  ∧ (∃ n, 0 ≤ n ∧ Car.epic_importparts_amount r
                   = {| Epic.top_speed := n; Epic.accel := n;
                        Epic.handling := n; Epic.nitro := n |})
  ∧ Forall (λ z, 0 ≤ z) (Car.upgrade_cumulative r)
  ∧ (∀ u, Car.upgrade_all r = Some u → 0 ≤ u).
Proof.
  intros (reqs & total & uses_key & eps & es & _ & Hfuel & Hbp & Hepics & _
          & _ & Hup & _ & _ & Hreqs & _ & Hall & _ & Hamount
          & full & Hfull & Hint)%parse_mei_page_Ok.
  split; [intros f Hf; rewrite Hf in Hfuel; by apply find_fuel_nonneg in Hfuel|].
  rewrite Hreqs, Hall.
  apply scan_bp_spec in Hbp.
  split; [by destruct Hbp as [(-> & _)|(_ & H & _)]|].
  split; [by destruct Hbp as [(-> & _)|(H & _)]|].
  split.
  { intros t. destruct Hbp as [(-> & _)|(_ & _ & H & _)]; [done|].
    destruct reqs; [done|]. apply H. }
  split.
  { exists eps. split; [by apply scan_epics_nonneg in Hepics|done]. }
  split; [by apply scan_upgrades_nonneg in Hup|].
  intros u Hu. rewrite Hu in Hint.
  destruct full as [x|]; [|done].
  apply fmap_Ok in Hint as (z & Hz & [= <-]).
  apply (to_int_nonneg x); [|done]. by apply (find_total_nonneg (page_lines text)).
Qed.

Lemma record_counts_nonneg_witness :
  parse_mei_page demo_page 7 = Ok demo_record
  ∧ (∀ f, Car.fuel demo_record = Some f → 0 ≤ f)
  ∧ Forall (λ z, 0 ≤ z) (Car.bp_requirements demo_record)
  ∧ (Car.bp_requirements demo_record ≠ [] →
     (2 ≤ length (Car.bp_requirements demo_record))%nat)
  ∧ (∀ t, Car.bp_all demo_record = Some t → 0 ≤ t)
  ∧ (∃ n, 0 ≤ n ∧ Car.epic_importparts_amount demo_record
                   = {| Epic.top_speed := n; Epic.accel := n;
                        Epic.handling := n; Epic.nitro := n |})
  ∧ Forall (λ z, 0 ≤ z) (Car.upgrade_cumulative demo_record)
  ∧ (∀ u, Car.upgrade_all demo_record = Some u → 0 ≤ u).
Proof.
  split; [vm_compute; reflexivity|].
  apply (record_counts_nonneg demo_page 7 demo_record).
  vm_compute; reflexivity.
Defined.

(** X17: unlock_method is left unset exactly when no requirements were
    found, and then bp_cumulative is empty and bp_all is unset; a page
    without a candidate line has no requirements; and unlock_method is
    "key" only when a line of the page holds the key glyph. *)
Theorem record_unlock_method text car_id r :
  parse_mei_page text car_id = Ok r →
  (Car.unlock_method r = None ↔ Car.bp_requirements r = [])
  ∧ (Car.bp_requirements r = [] →
     Car.bp_cumulative r = [] ∧ Car.bp_all r = None)
  ∧ ((∀ l, l ∈ page_lines text → is_bp_candidate l = false) →
     Car.bp_requirements r = [])
  ∧ (Car.unlock_method r = Some key →
     ∃ l, l ∈ page_lines text ∧ contains KEY l = true).
Proof.
  intros (reqs & total & uses_key & eps & es & _ & _ & Hbp & _ & _ & _ & _
          & _ & _ & Hreqs & Hcum & Hall & Hunlock & _)%parse_mei_page_Ok.
  rewrite Hreqs, Hcum, Hall, Hunlock.
  split; [by destruct reqs|].
  split; [by intros ->|].
  split.
  { intros Hnone. apply scan_bp_no_candidate in Hnone. congruence. }
  apply scan_bp_spec in Hbp as [(-> & _)|(_ & _ & _ & Hkey)]; [done|].
  destruct reqs; [done|]. destruct uses_key; [|done]. intros _. by apply Hkey.
Qed.

Lemma record_unlock_method_witness :
  ∃ r, parse_mei_page key_page 1 = Ok r
    ∧ (Car.unlock_method r = None ↔ Car.bp_requirements r = [])
    ∧ (Car.bp_requirements r = [] →
       Car.bp_cumulative r = [] ∧ Car.bp_all r = None)
    ∧ ((∀ l, l ∈ page_lines key_page → is_bp_candidate l = false) →
       Car.bp_requirements r = [])
    ∧ (Car.unlock_method r = Some key →
       ∃ l, l ∈ page_lines key_page ∧ contains KEY l = true).
Proof.
  eexists. split; [vm_compute; reflexivity|].
  apply (record_unlock_method key_page 1). vm_compute; reflexivity.
Defined.

(** ** The stat list of an accepted record *)

Lemma first_of_kind_Some k es e :
  first_of_kind k es = Some e → e ∈ es ∧ kind e = k.
Proof.
  unfold first_of_kind. intros [Hin Hk]%find_some.
  split; [by apply list_elem_of_In|]. by apply bool_decide_eq_true in Hk.
Qed.

Lemma first_of_kind_is_Some k es :
  is_Some (first_of_kind k es) ↔ ∃ e, e ∈ es ∧ kind e = k.
Proof.
  split.
  - intros [e He]. exists e. by apply first_of_kind_Some.
  - intros (e & Hin & Hk). unfold first_of_kind.
    destruct (List.find _ es) as [x|] eqn:Hfind; [by eexists|].
    apply list_elem_of_In in Hin.
    apply (find_none _ _ Hfind) in Hin. simpl in Hin.
    by apply bool_decide_eq_false in Hin.
Qed.

Lemma build_stat_list_origin es max_star has_epic t :
  t ∈ build_stat_list es max_star has_epic →
  ∃ e, e ∈ es ∧ kind e = tier_kind (Tier.type t)
       ∧ t = tier_of (Tier.star t) (Tier.type t) e
       ∧ (Tier.type t = t_full → Tier.star t = star_count e)
       ∧ (Tier.type t = t_max_wo_epics → has_epic = true).
Proof.
  unfold build_stat_list. intros Hin.
  apply elem_of_app in Hin as [Hin|Hin].
  { destruct (first_of_kind stock es) as [e|] eqn:He; [|by inversion Hin].
    apply list_elem_of_singleton in Hin as ->.
    apply first_of_kind_Some in He as [He Hk]. by exists e. }
  apply elem_of_app in Hin as [Hin|Hin].
  { apply list_elem_of_omap in Hin as (s & Hs & Hb).
    destruct (best_of _ !! s) as [b|] eqn:Hbest; [|done].
    injection Hb as <-. rewrite best_of_lookup in Hbest.
    apply best_in_origin in Hbest as [[=]|[Hin Hcount]].
    apply list_elem_of_In, filter_In in Hin as [Hin Hk].
    apply bool_decide_eq_true in Hk.
    exists b. split; [by apply list_elem_of_In|]. by simpl. }
  apply elem_of_app in Hin as [Hin|Hin].
  { destruct has_epic; [|by inversion Hin].
    destruct (first_of_kind max_wo_epics es) as [e|] eqn:He;
      [|by inversion Hin].
    apply list_elem_of_singleton in Hin as ->.
    apply first_of_kind_Some in He as [He Hk]. by exists e. }
  destruct (first_of_kind gold es) as [e|] eqn:He; [|by inversion Hin].
  apply list_elem_of_singleton in Hin as ->.
  apply first_of_kind_Some in He as [He Hk]. by exists e.
Qed.

Lemma collect_stats_ok lines es : collect_stats lines = Ok es → Forall entry_ok es.
Proof. by intros (new & -> & Hnew & _)%scan_stats_spec. Qed.

(** X18: every tier of the stat list of an accepted record is built from
    one of the stat blocks captured on the page: a block of the kind that
    the tier type stands for, whose rank and four stats the tier repeats;
    a full tier has the star count of its block, and a max_wo_epics tier
    exists only when the epic part amount is positive. *)
Theorem record_stat_origin text car_id r t :
  parse_mei_page text car_id = Ok r →
  t ∈ Car.stat r →
  ∃ es e, collect_stats (page_lines text) = Ok es
          ∧ e ∈ es ∧ entry_ok e
          ∧ kind e = tier_kind (Tier.type t)
          ∧ t = tier_of (Tier.star t) (Tier.type t) e
          ∧ (Tier.type t = t_full → Tier.star t = star_count e)
          ∧ (Tier.type t = t_max_wo_epics →
             0 < Epic.top_speed (Car.epic_importparts_amount r)).
Proof.
  intros (reqs & total & uses_key & eps & es & _ & _ & _ & _ & Hes & _ & _
          & Hstat & _ & _ & _ & _ & _ & Hamount & _)%parse_mei_page_Ok Ht.
  rewrite Hstat in Ht.
  apply build_stat_list_origin in Ht as (e & Hin & Hk & Heq & Hfull & Hepic).
  exists es, e. split; [done|]. split; [done|].
  split.
  { apply collect_stats_ok in Hes. by apply (proj1 (Forall_forall _ _) Hes). }
  split; [done|]. split; [done|]. split; [done|].
  intros Hty. rewrite Hamount. simpl. apply Hepic in Hty.
  by apply Z.ltb_lt.
Qed.

Lemma record_stat_origin_witness :
  let t := {| Tier.star := 1; Tier.type := t_stock; Tier.rank := 467;
              Tier.top_speed := FFin 45 2; Tier.accel := FFin 9 (-1);
              Tier.handling := FFin 25 1; Tier.nitro := FFin 15 2 |} in
  parse_mei_page demo_page 7 = Ok demo_record
  ∧ t ∈ Car.stat demo_record
  ∧ ∃ es e, collect_stats (page_lines demo_page) = Ok es
            ∧ e ∈ es ∧ entry_ok e
            ∧ kind e = tier_kind (Tier.type t)
            ∧ t = tier_of (Tier.star t) (Tier.type t) e
            ∧ (Tier.type t = t_full → Tier.star t = star_count e)
            ∧ (Tier.type t = t_max_wo_epics →
               0 < Epic.top_speed (Car.epic_importparts_amount demo_record)).
Proof.
  cbv zeta.
  assert (parse_mei_page demo_page 7 = Ok demo_record) as H
    by (vm_compute; reflexivity).
  assert ({| Tier.star := 1; Tier.type := t_stock; Tier.rank := 467;
             Tier.top_speed := FFin 45 2; Tier.accel := FFin 9 (-1);
             Tier.handling := FFin 25 1; Tier.nitro := FFin 15 2 |}
          ∈ Car.stat demo_record) as Hin.
  { apply list_elem_of_In. vm_compute. tauto. }
  split; [exact H|]. split; [exact Hin|].
  exact (record_stat_origin demo_page 7 demo_record _ H Hin).
Defined.

Lemma build_stat_list_has es max_star has_epic :
  (∀ e, first_of_kind stock es = Some e →
        tier_of 1 t_stock e ∈ build_stat_list es max_star has_epic)
  ∧ (∀ e, first_of_kind gold es = Some e →
          tier_of max_star t_gold e ∈ build_stat_list es max_star has_epic)
  ∧ (∀ e, first_of_kind max_wo_epics es = Some e → has_epic = true →
          tier_of max_star t_max_wo_epics e
          ∈ build_stat_list es max_star has_epic).
Proof.
  unfold build_stat_list. split; [|split].
  - intros e ->. apply elem_of_app. left. apply list_elem_of_here.
  - intros e ->. do 3 (apply elem_of_app; right). apply list_elem_of_here.
  - intros e -> ->. do 2 (apply elem_of_app; right).
    apply elem_of_app. left. apply list_elem_of_here.
Qed.

(** X19: the stat list of an accepted record has a stock tier exactly when
    a Stock block was captured on the page, a gold tier exactly when a Gold
    block was, and a max_wo_epics tier exactly when a "Max w/o epics" block
    was captured and the epic part amount is positive. *)
Theorem record_stat_presence text car_id r :
  parse_mei_page text car_id = Ok r →
  ∃ es, collect_stats (page_lines text) = Ok es
    ∧ ((∃ t, t ∈ Car.stat r ∧ Tier.type t = t_stock)
       ↔ ∃ e, e ∈ es ∧ kind e = stock)
    ∧ ((∃ t, t ∈ Car.stat r ∧ Tier.type t = t_gold)
       ↔ ∃ e, e ∈ es ∧ kind e = gold)
    ∧ ((∃ t, t ∈ Car.stat r ∧ Tier.type t = t_max_wo_epics)
       ↔ (∃ e, e ∈ es ∧ kind e = max_wo_epics)
         ∧ 0 < Epic.top_speed (Car.epic_importparts_amount r)).
Proof.
  intros (reqs & total & uses_key & eps & es & _ & _ & _ & _ & Hes & _ & _
          & Hstat & _ & _ & _ & _ & _ & Hamount & _)%parse_mei_page_Ok.
  exists es. split; [done|]. rewrite Hstat, Hamount. simpl.
  destruct (build_stat_list_has es (Car.max_star r) (0 <? eps))
    as (Hstock & Hgold & Hmax).
  split; [|split]; split.
  - intros (t & Ht & Hty).
    apply build_stat_list_origin in Ht as (e & Hin & Hk & _).
    rewrite Hty in Hk. by exists e.
  - intros [e He]%first_of_kind_is_Some. eexists. split; [by apply Hstock|done].
  - intros (t & Ht & Hty).
    apply build_stat_list_origin in Ht as (e & Hin & Hk & _).
    rewrite Hty in Hk. by exists e.
  - intros [e He]%first_of_kind_is_Some. eexists. split; [by apply Hgold|done].
  - intros (t & Ht & Hty).
    apply build_stat_list_origin in Ht as (e & Hin & Hk & _ & _ & Hepic).
    rewrite Hty in Hk. split; [by exists e|]. by apply Z.ltb_lt, Hepic.
  - intros [[e He]%first_of_kind_is_Some Hpos%Z.ltb_lt].
    eexists. split; [by apply Hmax|done].
Qed.

Lemma record_stat_presence_witness :
  parse_mei_page demo_page 7 = Ok demo_record
  ∧ ∃ es, collect_stats (page_lines demo_page) = Ok es
    ∧ ((∃ t, t ∈ Car.stat demo_record ∧ Tier.type t = t_stock)
       ↔ ∃ e, e ∈ es ∧ kind e = stock)
    ∧ ((∃ t, t ∈ Car.stat demo_record ∧ Tier.type t = t_gold)
       ↔ ∃ e, e ∈ es ∧ kind e = gold)
    ∧ ((∃ t, t ∈ Car.stat demo_record ∧ Tier.type t = t_max_wo_epics)
       ↔ (∃ e, e ∈ es ∧ kind e = max_wo_epics)
         ∧ 0 < Epic.top_speed (Car.epic_importparts_amount demo_record)).
Proof.
  split; [vm_compute; reflexivity|].
  apply (record_stat_presence demo_page 7 demo_record). vm_compute; reflexivity.
Defined.

(** ** Stat blocks and the headers that follow them *)

Lemma read_stats_no_header ls i stats stats' j :
  read_stats ls i stats = Ok (stats', j) →
  ∀ k l, (k < j - i)%nat → ls !! k = Some l →
         matched (re_match re_block_start l) = false.
Proof.
  revert i stats. induction ls as [|line ls IH]; intros i stats; cbn [read_stats].
  - intros _ k l _ Hl. done.
  - destruct (length stats <? 4)%nat; [|intros [= _ <-] k l Hk; lia].
    destruct (matched (re_match re_block_start line)) eqn:Hline;
      [intros [= _ <-] k l Hk; lia|].
    intros (st & _ & H)%bind_Ok k l Hk Hl.
    destruct k as [|k]; [by injection Hl as <-|].
    simpl in Hl. apply (IH _ _ H k l); [lia|done].
Qed.

Lemma parse_stat_block_no_header lines start_idx entry i :
  parse_stat_block lines start_idx = Ok (entry, i) →
  ∀ k, (start_idx < k < i)%nat → opens_block lines k = false.
Proof.
  unfold parse_stat_block.
  destruct (lines !! start_idx) as [header|]; [|done].
  destruct (re_match re_header header) as [m|];
    [|intros [= _ <-] k Hk; lia].
  intros (rk & _ & H)%bind_Ok.
  apply bind_Ok in H as ([stats j] & Hread & H).
  assert (i = j) as ->.
  { destruct stats as [|s0 [|s1 [|s2 [|s3 [|]]]]]; try by injection H as _ <-.
    repeat (apply bind_Ok in H as (? & _ & H)). by injection H as _ <-. }
  intros k Hk. unfold opens_block.
  destruct (lines !! k) as [l|] eqn:Hl; [|done].
  apply (read_stats_no_header _ _ _ _ _ Hread (k - S start_idx)%nat); [lia|].
  rewrite lookup_drop. rewrite <- Hl. f_equal. lia.
Qed.

(** X20: the lines that [parse_stat_block] reads past, between the header
    and the index it returns, never include the header of another block. *)
Theorem parse_stat_block_stops_at_header lines start_idx entry i k l :
  parse_stat_block lines start_idx = Ok (entry, i) →
  (start_idx < k < i)%nat → lines !! k = Some l →
  matched (re_match re_block_start l) = false.
Proof.
  intros H Hk Hl.
  pose proof (parse_stat_block_no_header _ _ _ _ H k Hk) as Hopen.
  unfold opens_block in Hopen. by rewrite Hl in Hopen.
Qed.

Lemma parse_stat_block_stops_at_header_witness :
  let lines := [lit "Stock [467]"; lit "180 km/h"; lit "4.5"; lit "50";
                lit "60"; lit "Gold [9]"] in
  parse_stat_block lines 0 = Ok (Some {| kind := stock; label := lit "Stock";
                                         rank := 467;
                                         top_speed := FFin 45 2;
                                         accel := FFin 9 (-1);
                                         handling := FFin 25 1;
                                         nitro := FFin 15 2 |}, 5%nat)
  ∧ (0 < 2 < 5)%nat
  ∧ lines !! 2%nat = Some (lit "4.5")
  ∧ matched (re_match re_block_start (lit "4.5")) = false.
Proof.
  cbv zeta.
  split; [vm_compute; reflexivity|]. split; [lia|]. split; [reflexivity|].
  eapply (parse_stat_block_stops_at_header
            [lit "Stock [467]"; lit "180 km/h"; lit "4.5"; lit "50";
             lit "60"; lit "Gold [9]"] 0%nat _ 5%nat 2%nat).
  - vm_compute; reflexivity.
  - lia.
  - reflexivity.
Defined.

Lemma filter_none {A} (p : A → bool) l :
  Forall (λ x, p x = false) l → List.filter p l = [].
Proof. induction 1 as [|x l Hx _ IH]; [done|]. simpl. by rewrite Hx. Qed.

Lemma scan_stats_blocks fuel lines i acc es :
  scan_stats fuel lines i acc = Ok es →
  (length lines - i ≤ fuel)%nat →
  ∃ outs,
    Forall2 (λ j o, ∃ next_i, parse_stat_block lines j = Ok (o, next_i))
            (List.filter (opens_block lines) (seq i (length lines - i))) outs
    ∧ es = acc ++ omap id outs.
Proof.
  revert i acc. induction fuel as [|fuel IH]; intros i acc; cbn [scan_stats].
  { intros [= <-] Hfuel. replace (length lines - i)%nat with 0%nat by lia.
    exists []. split; [constructor|]. by rewrite app_nil_r. }
  destruct (lines !! i) as [line|] eqn:Hline.
  2:{ intros [= <-] _. apply lookup_ge_None in Hline.
      replace (length lines - i)%nat with 0%nat by lia.
      exists []. split; [constructor|]. by rewrite app_nil_r. }
  pose proof (lookup_lt_Some _ _ _ Hline) as Hi.
  replace (length lines - i)%nat with (S (length lines - S i)) by lia.
  cbn [seq List.filter]. unfold opens_block at 1. rewrite Hline.
  destruct (matched (re_match re_block_start line)) eqn:Hstart.
  2:{ intros H Hfuel. apply IH in H; [done|lia]. }
  intros ([entry next_i] & Hblock & H)%bind_Ok Hfuel.
  destruct entry as [e|].
  - pose proof (parse_stat_block_index _ _ _ _ Hblock) as Hlt.
    destruct (parse_stat_block_spec _ _ _ _ Hblock) as [Hle _].
    apply IH in H as (outs & Houts & ->); [|lia].
    exists (Some e :: outs). split.
    + constructor; [by exists next_i|].
      replace (length lines - S i)%nat
        with ((next_i - S i) + (length lines - next_i))%nat by lia.
      rewrite seq_app, List.filter_app.
      replace (S i + (next_i - S i))%nat with next_i by lia.
      rewrite filter_none; [done|].
      apply Forall_forall. intros k Hk. apply list_elem_of_In, in_seq in Hk.
      apply (parse_stat_block_no_header _ _ _ _ Hblock). lia.
    + by rewrite <- app_assoc.
  - apply IH in H as (outs & Houts & ->); [|lia].
    exists (None :: outs). split; [|done].
    constructor; [by exists next_i|done].
Qed.

(** X21: the stat scan of [parse_mei_page] calls [parse_stat_block] on
    every line of the page that opens a block, skipping none, and collects
    the entries these calls return, in page order. *)
Theorem collect_stats_blocks lines es :
  collect_stats lines = Ok es →
  ∃ outs,
    Forall2 (λ j o, ∃ next_i, parse_stat_block lines j = Ok (o, next_i))
            (block_start_indices lines) outs
    ∧ es = omap id outs.
Proof.
  intros H. apply scan_stats_blocks in H as (outs & Houts & ->); [|lia].
  rewrite Nat.sub_0_r in Houts. by exists outs.
Qed.

Lemma collect_stats_blocks_witness :
  ∃ es, collect_stats (page_lines demo_page) = Ok es
    ∧ ∃ outs,
        Forall2 (λ j o, ∃ next_i,
                   parse_stat_block (page_lines demo_page) j = Ok (o, next_i))
                (block_start_indices (page_lines demo_page)) outs
        ∧ es = omap id outs.
Proof.
  eexists. split; [vm_compute; reflexivity|].
  apply collect_stats_blocks. vm_compute; reflexivity.
Defined.

(** ** What [parse_stat_block] raises *)

Lemma read_stats_raises ls i stats e :
  read_stats ls i stats = Raise e → is_format_error e = true.
Proof.
  revert i stats. induction ls as [|line ls IH]; intros i stats; cbn [read_stats];
    [done|].
  destruct (length stats <? 4)%nat; [|done].
  destruct (matched (re_match re_block_start line)); [done|].
  intros [H|(stats' & _ & H)]%bind_Raise; [|by eapply IH].
  destruct (re_search re_speed line).
  { apply bind_Raise in H as [H|(? & _ & [=])]. by eapply parse_number_error. }
  destruct (re_search re_value line); [|done].
  apply bind_Raise in H as [H|(? & _ & [=])]. by eapply parse_number_error.
Qed.

Lemma py_index_None {A} (l : list A) i :
  py_index l i = None
  ↔ i < - Z.of_nat (length l) ∨ Z.of_nat (length l) ≤ i.
Proof.
  unfold py_index. destruct (Z.leb_spec 0 i).
  - rewrite lookup_ge_None. lia.
  - destruct (Z.leb_spec 0 (Z.of_nat (length l) + i)).
    + rewrite lookup_ge_None. lia.
    + split; [lia|done].
Qed.

Lemma py_index_nat {A} (l : list A) (n : nat) : py_index l (Z.of_nat n) = l !! n.
Proof.
  unfold py_index. destruct (Z.leb_spec 0 (Z.of_nat n)); [|lia].
  by rewrite Nat2Z.id.
Qed.

(** The loop reads no line outside the list when it starts at or after
    the first index from the end. *)
Lemma read_stats_at_raises fuel lines i stats e :
  read_stats_at fuel lines i stats = Raise e →
  - Z.of_nat (length lines) ≤ i → is_format_error e = true.
Proof.
  revert i stats. induction fuel as [|fuel IH]; intros i stats Hrun Hi;
    cbn [read_stats_at] in Hrun; [done|].
  destruct (Z.ltb_spec i (Z.of_nat (length lines))) as [Hlt|Hge];
    cbn [andb] in Hrun; [|done].
  destruct (length stats <? 4)%nat; [|done].
  destruct (py_index lines i) as [line|] eqn:Hline.
  2:{ apply py_index_None in Hline. lia. }
  destruct (matched (re_match re_block_start line)); [done|].
  apply bind_Raise in Hrun as [H|(stats' & _ & H)];
    [|eapply IH; [exact H|lia]].
  destruct (re_search re_speed line).
  { apply bind_Raise in H as [H|(? & _ & [=])]. by eapply parse_number_error. }
  destruct (re_search re_value line); [|done].
  apply bind_Raise in H as [H|(? & _ & [=])]. by eapply parse_number_error.
Qed.

(** From an index that is not negative the loop is the one of
    [read_stats]. *)
Lemma read_stats_at_nat fuel lines (n : nat) stats :
  (S (length lines - n) ≤ fuel)%nat →
  read_stats_at fuel lines (Z.of_nat n) stats
  = (λ '(st, j), (st, Z.of_nat j)) <$> read_stats (drop n lines) n stats.
Proof.
  revert n stats. induction fuel as [|fuel IH]; intros n stats Hfuel; [lia|].
  cbn [read_stats_at].
  destruct (lines !! n) as [line|] eqn:Hline.
  - pose proof (lookup_lt_Some _ _ _ Hline) as Hn.
    rewrite (drop_S _ _ _ Hline). cbn [read_stats].
    destruct (Z.ltb_spec (Z.of_nat n) (Z.of_nat (length lines))); [|lia].
    cbn [andb]. destruct (length stats <? 4)%nat; [|done].
    rewrite py_index_nat, Hline.
    destruct (matched (re_match re_block_start line)); [done|].
    destruct (match re_search re_speed line with
              | Some m_speed =>
                  x ← parse_number (grp 1 m_speed); Ok (stats ++ [x])
              | None =>
                  match re_search re_value line with
                  | Some m_val =>
                      x ← parse_number (grp 1 m_val); Ok (stats ++ [x])
                  | None => Ok stats
                  end
              end) as [stats'|e]; [|done].
    simpl. replace (Z.of_nat n + 1) with (Z.of_nat (S n)) by lia.
    apply IH. lia.
  - apply lookup_ge_None in Hline. rewrite drop_ge by done. cbn [read_stats].
    destruct (Z.ltb_spec (Z.of_nat n) (Z.of_nat (length lines))); [lia|done].
Qed.

Lemma parse_stat_block_at_nat lines (n : nat) :
  parse_stat_block_at lines (Z.of_nat n)
  = (λ '(entry, i), (entry, Z.of_nat i)) <$> parse_stat_block lines n.
Proof.
  unfold parse_stat_block_at, parse_stat_block. rewrite py_index_nat.
  destruct (lines !! n) as [header|]; [|done].
  destruct (re_match re_header header) as [m|]; [|done].
  set (run := read_stats_at _ lines (Z.of_nat n + 1) []).
  assert (run = (λ '(st, j), (st, Z.of_nat j))
                  <$> read_stats (drop (S n) lines) (S n) []) as ->.
  { unfold run. replace (Z.of_nat n + 1) with (Z.of_nat (S n)) by lia.
    apply read_stats_at_nat. lia. }
  destruct (py_int (grp 2 m)) as [rk|]; [|done]. simpl.
  destruct (read_stats (drop (S n) lines) (S n) []) as [[stats j]|]; [|done].
  simpl.
  destruct stats as [|s0 [|s1 [|s2 [|s3 [|]]]]]; try done.
  destruct (to_float s0); [|done]. destruct (to_float s1); [|done].
  destruct (to_float s2); [|done]. by destruct (to_float s3).
Qed.

(** X22: [parse_stat_block] raises IndexError exactly when [start_idx] is
    outside the list, past the last line or before the first one counted
    from the end; whatever else it raises is a ValueError for a numeric
    token that [parse_number] rejects, or the OverflowError of [float].
    At an index that is not negative it is the function that the scan
    calls. *)
Theorem parse_stat_block_raises lines start_idx :
  (parse_stat_block_at lines start_idx = Raise Index
   ↔ start_idx < - Z.of_nat (length lines)
     ∨ Z.of_nat (length lines) ≤ start_idx)
  ∧ (∀ e, parse_stat_block_at lines start_idx = Raise e →
          e = Index ∨ is_format_error e = true ∨ e = Overflow)
  ∧ (0 ≤ start_idx →
     parse_stat_block_at lines start_idx
     = (λ '(entry, i), (entry, Z.of_nat i))
         <$> parse_stat_block lines (Z.to_nat start_idx)).
Proof.
  assert (∀ e, parse_stat_block_at lines start_idx = Raise e →
               (e = Index ∧ py_index lines start_idx = None)
               ∨ (is_Some (py_index lines start_idx)
                  ∧ (is_format_error e = true ∨ e = Overflow))) as Hall.
  { intros e. unfold parse_stat_block_at.
    destruct (py_index lines start_idx) as [header|] eqn:Hheader.
    2:{ intros [= <-]. by left. }
    intros H. right. split; [by eexists|].
    destruct (re_match re_header header) as [m|]; [|done].
    apply bind_Raise in H as [H|(rk & _ & H)].
    { left. by apply py_int_error in H as ->. }
    apply bind_Raise in H as [H|([stats j] & _ & H)].
    { left. eapply read_stats_at_raises; [exact H|].
      assert (py_index lines start_idx ≠ None) as Hin by congruence.
      rewrite py_index_None in Hin. lia. }
    destruct stats as [|s0 [|s1 [|s2 [|s3 [|]]]]]; try done.
    repeat (apply bind_Raise in H as [H|(? & _ & H)];
            [right; by apply to_float_error in H as ->|]).
    done. }
  split; [split|split].
  - intros [[_ H]|[_ [H|H]]]%Hall; [by apply py_index_None|done..].
  - intros H%py_index_None. unfold parse_stat_block_at. by rewrite H.
  - intros e [[-> _]|[_ [H|H]]]%Hall; auto.
  - intros Hpos. rewrite <- (Z2Nat.id start_idx) at 1 by done.
    apply parse_stat_block_at_nat.
Qed.

(** ** Tokens that [parse_number] rejects *)

Lemma digit_value_None c : is_digit c = false → digit_value c = None.
Proof. unfold is_digit. by destruct (digit_value c). Qed.

Lemma int_unsigned_no_digit s :
  Forall (λ c, is_digit c = false) s → int_unsigned s = None.
Proof.
  destruct 1 as [|c s Hc _]; [done|]. simpl. by rewrite (digit_value_None c).
Qed.

Lemma py_int_no_digit s :
  Forall (λ c, is_digit c = false) s → py_int s = Raise (InvalidLiteral s).
Proof.
  intros Hs. unfold py_int.
  assert (int_literal s = None) as ->; [|done].
  unfold int_literal.
  destruct (strip_by_split int_space s) as (a & b & Heq & _).
  rewrite Heq in Hs at 1.
  apply Forall_app in Hs as [_ [Ht _]%Forall_app].
  destruct (strip_by int_space s) as [|c t]; [done|].
  pose proof (int_unsigned_no_digit _ Ht) as Hct.
  apply Forall_cons in Ht as [_ Ht].
  pose proof (int_unsigned_no_digit _ Ht) as Htl.
  destruct (c =? 0x2D)%N; [by rewrite Htl|].
  destruct (c =? 0x2B)%N; [by rewrite Htl|]. by rewrite Hct.
Qed.

Lemma plus_digit_head r v :
  matches (Cat (plus digit) r) v → ∃ c t, v = c :: t ∧ is_digit c = true.
Proof.
  intros H. inversion H as [| |? ? d rest Hd _| | | | | | |]; subst.
  apply matches_plus_digit in Hd as [Hne Hd].
  destruct d as [|c d]; [done|]. apply Forall_cons in Hd as [Hc _].
  by exists c, (d ++ rest).
Qed.

Lemma no_digit_no_number s :
  Forall (λ c, is_digit c = false) s →
  matched (re_fullmatch re_dot_groups s) = false
  ∧ matched (re_fullmatch re_comma_pair s) = false
  ∧ matched (re_fullmatch re_decimal s) = false
  ∧ matched (re_fullmatch re_digits s) = false.
Proof.
  intros Hs.
  assert (∀ c t, s = c :: t → is_digit c = true → False) as Hhead.
  { intros c t -> Hc. apply Forall_cons in Hs as [Hc' _]. congruence. }
  repeat split; apply re_fullmatch_not; try done; intros Hm.
  - inversion Hm as [| |? ? u w Hu _| | | | | | |]; subst.
    inversion Hu as [| |? ? d w' Hd _| | | | | | |]; subst.
    inversion Hd as [|? c Hc| | | | | | | |]; subst.
    by apply (Hhead c (w' ++ w)).
  - apply plus_digit_head in Hm as (c & t & -> & Hc). by apply (Hhead c t).
  - apply plus_digit_head in Hm as (c & t & -> & Hc). by apply (Hhead c t).
  - apply matches_plus_digit in Hm as [Hne Hd].
    destruct s as [|c t]; [done|]. apply Forall_cons in Hd as [Hc _].
    by apply (Hhead c t).
Qed.

Lemma split_from_Forall (P : char → Prop) sep cur s :
  Forall P cur → Forall P s → Forall (Forall P) (split_from sep cur s).
Proof.
  intros Hcur Hs. revert cur Hcur.
  induction Hs as [|c s Hc _ IH]; intros cur Hcur; simpl.
  - constructor; [|done]. by apply Forall_rev.
  - destruct (c =? sep)%N.
    + constructor; [by apply Forall_rev|]. by apply IH.
    + apply IH. by constructor.
Qed.

(** X23: [parse_number] raises ValueError on every string without a
    decimal digit: the empty string, white space, words, lone separators. *)
Theorem parse_number_needs_digit s :
  Forall (λ c, is_digit c = false) s →
  ∃ e, parse_number s = Raise e ∧ is_ValueError e = true.
Proof.
  intros Hs0. unfold parse_number.
  assert (Forall (λ c, is_digit c = false) (strip s)) as Hs.
  { unfold strip. destruct (strip_by_split is_space s) as (a & b & Heq & _).
    rewrite Heq in Hs0 at 1. by apply Forall_app in Hs0 as [_ [H _]%Forall_app]. }
  set (t := strip s) in *.
  destruct (no_digit_no_number t Hs) as (-> & -> & Hdec & Hdig).
  assert (∃ e, parse_number_plain t = Raise e ∧ is_ValueError e = true) as Hplain.
  { unfold parse_number_plain. rewrite Hdec, Hdig. by eexists. }
  destruct (_ && _); [|done].
  destruct (forallb _ _); [|done].
  rewrite py_int_no_digit.
  - by eexists.
  - apply Forall_concat. by apply split_from_Forall.
Qed.

Lemma parse_number_needs_digit_witness :
  Forall (λ c, is_digit c = false) (lit " n/a ")
  ∧ ∃ e, parse_number (lit " n/a ") = Raise e ∧ is_ValueError e = true.
Proof.
  assert (Forall (λ c, is_digit c = false) (lit " n/a ")) as H.
  { repeat constructor. }
  split; [exact H|]. exact (parse_number_needs_digit (lit " n/a ") H).
Defined.

(** ** Upgrade totals and the lines they come from *)

Lemma scan_upgrades_count ls in_block acc totals :
  scan_upgrades ls in_block acc = Ok totals →
  (length totals
   ≤ length acc + (if in_block then 1 else 0) + length (star_headers ls))%nat
  ∧ (length totals ≤ length acc + length (total_lines ls))%nat.
Proof.
  unfold star_headers, total_lines.
  revert in_block acc. induction ls as [|l ls IH]; intros in_block acc;
    cbn [scan_upgrades List.filter].
  - intros [= <-]. simpl. lia.
  - destruct (matched (re_fullmatch re_stars l)) eqn:Hstars.
    { intros [H1 H2]%IH. destruct (startswith [0x3D%N] l), in_block;
        simpl in *; lia. }
    destruct in_block.
    2:{ intros [H1 H2]%IH. destruct (startswith [0x3D%N] l); simpl in *; lia. }
    destruct (startswith [0x3D%N] l) eqn:Heq.
    2:{ intros [H1 H2]%IH. simpl in *. lia. }
    intros (acc' & Hacc' & [H1 H2]%IH)%bind_Ok.
    assert (length acc' ≤ S (length acc))%nat as Hlen.
    { destruct (re_search re_block_total l) as [m|];
        [|injection Hacc' as <-; lia].
      apply bind_Ok in Hacc' as (x & _ & Hacc').
      apply bind_Ok in Hacc' as (z & _ & [= <-]).
      rewrite length_app. simpl. lia. }
    simpl in *. lia.
Qed.

(** X24: an accepted record has no more upgrade totals than the page has
    lines made of star glyphs only, and no more than it has lines that
    start with an equals sign: each total needs a star header before it
    and a total line of its own. *)
Theorem record_upgrade_blocks text car_id r :
  parse_mei_page text car_id = Ok r →
  (length (Car.upgrade_cumulative r)
   ≤ length (star_headers (page_lines text)))%nat
  ∧ (length (Car.upgrade_cumulative r)
     ≤ length (total_lines (page_lines text)))%nat.
Proof.
  intros (reqs & total & uses_key & eps & es & _ & _ & _ & _ & _ & _ & Hup
          & _)%parse_mei_page_Ok.
  apply scan_upgrades_count in Hup. simpl in Hup. lia.
Qed.

Lemma record_upgrade_blocks_witness :
  parse_mei_page demo_page 7 = Ok demo_record
  ∧ (length (Car.upgrade_cumulative demo_record)
     ≤ length (star_headers (page_lines demo_page)))%nat
  ∧ (length (Car.upgrade_cumulative demo_record)
     ≤ length (total_lines (page_lines demo_page)))%nat.
Proof.
  split; [vm_compute; reflexivity|].
  apply (record_upgrade_blocks demo_page 7 demo_record). vm_compute; reflexivity.
Defined.

(** ** Running sums and differences *)

(** X25: the running sums of [itertools.accumulate] (bp_cumulative, line
    257) and the differences of the per-star loop (upgrade_per_star, lines
    413-418) undo each other. *)
Theorem per_star_accumulate_inverse l :
  per_star (accumulate l) = l ∧ accumulate (per_star l) = l.
Proof.
  unfold accumulate. split; apply list_eq; intros i.
  - destruct (decide (i < length l)%nat) as [Hi|Hi].
    2:{ rewrite !lookup_ge_None_2; [done|lia|].
        rewrite per_star_length, accumulate_from_length. lia. }
    destruct (lookup_lt_is_Some_2 l i Hi) as [x Hx].
    destruct i as [|i].
    + rewrite per_star_first, accumulate_from_lookup by done.
      rewrite (take_S_r _ _ _ Hx). simpl. rewrite Hx. f_equal. lia.
    + rewrite (per_star_next _ i (sum (take (S i) l)) (sum (take (S (S i)) l))).
      * rewrite Hx, (take_S_r _ _ _ Hx), sum_app. simpl. f_equal. lia.
      * rewrite accumulate_from_lookup by lia. f_equal.
      * rewrite accumulate_from_lookup by lia. f_equal.
  - destruct (decide (i < length l)%nat) as [Hi|Hi].
    2:{ rewrite !lookup_ge_None_2; [done|lia|].
        rewrite accumulate_from_length, per_star_length. lia. }
    destruct (lookup_lt_is_Some_2 l i Hi) as [x Hx].
    rewrite accumulate_from_lookup by (rewrite per_star_length; lia).
    by rewrite (sum_per_star_prefix l i x Hx), Hx.
Qed.

(** * The driver *)

(** ** The requested ids *)

Lemma sorted_strictly_increasing l :
  StronglySorted Z.le l → NoDup l → strictly_increasing l.
Proof.
  induction 1 as [|x l Hl IH Hx]; intros Hnd i j a b Hij Ha Hb.
  - done.
  - apply NoDup_cons in Hnd as [Hnotin Hnd].
    destruct j as [|j]; [lia|]. simpl in Hb.
    destruct i as [|i].
    + injection Ha as <-.
      assert (b ∈ l) as Hin by (by eapply list_elem_of_lookup_2).
      pose proof (proj1 (Forall_forall _ _) Hx b Hin) as Hle.
      assert (x ≠ b) by (by intros ->). lia.
    + simpl in Ha. apply (IH Hnd i j); [lia|done..].
Qed.

Lemma sorted_spec ids :
  strictly_increasing (sorted ids) ∧ ∀ z, z ∈ sorted ids ↔ z ∈ ids.
Proof.
  unfold sorted. split.
  - apply sorted_strictly_increasing.
    + apply (StronglySorted_merge_sort Z.le).
    + rewrite merge_sort_Permutation. apply NoDup_elements.
  - intros z. rewrite merge_sort_Permutation. apply elem_of_elements.
Qed.

(** X26: when the script goes on with a list [car_ids], the list is not
    empty, it is strictly increasing (so it holds no id twice), and it holds
    exactly the ids that the parts of the trimmed line name. *)
Theorem requested_ids_sorted input car_ids :
  requested_ids input = Some car_ids →
  car_ids ≠ []
  ∧ strictly_increasing car_ids
  ∧ ∀ z, z ∈ car_ids
         ↔ ∃ part, part ∈ split 0x2C%N (strip input) ∧ z ∈ part_ids part.
Proof.
  unfold requested_ids. cbv zeta.
  destruct (strip input) as [|c raw] eqn:Hraw; [done|].
  destruct (sorted_spec (id_set (c :: raw))) as [Hinc Hmem].
  assert (∀ z X l,
            z ∈ foldl (λ ids part, ids ∪ part_ids part) X l
            ↔ z ∈ X ∨ ∃ part, part ∈ l ∧ z ∈ part_ids part) as Hfold.
  { intros z X l. revert X. induction l as [|p l IH]; intros X; simpl.
    - split; [by left|]. intros [H|(p & Hp & _)]; [done|by inversion Hp].
    - rewrite IH, elem_of_union. split.
      + intros [[H|H]|(q & Hq & Hz)]; [by left| |].
        * right. exists p. split; [apply list_elem_of_here|done].
        * right. exists q. split; [by apply list_elem_of_further|done].
      + intros [H|(q & Hq & Hz)]; [by left; left|].
        apply elem_of_cons in Hq as [->|Hq]; [by left; right|].
        right. by exists q. }
  destruct (sorted (id_set (c :: raw))) as [|z0 ids] eqn:Hsorted; [done|].
  intros [= <-]. split; [done|]. split; [done|].
  intros z. rewrite Hmem. unfold id_set. rewrite Hfold.
  split; [|by right]. intros [H|H]; [|done]. by apply elem_of_empty in H.
Qed.

Lemma requested_ids_sorted_witness :
  requested_ids (lit " 1-3, 7,x,5-4 ") = Some [1; 2; 3; 4; 5; 7]
  ∧ [1; 2; 3; 4; 5; 7] ≠ []
  ∧ strictly_increasing [1; 2; 3; 4; 5; 7]
  ∧ ∀ z, z ∈ [1; 2; 3; 4; 5; 7]
         ↔ ∃ part, part ∈ split 0x2C%N (strip (lit " 1-3, 7,x,5-4 "))
                   ∧ z ∈ part_ids part.
Proof.
  split; [vm_compute; reflexivity|].
  apply (requested_ids_sorted (lit " 1-3, 7,x,5-4 ")). vm_compute; reflexivity.
Defined.

Lemma split_from_sep_app sep cur a b :
  split_from sep cur (a ++ sep :: b)
  = split_from sep cur a ++ split_from sep [] b.
Proof.
  revert cur. induction a as [|c a IH]; intros cur; simpl.
  - by rewrite N.eqb_refl.
  - destruct (c =? sep)%N; [by rewrite IH|apply IH].
Qed.

Lemma foldl_part_ids X l :
  foldl (λ ids part, ids ∪ part_ids part) X l
  = X ∪ foldl (λ ids part, ids ∪ part_ids part) ∅ l.
Proof.
  revert X. induction l as [|p l IH]; intros X; simpl.
  - by rewrite union_empty_r_L.
  - rewrite (IH (X ∪ part_ids p)), (IH (∅ ∪ part_ids p)).
    by rewrite union_empty_l_L, union_assoc_L.
Qed.

(** X27: a comma joins requests: the ids of [a,b] are those of [a] and
    those of [b]. *)
Theorem id_set_comma a b :
  id_set (a ++ 0x2C%N :: b) = id_set a ∪ id_set b.
Proof.
  unfold id_set, split. rewrite split_from_sep_app, foldl_app.
  apply foldl_part_ids.
Qed.

Lemma split_once_pair sep a b :
  contains sep a = false → split_once sep (a ++ sep :: b) = (a, b).
Proof.
  induction a as [|c a IH]; simpl.
  - by rewrite N.eqb_refl.
  - intros [Hc Ha]%orb_false_iff. rewrite N.eqb_sym, Hc, IH by done. done.
Qed.

Lemma elem_of_range_ids start end_ z :
  z ∈ range_ids start end_ ↔ Z.min start end_ ≤ z ≤ Z.max start end_.
Proof.
  unfold range_ids. destruct (Z.ltb_spec end_ start);
    rewrite elem_of_list_to_set, elem_of_seqZ; lia.
Qed.

(** X28: a part that is one run of at most 4300 digits names that number,
    and a part [a-b] of two such runs names every id between the two
    numbers, whichever of them is the larger; a run of more digits makes
    [int] raise, and the part names nothing. *)
Theorem part_ids_range a b m n :
  digit_run a → digit_run b →
  digits_value 0 a = Some m → digits_value 0 b = Some n →
  (short a → part_ids a = {[ m ]})
  ∧ (short a → short b →
     ∀ z, z ∈ part_ids (a ++ 0x2D%N :: b) ↔ Z.min m n ≤ z ≤ Z.max m n)
  ∧ (¬ short a → part_ids a = ∅ ∧ part_ids (a ++ 0x2D%N :: b) = ∅).
Proof.
  intros Ha Hb Hm Hn.
  destruct (int_literal_value a Ha) as (m' & Hm' & _ & Hla).
  destruct (int_literal_value b Hb) as (n' & Hn' & _ & Hlb).
  rewrite Hm in Hm'. injection Hm' as <-.
  rewrite Hn in Hn'. injection Hn' as <-.
  assert (strip a = a) as Hsa
    by exact (strip_by_digit_run is_space a digit_not_space Ha).
  assert (strip b = b) as Hsb
    by exact (strip_by_digit_run is_space b digit_not_space Hb).
  assert (contains 0x2D%N a = false) as Hca by (by apply digit_run_no_char).
  pose proof (strip_pair a 0x2D%N b Ha Hb) as Hstrip.
  assert (contains 0x2D%N (a ++ 0x2D%N :: b) = true) as Hcontains.
  { rewrite contains_app. unfold contains at 2. cbn [existsb].
    rewrite N.eqb_refl. by rewrite orb_true_r. }
  pose proof (split_once_pair 0x2D%N a b Hca) as Hsplit.
  assert (∃ c t, a = c :: t) as (c & t & Hct).
  { destruct Ha as [Hne _]. destruct a as [|c t]; [done|]. by eexists _, _. }
  split; [|split].
  - intros Hshort. unfold part_ids.
    rewrite Hsa, Hca, (py_int_short a m Hla Hshort). by rewrite Hct.
  - intros Hshort_a Hshort_b z. unfold part_ids.
    unfold str, char in *.
    rewrite Hstrip, Hcontains, Hsplit, Hsa, Hsb.
    rewrite (py_int_short a m Hla Hshort_a), (py_int_short b n Hlb Hshort_b).
    rewrite Hct. apply elem_of_range_ids.
  - intros Hlong. pose proof (py_int_long a Ha Hlong) as Hraise. split.
    + unfold part_ids. rewrite Hsa, Hca, Hraise. by rewrite Hct.
    + unfold part_ids. unfold str, char in *.
      rewrite Hstrip, Hcontains, Hsplit, Hsa, Hraise. by rewrite Hct.
Qed.

Lemma part_ids_range_witness :
  digit_run (lit "12") ∧ digit_run (lit "9")
  ∧ digits_value 0 (lit "12") = Some 12 ∧ digits_value 0 (lit "9") = Some 9
  ∧ (short (lit "12") → part_ids (lit "12") = {[ 12 ]})
  ∧ (short (lit "12") → short (lit "9") →
     ∀ z, z ∈ part_ids (lit "12" ++ 0x2D%N :: lit "9")
          ↔ Z.min 12 9 ≤ z ≤ Z.max 12 9)
  ∧ (¬ short (lit "12") →
     part_ids (lit "12") = ∅
     ∧ part_ids (lit "12" ++ 0x2D%N :: lit "9") = ∅).
Proof.
  assert (digit_run (lit "12")) as Ha by (split; [done|repeat constructor]).
  assert (digit_run (lit "9")) as Hb by (split; [done|repeat constructor]).
  split; [exact Ha|]. split; [exact Hb|].
  split; [reflexivity|]. split; [reflexivity|].
  exact (part_ids_range (lit "12") (lit "9") 12 9 Ha Hb eq_refl eq_refl).
Defined.

Lemma lstrip_by_snoc p y c :
  p c = false → lstrip_by p (y ++ [c]) = lstrip_by p y ++ [c].
Proof.
  intros Hc. induction y as [|d y IH]; simpl; [by rewrite Hc|].
  by destruct (p d).
Qed.

(** X29: a part without a decimal digit names no id, and neither does a
    part that begins with a minus sign: the text before the sign is empty
    and [int] rejects it, so that [-5] is dropped. *)
Theorem part_ids_ignored part :
  (Forall (λ c, is_digit c = false) part → part_ids part = ∅)
  ∧ part_ids (0x2D%N :: part) = ∅.
Proof.
  split.
  - intros Hpart. unfold part_ids.
    assert (Forall (λ c, is_digit c = false) (strip part)) as Hs.
    { unfold strip. destruct (strip_by_split is_space part) as (a & b & Heq & _).
      rewrite Heq in Hpart at 1.
      by apply Forall_app in Hpart as [_ [H _]%Forall_app]. }
    destruct (strip part) as [|c t] eqn:Hstrip; [done|].
    destruct (contains 0x2D%N (c :: t)).
    + destruct (split_once 0x2D%N (c :: t)) as [start_str end_str] eqn:Hsplit.
      assert (Forall (λ c, is_digit c = false) start_str) as Hstart.
      { clear Hstrip. revert start_str end_str Hsplit.
        induction Hs as [|d u Hd _ IH]; intros start_str end_str; simpl.
        - by intros [= <- _].
        - destruct (d =? 0x2D)%N; [by intros [= <- _]|].
          destruct (split_once 0x2D%N u) as [a' b'].
          intros [= <- _]. constructor; [done|]. by eapply IH. }
      rewrite py_int_no_digit; [done|].
      unfold strip. destruct (strip_by_split is_space start_str)
        as (a & b & Heq & _).
      rewrite Heq in Hstart at 1.
      by apply Forall_app in Hstart as [_ [H _]%Forall_app].
    + by rewrite py_int_no_digit.
  - unfold part_ids.
    assert (∃ t, strip (0x2D%N :: part) = 0x2D%N :: t) as [t ->].
    { unfold strip, strip_by. cbn [lstrip_by].
      change (is_space 0x2D%N) with false. cbv iota.
      change (rev (0x2D%N :: part)) with (rev part ++ [0x2D%N]).
      rewrite lstrip_by_snoc by done. rewrite rev_unit. by eexists. }
    unfold contains. cbn [existsb split_once]. rewrite N.eqb_refl. simpl.
    done.
Qed.

(** ** The batch *)

Lemma parse_mei_page_id text car_id r :
  parse_mei_page text car_id = Ok r → Car.id r = car_id.
Proof.
  intros H. unfold parse_mei_page in H. cbv zeta in H.
  apply bind_Ok in H as ([car_class name] & _ & H).
  apply bind_Ok in H as (max_star & _ & H).
  apply bind_Ok in H as (fuel & _ & H).
  apply bind_Ok in H as ([[reqs total] uses_key] & _ & H).
  apply bind_Ok in H as ([epic_per_stat price] & _ & H).
  apply bind_Ok in H as (stat_entries & _ & H).
  case_bool_decide; [done|].
  apply bind_Ok in H as (totals & _ & H).
  apply bind_Ok in H as (upgrade_all_full & _ & H).
  apply bind_Ok in H as (upgrade_all & _ & H).
  by injection H as <-.
Qed.

Lemma strictly_increasing_sorted l :
  strictly_increasing l ↔ StronglySorted Z.lt l.
Proof.
  split.
  - induction l as [|x l IH]; intros H; constructor.
    + apply IH. intros i j a b Hij Ha Hb. apply (H (S i) (S j)); [lia|done..].
    + apply Forall_forall. intros b [j Hj]%list_elem_of_lookup_1.
      apply (H 0%nat (S j)); [lia|done..].
  - induction 1 as [|x l Hl IH Hx]; intros i j a b Hij Ha Hb; [done|].
    destruct j as [|j]; [lia|]. simpl in Hb. destruct i as [|i].
    + injection Ha as <-.
      apply (proj1 (Forall_forall _ _) Hx). by eapply list_elem_of_lookup_2.
    + simpl in Ha. apply (IH i j); [lia|done..].
Qed.

Lemma sorted_sublist (l1 l2 : list Z) :
  l1 `sublist_of` l2 → StronglySorted Z.lt l2 → StronglySorted Z.lt l1.
Proof.
  induction 1 as [|x l1 l2 Hsub IH|x l1 l2 Hsub IH]; intros Hs; [done|..].
  - apply StronglySorted_inv in Hs as [Hs Hx]. constructor; [by apply IH|].
    apply Forall_forall. intros y Hy.
    apply (proj1 (Forall_forall _ _) Hx). by eapply elem_of_sublist.
  - apply StronglySorted_inv in Hs as [Hs _]. by apply IH.
Qed.

Lemma insert_by_id_Permutation c l : insert_by_id c l ≡ₚ c :: l.
Proof.
  induction l as [|d l IH]; simpl; [done|].
  destruct (Car.id c <=? Car.id d); [done|]. by rewrite IH, Permutation_swap.
Qed.

Lemma sort_by_id_Permutation l : sort_by_id l ≡ₚ l.
Proof.
  induction l as [|c l IH]; simpl; [done|].
  by rewrite insert_by_id_Permutation, IH.
Qed.

Lemma sort_by_id_sorted l :
  StronglySorted Z.lt (Car.id <$> l) → sort_by_id l = l.
Proof.
  induction l as [|c l IH]; simpl; [done|].
  intros [Hl Hc]%StronglySorted_inv. rewrite (IH Hl).
  destruct l as [|d l]; [done|]. simpl.
  apply Forall_cons in Hc as [Hcd _].
  destruct (Z.leb_spec (Car.id c) (Car.id d)); [done|lia].
Qed.

Section BatchFacts.

Context {W E : Type}.
Variable fetch_mei_html : Z → W → (E + str) * W.

Lemma parse_mei_car_id cid w car w' :
  parse_mei_car fetch_mei_html cid w = (inr car, w') → Car.id car = cid.
Proof.
  unfold parse_mei_car. destruct (fetch_mei_html cid w) as [[e|text] w0]; [done|].
  destruct (parse_mei_page text cid) as [r|e] eqn:Hparse; [|done].
  intros [= <- _]. by apply (parse_mei_page_id text).
Qed.

Lemma batch_loop car_ids (b : batch (W:=W) (E:=E)) :
  ∃ new_results new_errors,
    results (foldl (batch_step fetch_mei_html) b car_ids)
    = results b ++ new_results
    ∧ errors (foldl (batch_step fetch_mei_html) b car_ids)
      = errors b ++ new_errors
    ∧ (length new_results + length new_errors = length car_ids)%nat
    ∧ (Car.id <$> new_results) ++ new_errors.*1 ≡ₚ car_ids
    ∧ (Car.id <$> new_results) `sublist_of` car_ids
    ∧ new_errors.*1 `sublist_of` car_ids.
Proof.
  revert b. induction car_ids as [|cid car_ids IH]; intros b; simpl.
  - exists [], []. by rewrite !app_nil_r.
  - destruct (IH (batch_step fetch_mei_html b cid))
      as (rs & es & -> & -> & Hlen & Hperm & Hrs & Hes).
    unfold batch_step.
    destruct (parse_mei_car fetch_mei_html cid (world b))
      as [[e|car] w'] eqn:Hcar; simpl.
    + exists rs, ((cid, e) :: es). rewrite <- app_assoc. simpl.
      split; [done|]. split; [done|]. split; [lia|].
      split; [by rewrite <- Permutation_middle, Hperm|].
      split; [by apply sublist_cons|by apply sublist_skip].
    + apply parse_mei_car_id in Hcar as Hid.
      exists (car :: rs), es. rewrite <- app_assoc. simpl. rewrite Hid.
      split; [done|]. split; [done|]. split; [lia|].
      split; [by rewrite Hperm|].
      split; [by apply sublist_skip|by apply sublist_cons].
Qed.

End BatchFacts.

(** X30: whatever the fetches do, the batch accounts for every requested id
    exactly once: each id ends either on a record of [results], which
    carries it, or in [errors]; one failure stops nothing.  When the ids are
    strictly increasing, as the script requests them, so are the ids of the
    results and those of the errors, and the final sort changes nothing. *)
Theorem run_batch_outcome {W E : Type}
        (fetch_mei_html : Z → W → (E + str) * W) (car_ids : list Z) (w : W) :
  let loop := foldl (batch_step fetch_mei_html)
                    {| results := []; errors := []; world := w |} car_ids in
  let b := run_batch fetch_mei_html car_ids w in
  (length (results b) + length (errors b) = length car_ids)%nat
  ∧ (Car.id <$> results b) ++ (errors b).*1 ≡ₚ car_ids
  ∧ (strictly_increasing car_ids →
     strictly_increasing (Car.id <$> results b)
     ∧ strictly_increasing ((errors b).*1)
     ∧ results b = results loop).
Proof.
  cbv zeta. unfold run_batch. cbv zeta. simpl.
  destruct (batch_loop fetch_mei_html car_ids
              {| results := []; errors := []; world := w |})
    as (rs & es & Hrs & Hes & Hlen & Hperm & Hsub_rs & Hsub_es).
  simpl in Hrs, Hes. rewrite Hrs, Hes.
  split; [by rewrite (Permutation_length (sort_by_id_Permutation rs))|].
  split; [by rewrite (sort_by_id_Permutation rs)|].
  intros Hinc%strictly_increasing_sorted.
  pose proof (sorted_sublist _ _ Hsub_rs Hinc) as Hsorted.
  rewrite (sort_by_id_sorted rs Hsorted).
  split; [by apply strictly_increasing_sorted|].
  split; [|done].
  apply strictly_increasing_sorted. by apply (sorted_sublist _ car_ids).
Qed.
